(** * Fleet management system: reservation store, robot state machine,
      fleet registry and traffic manager

    A shallow embedding of [models/nav_graph.py], [models/robot.py],
    [controllers/fleet_manager.py] and [controllers/traffic_manager.py],
    followed by the properties of the reservation protocol.

    Conventions of the embedding:
    - vertex ids and robot ids are Python integers, here [Z]; a list
      subscript [l[i]] follows Python: a negative index counts from the end
      and an index out of range raises [IndexError];
    - a raised exception is a value [Raise e] of the [result] monad; nothing
      in the modelled code catches one, the main loop ends the process, and
      what a call had already written to the store when it raised is not
      recorded;
    - the navigation graph is one shared mutable object: every operation
      takes the store and returns the store it leaves behind;
    - coordinates, distances and times are Python/numpy numbers: their
      arithmetic is the interface [Scalar], and the binary64 instance
      [float_scalar] is used to run the model;
    - [networkx.shortest_path] is the interface [PathFinder], with the
      breadth-first instance [bfs_pathfinder] to run the model;
    - [log_event] only appends a line to the log file and touches none of
      the modelled state, it is left out. *)

From Stdlib Require Import ZArith Bool Lia String DecimalString Floats.
From stdpp Require Import base option list.

Local Open Scope Z_scope.

(** ** Exceptions *)

Inductive PyExc : Type :=
  | IndexError
  | KeyError
  | NodeNotFound
  | ValueError
  | OverflowError.

Inductive result (A : Type) : Type :=
  | Ok (a : A)
  | Raise (e : PyExc).
Arguments Ok {A} a.
Arguments Raise {A} e.

Global Instance result_ret : MRet result := fun A a => Ok a.
Global Instance result_bind : MBind result := fun A B f m =>
  match m with
  | Ok a => f a
  | Raise e => Raise e
  end.

(** ** Python list subscripts *)

(** The position that [l[i]] designates, if any. *)
Definition py_index {A : Type} (l : list A) (i : Z) : option nat :=
  let n := Z.of_nat (length l) in
  if (0 <=? i) && (i <? n) then Some (Z.to_nat i)
  else if (- n <=? i) && (i <? 0) then Some (Z.to_nat (n + i))
  else None.

(** [l[i]] *)
Definition py_getitem {A : Type} (l : list A) (i : Z) : result A :=
  match py_index l i with
  | Some k =>
      match l !! k with
      | Some a => Ok a
      | None => Raise IndexError
      end
  | None => Raise IndexError
  end.

(** [l[i] = f(l[i])]: the element that [l[i]] designates is updated in
    place. *)
Definition py_update {A : Type} (l : list A) (i : Z) (f : A -> A)
  : result (list A) :=
  match py_index l i with
  | Some k =>
      match l !! k with
      | Some a => Ok (<[k := f a]> l)
      | None => Raise IndexError
      end
  | None => Raise IndexError
  end.

(** [str(z)] of a Python integer, as an f-string prints it. *)
Definition py_str (z : Z) : string := NilZero.string_of_int (Z.to_int z).

(** ** Numbers *)

(** The arithmetic the code performs on coordinates: Python numbers and
    numpy scalars, with Python's int-or-float dispatch inside each
    operation. [num_int] is [int(x)], which raises [ValueError] on a NaN
    and [OverflowError] on an infinity, [num_norm] is [np.linalg.norm] of a
    two-element array and [num_2_0] is the literal [2.0]. *)
Class Scalar : Type := {
  num : Type;
  num_add : num -> num -> num;
  num_sub : num -> num -> num;
  num_mul : num -> num -> num;
  num_div : num -> num -> num;
  num_lt : num -> num -> bool;
  num_int : num -> result num;
  num_norm : num * num -> num;
  num_2_0 : num
}.

(** The arithmetic of the click handler [select_robot] besides: the power
    operator [**] and the two exponents it is used with, the integer [2]
    and the float [0.5]. *)
Class ScalarPow {SC : Scalar} : Type := {
  num_pow : num -> num -> num;
  num_2 : num;
  num_0_5 : num
}.

(** ** The networkx graph *)

(** [nx.DiGraph] as the code fills it: the nodes in insertion order and the
    directed edges. Node and edge attributes are copies made at load time
    and are never read again. *)
Record DiGraph : Type := {
  nodes : list Z;
  edges : list (Z * Z)
}.

Definition has_node (G : DiGraph) (v : Z) : bool :=
  existsb (Z.eqb v) (nodes G).

Definition add_node (v : Z) (G : DiGraph) : DiGraph :=
  if has_node G v then G else {| nodes := nodes G ++ [v]; edges := edges G |}.

Definition add_edge (u v : Z) (G : DiGraph) : DiGraph :=
  let G1 := add_node v (add_node u G) in
  if existsb (fun e => (fst e =? u) && (snd e =? v)) (edges G1) then G1
  else {| nodes := nodes G1; edges := edges G1 ++ [(u, v)] |}.

(** Outcome of [nx.shortest_path(G, source, target)]: a path, or one of the
    two exceptions [NetworkXNoPath] and [NodeNotFound]. *)
Inductive PathOutcome : Type :=
  | PathFound (p : list Z)
  | NoPath
  | NodeMissing.

(** [networkx.shortest_path] with both end points given. The one law the
    development relies on is networkx's answer for [source == target]: the
    one-vertex path, when the vertex is a node of the graph. *)
Class PathFinder : Type := {
  nx_shortest_path : DiGraph -> Z -> Z -> PathOutcome;
  nx_shortest_path_self :
    forall G v, has_node G v = true -> nx_shortest_path G v v = PathFound [v]
}.

(** * models/nav_graph.py *)

Section NavGraphModel.
Context {SC : Scalar}.

Record Vertex : Type := {
  v_id : Z;
  v_x : num;
  v_y : num;
  v_name : string;
  v_is_charger : bool;
  v_occupying_robot : option Z
}.

Record Lane : Type := {
  l_from_vertex : Z;
  l_to_vertex : Z;
  l_speed_limit : num;
  l_occupying_robot : option Z;
  l_is_blocked : bool
}.

Record NavGraph : Type := {
  graph : DiGraph;
  vertices : list Vertex;
  lanes : list Lane;
  scale_factor : num;
  offset_x : num;
  offset_y : num;
  min_x : num;
  max_x : num;
  min_y : num;
  max_y : num
}.

(** [vertex['occupying_robot'] = o] *)
Definition vertex_set_occupying_robot (o : option Z) (v : Vertex) : Vertex :=
  {| v_id := v_id v; v_x := v_x v; v_y := v_y v; v_name := v_name v;
     v_is_charger := v_is_charger v; v_occupying_robot := o |}.

(** [lane['occupying_robot'] = o] *)
Definition lane_set_occupying_robot (o : option Z) (l : Lane) : Lane :=
  {| l_from_vertex := l_from_vertex l; l_to_vertex := l_to_vertex l;
     l_speed_limit := l_speed_limit l; l_occupying_robot := o;
     l_is_blocked := l_is_blocked l |}.

Definition set_vertices (vs : list Vertex) (g : NavGraph) : NavGraph :=
  {| graph := graph g; vertices := vs; lanes := lanes g;
     scale_factor := scale_factor g; offset_x := offset_x g;
     offset_y := offset_y g; min_x := min_x g; max_x := max_x g;
     min_y := min_y g; max_y := max_y g |}.

Definition set_lanes (ls : list Lane) (g : NavGraph) : NavGraph :=
  {| graph := graph g; vertices := vertices g; lanes := ls;
     scale_factor := scale_factor g; offset_x := offset_x g;
     offset_y := offset_y g; min_x := min_x g; max_x := max_x g;
     min_y := min_y g; max_y := max_y g |}.

(** The vertex and lane dictionaries [load_from_json] creates: nobody
    occupies them and no lane is blocked. *)
Definition new_vertex (i : Z) (x y : num) (name : string) (is_charger : bool)
  : Vertex :=
  {| v_id := i; v_x := x; v_y := y; v_name := name;
     v_is_charger := is_charger; v_occupying_robot := None |}.

Definition new_lane (from_vertex to_vertex : Z) (speed_limit : num) : Lane :=
  {| l_from_vertex := from_vertex; l_to_vertex := to_vertex;
     l_speed_limit := speed_limit; l_occupying_robot := None;
     l_is_blocked := false |}.

(** The [nx.DiGraph] of [load_from_json]: [add_node(i)] for the vertices
    in order, then [add_edge] for the lanes in order. *)
Definition build_graph (vs : list Vertex) (ls : list Lane) : DiGraph :=
  fold_left (fun G l => add_edge (l_from_vertex l) (l_to_vertex l) G) ls
    (fold_left (fun G v => add_node (v_id v) G) vs
       {| nodes := []; edges := [] |}).

Definition get_scaled_position (g : NavGraph) (vertex_id : Z)
  : result (num * num) :=
  vertex ← py_getitem (vertices g) vertex_id;
  let x := num_add (num_mul (num_sub (v_x vertex) (min_x g)) (scale_factor g))
                   (offset_x g) in
  let y := num_add (num_mul (num_sub (v_y vertex) (min_y g)) (scale_factor g))
                   (offset_y g) in
  ix ← num_int x;
  iy ← num_int y;
  mret (ix, iy).

Definition get_shortest_path {P : PathFinder} (g : NavGraph)
    (start_vertex end_vertex : Z) : result (option (list Z)) :=
  match nx_shortest_path (graph g) start_vertex end_vertex with
  | PathFound path => Ok (Some path)
  | NoPath => Ok None
  | NodeMissing => Raise NodeNotFound
  end.

Definition reserve_vertex (vertex_id robot_id : Z) (g : NavGraph)
  : result (bool * NavGraph) :=
  vertex ← py_getitem (vertices g) vertex_id;
  match v_occupying_robot vertex with
  | None =>
      vs ← py_update (vertices g) vertex_id
             (vertex_set_occupying_robot (Some robot_id));
      mret (true, set_vertices vs g)
  | Some _ => mret (false, g)
  end.

Definition release_vertex (vertex_id robot_id : Z) (g : NavGraph)
  : result NavGraph :=
  vertex ← py_getitem (vertices g) vertex_id;
  if decide (v_occupying_robot vertex = Some robot_id) then
    vs ← py_update (vertices g) vertex_id (vertex_set_occupying_robot None);
    mret (set_vertices vs g)
  else mret g.

Definition lane_matches (from_vertex to_vertex : Z) (lane : Lane) : bool :=
  (l_from_vertex lane =? from_vertex) && (l_to_vertex lane =? to_vertex).

(** The loop of [reserve_lane]: it returns at the first lane from
    [from_vertex] to [to_vertex]. *)
Fixpoint reserve_lane_loop (from_vertex to_vertex robot_id : Z)
    (ls : list Lane) : bool * list Lane :=
  match ls with
  | [] => (false, [])
  | lane :: rest =>
      if lane_matches from_vertex to_vertex lane then
        match l_occupying_robot lane with
        | None =>
            if negb (l_is_blocked lane)
            then (true, lane_set_occupying_robot (Some robot_id) lane :: rest)
            else (false, lane :: rest)
        | Some _ => (false, lane :: rest)
        end
      else
        let '(ok, rest') :=
          reserve_lane_loop from_vertex to_vertex robot_id rest in
        (ok, lane :: rest')
  end.

Definition reserve_lane (from_vertex to_vertex robot_id : Z) (g : NavGraph)
  : bool * NavGraph :=
  let '(ok, ls) :=
    reserve_lane_loop from_vertex to_vertex robot_id (lanes g) in
  (ok, set_lanes ls g).

(** The loop of [release_lane]: it has no [break] and visits every lane. *)
Fixpoint release_lane_loop (from_vertex to_vertex robot_id : Z)
    (ls : list Lane) : list Lane :=
  match ls with
  | [] => []
  | lane :: rest =>
      (if lane_matches from_vertex to_vertex lane
          && bool_decide (l_occupying_robot lane = Some robot_id)
       then lane_set_occupying_robot None lane
       else lane)
      :: release_lane_loop from_vertex to_vertex robot_id rest
  end.

Definition release_lane (from_vertex to_vertex robot_id : Z) (g : NavGraph)
  : NavGraph :=
  set_lanes (release_lane_loop from_vertex to_vertex robot_id (lanes g)) g.

End NavGraphModel.

(** * models/robot.py *)

Module Robot.
Section RobotModel.
Context {SC : Scalar} {PF : PathFinder}.

Inductive State : Type :=
  | IDLE
  | MOVING
  | WAITING
  | CHARGING
  | COMPLETED.

#[global] Instance State_eq_dec : EqDecision State.
Proof. solve_decision. Defined.

(** The [event] strings of a status update. *)
Inductive Event : Type :=
  | started_charging
  | moving_to (next_vertex : Z)
  | waiting_for_lane_to (next_vertex : Z)
  | reached_destination
  | arrived_at (next_vertex : Z).

(** The dictionary [update] returns for the log. *)
Record StatusUpdate : Type := {
  su_robot_id : Z;
  su_state : State;
  su_position : Z;
  su_event : option Event
}.

(** The attributes of a robot. [nav_graph] is a reference to the shared
    store and is passed to every method instead. *)
Record t : Type := {
  id : Z;
  current_vertex : Z;
  color : Z * Z * Z;
  state : State;
  path : list Z;
  current_path_index : nat;
  target_vertex : option Z;
  position : num * num;
  target_position : num * num;
  move_speed : num;
  last_action_time : num
}.

Definition set_state (s : State) (r : t) : t :=
  {| id := id r; current_vertex := current_vertex r; color := color r;
     state := s; path := path r; current_path_index := current_path_index r;
     target_vertex := target_vertex r; position := position r;
     target_position := target_position r; move_speed := move_speed r;
     last_action_time := last_action_time r |}.

Definition set_current_vertex (v : Z) (r : t) : t :=
  {| id := id r; current_vertex := v; color := color r;
     state := state r; path := path r;
     current_path_index := current_path_index r;
     target_vertex := target_vertex r; position := position r;
     target_position := target_position r; move_speed := move_speed r;
     last_action_time := last_action_time r |}.

Definition set_current_path_index (i : nat) (r : t) : t :=
  {| id := id r; current_vertex := current_vertex r; color := color r;
     state := state r; path := path r; current_path_index := i;
     target_vertex := target_vertex r; position := position r;
     target_position := target_position r; move_speed := move_speed r;
     last_action_time := last_action_time r |}.

Definition set_position (p : num * num) (r : t) : t :=
  {| id := id r; current_vertex := current_vertex r; color := color r;
     state := state r; path := path r;
     current_path_index := current_path_index r;
     target_vertex := target_vertex r; position := p;
     target_position := target_position r; move_speed := move_speed r;
     last_action_time := last_action_time r |}.

Definition set_target_position (p : num * num) (r : t) : t :=
  {| id := id r; current_vertex := current_vertex r; color := color r;
     state := state r; path := path r;
     current_path_index := current_path_index r;
     target_vertex := target_vertex r; position := position r;
     target_position := p; move_speed := move_speed r;
     last_action_time := last_action_time r |}.

(** [status_update['state'] = s; status_update['event'] = e] *)
Definition report (s : State) (e : Event) (u : StatusUpdate) : StatusUpdate :=
  {| su_robot_id := su_robot_id u; su_state := s;
     su_position := su_position u; su_event := Some e |}.

(** [Robot.__init__]; [now] is the reading of [time.time()]. *)
Definition init (robot_id start_vertex : Z) (g : NavGraph)
    (robot_color : Z * Z * Z) (now : num) : result (t * NavGraph) :=
  pos ← get_scaled_position g start_vertex;
  '(_, g') ← reserve_vertex start_vertex robot_id g;
  mret ({| id := robot_id; current_vertex := start_vertex;
           color := robot_color; state := IDLE; path := [];
           current_path_index := 0%nat; target_vertex := None;
           position := pos; target_position := pos;
           move_speed := num_2_0; last_action_time := now |}, g').

Definition assign_task (destination_vertex : Z) (r : t) (g : NavGraph)
  : result (bool * t) :=
  if bool_decide (state r <> IDLE) && bool_decide (state r <> COMPLETED)
  then mret (false, r)
  else
    found ← get_shortest_path g (current_vertex r) destination_vertex;
    match found with
    | None => mret (false, r)
    | Some p =>
        mret (true,
              {| id := id r; current_vertex := current_vertex r;
                 color := color r; state := IDLE; path := p;
                 current_path_index := 0%nat;
                 target_vertex := Some destination_vertex;
                 position := position r;
                 target_position := target_position r;
                 move_speed := move_speed r;
                 last_action_time := last_action_time r |})
    end.

(** [self.path and self.current_path_index < len(self.path) - 1] *)
Definition has_next_hop (r : t) : bool :=
  match path r with
  | [] => false
  | _ :: _ =>
      Z.of_nat (current_path_index r) <? Z.of_nat (length (path r)) - 1
  end.

(** Componentwise numpy arithmetic on two-element arrays. *)
Definition vec_sub (a b : num * num) : num * num :=
  (num_sub (fst a) (fst b), num_sub (snd a) (snd b)).
Definition vec_add (a b : num * num) : num * num :=
  (num_add (fst a) (fst b), num_add (snd a) (snd b)).
Definition vec_div (a : num * num) (c : num) : num * num :=
  (num_div (fst a) c, num_div (snd a) c).
Definition vec_mul (a : num * num) (c : num) : num * num :=
  (num_mul (fst a) c, num_mul (snd a) c).

(** The reservation attempt of the idle, charging and waiting branches, up
    to and including the assignments of a successful attempt. *)
Definition start_moving (next_vertex : Z) (r : t) (g : NavGraph)
  : result (t * NavGraph) :=
  g' ← release_vertex (current_vertex r) (id r) g;
  target ← get_scaled_position g' next_vertex;
  mret (set_target_position target (set_state MOVING r), g').

Definition update (delta_time : num) (r : t) (g : NavGraph)
  : result (t * NavGraph * StatusUpdate) :=
  let status_update :=
    {| su_robot_id := id r; su_state := state r;
       su_position := current_vertex r; su_event := None |} in
  at_charger ←
    (if decide (state r = IDLE) then
       current_vertex_data ← py_getitem (vertices g) (current_vertex r);
       mret (v_is_charger current_vertex_data)
     else mret false);
  if at_charger : bool then
    mret (set_state CHARGING r, g,
          report CHARGING started_charging status_update)
  else if has_next_hop r then
    match state r with
    | IDLE | CHARGING =>
        next_vertex ←
          py_getitem (path r) (Z.of_nat (current_path_index r) + 1);
        let '(can_reserve_lane, g1) :=
          reserve_lane (current_vertex r) next_vertex (id r) g in
        if can_reserve_lane then
          '(r', g2) ← start_moving next_vertex r g1;
          mret (r', g2, report MOVING (moving_to next_vertex) status_update)
        else
          mret (set_state WAITING r, g1,
                report WAITING (waiting_for_lane_to next_vertex)
                  status_update)
    | MOVING =>
        let current_pos := position r in
        let target_pos := target_position r in
        let direction := vec_sub target_pos current_pos in
        let distance := num_norm direction in
        if num_lt distance (move_speed r) then
          let index := S (current_path_index r) in
          next_vertex ← py_getitem (path r) (Z.of_nat index);
          prev_vertex ← py_getitem (path r) (Z.of_nat index - 1);
          let g1 := release_lane prev_vertex next_vertex (id r) g in
          '(_, g2) ← reserve_vertex next_vertex (id r) g1;
          let r' :=
            set_current_vertex next_vertex
              (set_current_path_index index
                 (set_position (target_position r) r)) in
          if Z.of_nat index =? Z.of_nat (length (path r)) - 1 then
            mret (set_state COMPLETED r', g2,
                  report COMPLETED reached_destination status_update)
          else
            mret (set_state IDLE r', g2,
                  report IDLE (arrived_at next_vertex) status_update)
        else
          let normalized_dir := vec_div direction distance in
          let movement := vec_mul normalized_dir (move_speed r) in
          mret (set_position (vec_add current_pos movement) r, g,
                status_update)
    | WAITING =>
        next_vertex ←
          py_getitem (path r) (Z.of_nat (current_path_index r) + 1);
        let '(can_reserve_lane, g1) :=
          reserve_lane (current_vertex r) next_vertex (id r) g in
        if can_reserve_lane then
          '(r', g2) ← start_moving next_vertex r g1;
          mret (r', g2, report MOVING (moving_to next_vertex) status_update)
        else mret (r, g1, status_update)
    | COMPLETED => mret (r, g, status_update)
    end
  else mret (r, g, status_update).

Definition get_status_display (r : t) : result string :=
  match state r with
  | IDLE =>
      mret (String.append "Robot " (String.append (py_str (id r)) ": Idle"))
  | MOVING =>
      next_vertex ←
        py_getitem (path r) (Z.of_nat (current_path_index r) + 1);
      mret (String.append "Robot "
              (String.append (py_str (id r))
                 (String.append ": Moving to vertex " (py_str next_vertex))))
  | WAITING =>
      next_vertex ←
        py_getitem (path r) (Z.of_nat (current_path_index r) + 1);
      mret (String.append "Robot "
              (String.append (py_str (id r))
                 (String.append ": Waiting to move to vertex "
                    (py_str next_vertex))))
  | CHARGING =>
      mret (String.append "Robot " (String.append (py_str (id r)) ": Charging"))
  | COMPLETED =>
      mret (String.append "Robot "
              (String.append (py_str (id r)) ": Task completed"))
  end.

End RobotModel.
End Robot.

(** * controllers/fleet_manager.py *)

(** A Python [dict] with integer keys, in insertion order. *)
Section Dict.
Context {V : Type}.

(** [d[k]] *)
Fixpoint dict_get (d : list (Z * V)) (k : Z) : result V :=
  match d with
  | [] => Raise KeyError
  | (k', v) :: rest => if k' =? k then Ok v else dict_get rest k
  end.

(** [d[k] = v]: an existing key keeps its place, a new key goes last. *)
Fixpoint dict_set (d : list (Z * V)) (k : Z) (v : V) : list (Z * V) :=
  match d with
  | [] => [(k, v)]
  | (k', v') :: rest =>
      if k' =? k then (k, v) :: rest else (k', v') :: dict_set rest k v
  end.

(** The keys of a dictionary are pairwise distinct. *)
Definition dict_wf (d : list (Z * V)) : Prop := NoDup (map fst d).

End Dict.

Module FleetManager.
Section FleetManagerModel.
Context {SC : Scalar} {PF : PathFinder}.

Record t : Type := {
  robots : list (Z * Robot.t);
  next_robot_id : Z;
  selected_robot : option Z
}.

(** [FleetManager.__init__] *)
Definition init : t :=
  {| robots := []; next_robot_id := 0; selected_robot := None |}.

Definition robot_colors : list (Z * Z * Z) :=
  [ (255, 0, 0); (0, 255, 0); (0, 0, 255); (255, 255, 0); (255, 0, 255);
    (0, 255, 255); (255, 128, 0); (128, 0, 128); (0, 128, 0); (128, 128, 0);
    (128, 0, 0); (0, 128, 128) ].

(** [spawn_robot]; [now] is the clock reading [Robot.__init__] takes. *)
Definition spawn_robot (vertex_id : Z) (now : num) (fm : t) (g : NavGraph)
  : result (option Z * t * NavGraph) :=
  vertex ← py_getitem (vertices g) vertex_id;
  match v_occupying_robot vertex with
  | Some _ => mret (None, fm, g)
  | None =>
      let color_index :=
        next_robot_id fm `mod` Z.of_nat (length robot_colors) in
      robot_color ← py_getitem robot_colors color_index;
      '(robot, g') ← Robot.init (next_robot_id fm) vertex_id g robot_color now;
      let current_id := next_robot_id fm in
      mret (Some current_id,
            {| robots := dict_set (robots fm) (next_robot_id fm) robot;
               next_robot_id := next_robot_id fm + 1;
               selected_robot := selected_robot fm |},
            g')
  end.

(** [assign_navigation_task]: the selected robot is replaced by the robot
    [assign_task] leaves. *)
Definition assign_navigation_task (destination_vertex : Z) (fm : t)
    (g : NavGraph) : result (bool * t) :=
  match selected_robot fm with
  | None => mret (false, fm)
  | Some sel =>
      if existsb (fun kv => fst kv =? sel) (robots fm) then
        robot ← dict_get (robots fm) sel;
        '(success, robot') ← Robot.assign_task destination_vertex robot g;
        mret (success,
              {| robots := dict_set (robots fm) sel robot';
                 next_robot_id := next_robot_id fm;
                 selected_robot := selected_robot fm |})
      else mret (false, fm)
  end.

(** The loop of [update] over [self.robots.items()]: each robot is updated
    on the store the robots before it have left. *)
Fixpoint update_robots (delta_time : num) (rs : list (Z * Robot.t))
    (g : NavGraph) : result (list (Z * Robot.t) * NavGraph) :=
  match rs with
  | [] => mret ([], g)
  | (robot_id, robot) :: rest =>
      '(robot', g1, _) ← Robot.update delta_time robot g;
      '(rest', g2) ← update_robots delta_time rest g1;
      mret ((robot_id, robot') :: rest', g2)
  end.

Definition update (delta_time : num) (fm : t) (g : NavGraph)
  : result (t * NavGraph) :=
  '(rs, g') ← update_robots delta_time (robots fm) g;
  mret ({| robots := rs; next_robot_id := next_robot_id fm;
           selected_robot := selected_robot fm |}, g').

(** [((rx - x) ** 2 + (ry - y) ** 2) ** 0.5] *)
Definition click_distance {SP : ScalarPow} (x y : num) (robot : Robot.t)
  : num :=
  let '(rx, ry) := Robot.position robot in
  num_pow (num_add (num_pow (num_sub rx x) num_2)
                   (num_pow (num_sub ry y) num_2)) num_0_5.

(** The loop of [select_robot], from the robots still to visit and the
    values of [min_distance] and [selected] so far. *)
Fixpoint select_loop {SP : ScalarPow} (x y : num) (rs : list (Z * Robot.t))
    (min_distance : num) (selected : option Z) : option Z :=
  match rs with
  | [] => selected
  | (robot_id, robot) :: rest =>
      let distance := click_distance x y robot in
      if num_lt distance min_distance
      then select_loop x y rest distance (Some robot_id)
      else select_loop x y rest min_distance selected
  end.

Definition select_robot {SP : ScalarPow} (x y tolerance : num) (fm : t)
  : option Z * t :=
  match select_loop x y (robots fm) tolerance None with
  | Some selected =>
      (Some selected,
       {| robots := robots fm; next_robot_id := next_robot_id fm;
          selected_robot := Some selected |})
  | None => (None, fm)
  end.

(** The dictionary comprehension of [get_all_robot_statuses]. *)
Fixpoint robot_statuses (rs : list (Z * Robot.t)) : result (list (Z * string)) :=
  match rs with
  | [] => mret []
  | (robot_id, robot) :: rest =>
      status ← Robot.get_status_display robot;
      statuses ← robot_statuses rest;
      mret ((robot_id, status) :: statuses)
  end.

Definition get_all_robot_statuses (fm : t) : result (list (Z * string)) :=
  robot_statuses (robots fm).

End FleetManagerModel.
End FleetManager.

(** * controllers/traffic_manager.py *)

Module TrafficManager.
Section TrafficManagerModel.
Context {SC : Scalar} {PF : PathFinder}.

(** The inner loop of [check_path_conflicts]: whether the first lane from
    [from_vertex] to [to_vertex] is occupied by a robot other than
    [robot_id]; the loop breaks at that lane. *)
Fixpoint lane_conflict (robot_id from_vertex to_vertex : Z) (ls : list Lane)
  : bool :=
  match ls with
  | [] => false
  | lane :: rest =>
      if lane_matches from_vertex to_vertex lane then
        match l_occupying_robot lane with
        | Some o => negb (o =? robot_id)
        | None => false
        end
      else lane_conflict robot_id from_vertex to_vertex rest
  end.

(** [check_path_conflicts]: the outer loop visits the segments
    [(path[i], path[i+1])] in order. *)
Fixpoint check_path_conflicts (robot_id : Z) (path : list Z) (g : NavGraph)
  : result (list Z) :=
  match path with
  | from_vertex :: ((to_vertex :: _) as rest) =>
      let lane_found :=
        if lane_conflict robot_id from_vertex to_vertex (lanes g)
        then [to_vertex] else [] in
      vertex ← py_getitem (vertices g) to_vertex;
      let vertex_found :=
        match v_occupying_robot vertex with
        | Some _ => [to_vertex]
        | None => []
        end in
      later ← check_path_conflicts robot_id rest g;
      mret (lane_found ++ vertex_found ++ later)
  | _ => mret []
  end.

(** The loop of [resolve_deadlocks] over the lanes: it has no [break],
    every occupied lane from [from_vertex] to [to_vertex] is cleared and
    counted. *)
Fixpoint clear_lanes (from_vertex to_vertex : Z) (ls : list Lane)
  : list Lane * Z :=
  match ls with
  | [] => ([], 0)
  | lane :: rest =>
      let '(rest', resolved) := clear_lanes from_vertex to_vertex rest in
      if lane_matches from_vertex to_vertex lane then
        match l_occupying_robot lane with
        | Some _ => (lane_set_occupying_robot None lane :: rest', 1 + resolved)
        | None => (lane :: rest', resolved)
        end
      else (lane :: rest', resolved)
  end.

(** The ids of the robots in the [WAITING] state, in registry order. *)
Definition waiting_robots (fm : FleetManager.t) : list Z :=
  map fst
    (filter (fun kv => Robot.state (snd kv) = Robot.WAITING)
       (FleetManager.robots fm)).

Definition resolve_deadlocks (fm : FleetManager.t) (g : NavGraph)
  : result (Z * NavGraph) :=
  match waiting_robots fm with
  | [] => mret (0, g)
  | prioritized_robot_id :: _ =>
      robot ← dict_get (FleetManager.robots fm) prioritized_robot_id;
      if Robot.has_next_hop robot then
        next_vertex ←
          py_getitem (Robot.path robot)
            (Z.of_nat (Robot.current_path_index robot) + 1);
        let '(ls, resolved) :=
          clear_lanes (Robot.current_vertex robot) next_vertex (lanes g) in
        mret (resolved, set_lanes ls g)
      else mret (0, g)
  end.

(** [TrafficManager.update]: the number of deadlocks resolved. *)
Definition update (fm : FleetManager.t) (g : NavGraph)
  : result (Z * NavGraph) :=
  resolve_deadlocks fm g.

(** The [robot_info] entry of a lane status. *)
Record RobotInfo : Type := {
  ri_id : Z;
  ri_state : Robot.State
}.

(** The dictionary [get_lane_status] returns. *)
Record LaneStatus : Type := {
  ls_from_vertex : Z;
  ls_to_vertex : Z;
  ls_is_blocked : bool;
  ls_occupying_robot : option Z;
  ls_robot_info : option RobotInfo
}.

(** [get_lane_status]: the loop returns at the first lane from
    [from_vertex] to [to_vertex]. *)
Fixpoint lane_status_loop (fm : FleetManager.t) (from_vertex to_vertex : Z)
    (ls : list Lane) : result (option LaneStatus) :=
  match ls with
  | [] => mret None
  | lane :: rest =>
      if lane_matches from_vertex to_vertex lane then
        let occupying_robot := l_occupying_robot lane in
        robot_info ←
          match occupying_robot with
          | Some o =>
              if existsb (fun kv => fst kv =? o) (FleetManager.robots fm) then
                robot ← dict_get (FleetManager.robots fm) o;
                mret (Some {| ri_id := Robot.id robot;
                              ri_state := Robot.state robot |})
              else mret None
          | None => mret None
          end;
        mret (Some {| ls_from_vertex := from_vertex;
                      ls_to_vertex := to_vertex;
                      ls_is_blocked := l_is_blocked lane;
                      ls_occupying_robot := occupying_robot;
                      ls_robot_info := robot_info |})
      else lane_status_loop fm from_vertex to_vertex rest
  end.

Definition get_lane_status (fm : FleetManager.t) (g : NavGraph)
    (from_vertex to_vertex : Z) : result (option LaneStatus) :=
  lane_status_loop fm from_vertex to_vertex (lanes g).

End TrafficManagerModel.
End TrafficManager.

(** * Specification vocabulary *)

(** [i] is a subscript [l[i]] accepts. *)
Definition valid_index {A : Type} (l : list A) (i : Z) : Prop :=
  - Z.of_nat (length l) <= i < Z.of_nat (length l).

Section Vocabulary.
Context {SC : Scalar} {PF : PathFinder}.

(** The lane the store consults for the pair [(from_vertex, to_vertex)]:
    the first lane of the list from [from_vertex] to [to_vertex], at
    position [i]. *)
Definition first_lane (from_vertex to_vertex : Z) (ls : list Lane)
    (i : nat) (lane : Lane) : Prop :=
  ls !! i = Some lane
  /\ lane_matches from_vertex to_vertex lane = true
  /\ forall j lane', ls !! j = Some lane' -> (j < i)%nat ->
       lane_matches from_vertex to_vertex lane' = false.

(** A lane entry listed again further down the list (same end points) is
    never occupied: reservations are only ever written to the first entry
    of a pair. *)
Fixpoint lanes_inv (ls : list Lane) : Prop :=
  match ls with
  | [] => True
  | lane :: rest =>
      Forall (fun lane' =>
                lane_matches (l_from_vertex lane) (l_to_vertex lane) lane'
                  = true -> l_occupying_robot lane' = None) rest
      /\ lanes_inv rest
  end.

(** [lane'] is [lane], or [lane] with its reservation cleared. *)
Definition cleared_from (lane lane' : Lane) : Prop :=
  lane' = lane \/ lane' = lane_set_occupying_robot None lane.

(** [(rid, robot)] is the first entry of the registry, in iteration order,
    whose robot is waiting. *)
Definition first_waiting (fm : FleetManager.t) (rid : Z) (robot : Robot.t)
  : Prop :=
  exists before after,
    FleetManager.robots fm = before ++ (rid, robot) :: after
    /\ Forall (fun kv => Robot.state (snd kv) <> Robot.WAITING) before
    /\ Robot.state robot = Robot.WAITING.

(** What holds of a robot the program has created, between two calls: a
    moving or waiting robot has a next hop, and the vertex a moving robot
    heads for is one whose position could be looked up. *)
Definition robot_inv (r : Robot.t) (g : NavGraph) : Prop :=
  (Robot.state r = Robot.MOVING \/ Robot.state r = Robot.WAITING ->
   Robot.has_next_hop r = true)
  /\ (Robot.state r = Robot.MOVING ->
      exists next_vertex,
        Robot.path r !! S (Robot.current_path_index r)
          = Some next_vertex
        /\ valid_index (vertices g) next_vertex).

(** The robot a moving robot becomes when it arrives at [next_vertex]: a
    function of the robot alone, the store plays no part in it. *)
Definition arrived (r : Robot.t) (next_vertex : Z) : Robot.t :=
  {| Robot.id := Robot.id r;
     Robot.current_vertex := next_vertex;
     Robot.color := Robot.color r;
     Robot.state :=
       if bool_decide (length (Robot.path r)
                       = S (S (Robot.current_path_index r)))
       then Robot.COMPLETED else Robot.IDLE;
     Robot.path := Robot.path r;
     Robot.current_path_index := S (Robot.current_path_index r);
     Robot.target_vertex := Robot.target_vertex r;
     Robot.position := Robot.target_position r;
     Robot.target_position := Robot.target_position r;
     Robot.move_speed := Robot.move_speed r;
     Robot.last_action_time := Robot.last_action_time r |}.

(** The status a robot reports when nothing noteworthy happened. *)
Definition quiet_status (r : Robot.t) : Robot.StatusUpdate :=
  {| Robot.su_robot_id := Robot.id r; Robot.su_state := Robot.state r;
     Robot.su_position := Robot.current_vertex r; Robot.su_event := None |}.

(** The [robot_info] of a lane whose occupant is [o]. *)
Definition robot_info_of (fm : FleetManager.t) (o : option Z)
  : option TrafficManager.RobotInfo :=
  match o with
  | Some rid =>
      match dict_get (FleetManager.robots fm) rid with
      | Ok robot =>
          Some {| TrafficManager.ri_id := Robot.id robot;
                  TrafficManager.ri_state := Robot.state robot |}
      | Raise _ => None
      end
  | None => None
  end.

(** A robot that will try to leave its vertex on the next [update]: it is
    waiting or charging, or idle on a vertex that is not a charger. *)
Definition ready_to_leave (r : Robot.t) (g : NavGraph) : Prop :=
  Robot.state r = Robot.WAITING
  \/ Robot.state r = Robot.CHARGING
  \/ (Robot.state r = Robot.IDLE
      /\ exists vertex,
           py_getitem (vertices g) (Robot.current_vertex r) = Ok vertex
           /\ v_is_charger vertex = false).

(** The ways a tick of a robot can go. *)
Inductive Tick (r : Robot.t) (g : NavGraph)
  : Robot.t -> NavGraph -> Robot.StatusUpdate -> Prop :=
  | tick_nothing :
      Tick r g r g (quiet_status r)
  | tick_charge :
      Robot.state r = Robot.IDLE ->
      Tick r g (Robot.set_state Robot.CHARGING r) g
        (Robot.report Robot.CHARGING Robot.started_charging (quiet_status r))
  | tick_depart next_vertex g1 g' target :
      Robot.state r <> Robot.MOVING ->
      Robot.path r !! S (Robot.current_path_index r) = Some next_vertex ->
      reserve_lane (Robot.current_vertex r) next_vertex (Robot.id r) g
      = (true, g1) ->
      release_vertex (Robot.current_vertex r) (Robot.id r) g1 = Ok g' ->
      Tick r g
        (Robot.set_target_position target (Robot.set_state Robot.MOVING r)) g'
        (Robot.report Robot.MOVING (Robot.moving_to next_vertex)
           (quiet_status r))
  | tick_wait next_vertex :
      Robot.state r <> Robot.MOVING ->
      Tick r g (Robot.set_state Robot.WAITING r) g
        (Robot.report Robot.WAITING (Robot.waiting_for_lane_to next_vertex)
           (quiet_status r))
  | tick_arrive prev_vertex next_vertex ok g' event :
      Robot.state r = Robot.MOVING ->
      Robot.path r !! S (Robot.current_path_index r) = Some next_vertex ->
      reserve_vertex next_vertex (Robot.id r)
        (release_lane prev_vertex next_vertex (Robot.id r) g) = Ok (ok, g') ->
      Tick r g (arrived r next_vertex) g'
        (Robot.report (Robot.state (arrived r next_vertex)) event
           (quiet_status r))
  | tick_step p :
      Robot.state r = Robot.MOVING ->
      Tick r g (Robot.set_position p r) g (quiet_status r).

(** A reservation held by a robot other than [a]. *)
Definition foreign (a : Z) (o : option Z) : Prop := o <> None /\ o <> Some a.

(** From [g] to [g'] no vertex and no lane held by a robot other than [a]
    has changed. *)
Definition keeps_foreign (a : Z) (g g' : NavGraph) : Prop :=
  (forall k vertex,
     vertices g !! k = Some vertex -> foreign a (v_occupying_robot vertex) ->
     vertices g' !! k = Some vertex)
  /\ (forall i lane,
        lanes g !! i = Some lane -> foreign a (l_occupying_robot lane) ->
        lanes g' !! i = Some lane).

(** A registry entry whose robot carries the id it is registered under and
    satisfies the robot invariant. *)
Definition registered_ok (g : NavGraph) (kv : Z * Robot.t) : Prop :=
  Robot.id (snd kv) = fst kv /\ robot_inv (snd kv) g.

(** What holds of the registry between two calls: the ids handed out so
    far are 0, 1, ... in registry order, every robot carries the id it is
    registered under and satisfies the robot invariant. *)
Definition fleet_inv (fm : FleetManager.t) (g : NavGraph) : Prop :=
  0 <= FleetManager.next_robot_id fm
  /\ map fst (FleetManager.robots fm) = seqZ 0 (FleetManager.next_robot_id fm)
  /\ Forall (fun kv => Robot.id (snd kv) = fst kv /\ robot_inv (snd kv) g)
       (FleetManager.robots fm).

(** A call on a robot from outside: a tick or a task assignment. *)
Inductive Call : Type :=
  | call_update (delta_time : num)
  | call_assign_task (destination_vertex : Z).

Definition run_call (c : Call) (r : Robot.t) (g : NavGraph)
  : result (Robot.t * NavGraph) :=
  match c with
  | call_update delta_time =>
      '(r', g', _) ← Robot.update delta_time r g; mret (r', g')
  | call_assign_task destination_vertex =>
      '(_, r') ← Robot.assign_task destination_vertex r g; mret (r', g)
  end.

Fixpoint run_calls (cs : list Call) (r : Robot.t) (g : NavGraph)
  : result (Robot.t * NavGraph) :=
  match cs with
  | [] => mret (r, g)
  | c :: rest => '(r', g') ← run_call c r g; run_calls rest r' g'
  end.

(** [num_lt] is irreflexive and transitive on the numbers of [L]. *)
Definition strict_on (L : list num) : Prop :=
  (forall a, a ∈ L -> num_lt a a = false)
  /\ (forall a b c, a ∈ L -> b ∈ L -> c ∈ L ->
        num_lt a b = true -> num_lt b c = true -> num_lt a c = true).

(** The same, as a check that can be run on a given list. *)
Definition strict_onb (L : list num) : bool :=
  forallb (fun a => negb (num_lt a a)) L
  && forallb (fun a =>
       forallb (fun b =>
         forallb (fun c => implb (num_lt a b && num_lt b c) (num_lt a c)) L)
         L) L.

(** What the user interface and the main loop ask of the core: a spawn
    click, a selection click, a task for the selected robot, and a frame of
    the main loop, which updates the fleet and then the traffic manager. *)
Inductive Command : Type :=
  | cmd_spawn (vertex_id : Z) (now : num)
  | cmd_select (x y tolerance : num)
  | cmd_assign (destination_vertex : Z)
  | cmd_frame (delta_time : num).

Definition run_command {SP : ScalarPow} (c : Command) (fm : FleetManager.t)
    (g : NavGraph) : result (FleetManager.t * NavGraph) :=
  match c with
  | cmd_spawn vertex_id now =>
      '(_, fm', g') ← FleetManager.spawn_robot vertex_id now fm g;
      mret (fm', g')
  | cmd_select x y tolerance =>
      mret (snd (FleetManager.select_robot x y tolerance fm), g)
  | cmd_assign destination_vertex =>
      '(_, fm') ← FleetManager.assign_navigation_task destination_vertex fm g;
      mret (fm', g)
  | cmd_frame delta_time =>
      '(fm', g') ← FleetManager.update delta_time fm g;
      '(_, g'') ← TrafficManager.update fm' g';
      mret (fm', g'')
  end.

Fixpoint run_commands {SP : ScalarPow} (cs : list Command)
    (fm : FleetManager.t) (g : NavGraph)
  : result (FleetManager.t * NavGraph) :=
  match cs with
  | [] => mret (fm, g)
  | c :: rest => '(fm', g') ← run_command c fm g; run_commands rest fm' g'
  end.

End Vocabulary.

(** * Running the model *)

(** ** Binary64 numbers *)

(** [int(x)] of a float, read back as a number: truncation toward zero of
    a finite float, [ValueError] for a NaN and [OverflowError] for an
    infinity. A finite float with a non-negative exponent is an integer
    already. *)
Definition float_int (x : float) : result float :=
  match Prim2SF x with
  | S754_zero _ => Ok 0%float
  | S754_infinity _ => Raise OverflowError
  | S754_nan => Raise ValueError
  | S754_finite s m e =>
      if 0 <=? e then Ok x
      else
        let z := Z.shiftr (Z.pos m) (- e) in
        let f := PrimFloat.of_uint63 (Uint63.of_Z z) in
        Ok (if s && negb (z =? 0) then PrimFloat.opp f else f)
  end.

Definition float_norm (v : float * float) : float :=
  PrimFloat.sqrt
    (PrimFloat.add (PrimFloat.mul (fst v) (fst v))
                   (PrimFloat.mul (snd v) (snd v))).

#[global] Instance float_scalar : Scalar := {|
  num := float;
  num_add := PrimFloat.add;
  num_sub := PrimFloat.sub;
  num_mul := PrimFloat.mul;
  num_div := PrimFloat.div;
  num_lt := PrimFloat.ltb;
  num_int := float_int;
  num_norm := float_norm;
  num_2_0 := 2%float
|}.

(** The power operator at the two exponents the code uses: the square and
    the square root. The square root is the correctly rounded one; the
    platform's [pow] may differ from it in the last bit, but not where the
    root is exact, as it is for the distances of the scenarios. *)
Definition float_pow (x e : float) : float :=
  if PrimFloat.eqb e 2%float then PrimFloat.mul x x
  else if PrimFloat.eqb e 0.5%float then PrimFloat.sqrt x
  else PrimFloat.nan.

#[global] Instance float_scalar_pow : @ScalarPow float_scalar := {|
  num_pow := float_pow;
  num_2 := 2%float;
  num_0_5 := 0.5%float
|}.

(** ** Breadth-first shortest paths

    A path with the fewest lanes, found level by level. Between two paths
    of that length networkx may pick another one; the scenarios run on a
    line, where there is only one. *)

Definition successors (G : DiGraph) (v : Z) : list Z :=
  map snd (List.filter (fun e => fst e =? v) (edges G)).

(** One round of the search: every path of the frontier (kept reversed) is
    extended by the successors of its head not seen so far. *)
Definition bfs_expand (G : DiGraph) (seen : list Z)
    (frontier : list (list Z)) : list Z * list (list Z) :=
  fold_left
    (fun acc p =>
       match p with
       | [] => acc
       | v :: _ =>
           let fresh :=
             List.filter (fun w => negb (existsb (Z.eqb w) (fst acc)))
               (successors G v) in
           (fst acc ++ fresh, snd acc ++ map (fun w => w :: p) fresh)
       end)
    frontier (seen, []).

Fixpoint bfs_search (fuel : nat) (G : DiGraph) (target : Z) (seen : list Z)
    (frontier : list (list Z)) : option (list Z) :=
  match fuel with
  | O => None
  | S fuel' =>
      match List.find (fun p => match p with
                                | v :: _ => v =? target
                                | [] => false
                                end) frontier with
      | Some p => Some (rev p)
      | None =>
          let '(seen', next) := bfs_expand G seen frontier in
          match next with
          | [] => None
          | _ :: _ => bfs_search fuel' G target seen' next
          end
      end
  end.

Definition bfs_shortest_path (G : DiGraph) (source target : Z) : PathOutcome :=
  if negb (has_node G source) || negb (has_node G target) then NodeMissing
  else if source =? target then PathFound [source]
  else
    match bfs_search (S (length (nodes G))) G target [source]
            [[source]] with
    | Some p => PathFound p
    | None => NoPath
    end.

#[global, refine] Instance bfs_pathfinder : PathFinder :=
  {| nx_shortest_path := bfs_shortest_path |}.
Proof.
  intros G v Hv. unfold bfs_shortest_path.
  rewrite Hv. simpl. now rewrite Z.eqb_refl.
Defined.

(** ** A three-vertex line

    The graph of the scenarios: vertices 0, 1 and 2 in a line, a lane in
    each direction between neighbours, vertex 2 a charger; the scaling
    values are those of a loaded graph whose bounds were computed. *)
Module Line.

Definition line_vertices : list (@Vertex float_scalar) :=
  [ new_vertex 0 0%float 0%float "v0" false;
    new_vertex 1 1%float 0%float "v1" false;
    new_vertex 2 2%float 0%float "v2" true ].

Definition line_lanes : list (@Lane float_scalar) :=
  [ new_lane 0 1 0%float; new_lane 1 0 0%float;
    new_lane 1 2 0%float; new_lane 2 1 0%float ].

Definition store : @NavGraph float_scalar :=
  {| graph := build_graph line_vertices line_lanes;
     vertices := line_vertices;
     lanes := line_lanes;
     scale_factor := 150%float;
     offset_x := 100%float;
     offset_y := 150%float;
     min_x := 0%float; max_x := 2%float;
     min_y := 0%float; max_y := 0%float |}.

End Line.

(** ** Loading on binary64 coordinates

    [_calculate_bounds] for a graph with at least one vertex, as
    [load_from_json] calls it once the vertex and lane lists are filled.
    [min] and [max] of a list keep the first element until a later one
    compares strictly below, or above, it. *)
Definition py_min_list (x : float) (xs : list float) : float :=
  fold_left (fun m w => if PrimFloat.ltb w m then w else m) xs x.

Definition py_max_list (x : float) (xs : list float) : float :=
  fold_left (fun m w => if PrimFloat.ltb m w then w else m) xs x.

Definition calculate_bounds (g : @NavGraph float_scalar)
  : @NavGraph float_scalar :=
  match vertices g with
  | [] => g
  | v :: vs =>
      let min_x := py_min_list (v_x v) (map v_x vs) in
      let max_x := py_max_list (v_x v) (map v_x vs) in
      let min_y := py_min_list (v_y v) (map v_y vs) in
      let max_y := py_max_list (v_y v) (map v_y vs) in
      let padding := 2%float in
      let width := PrimFloat.add (PrimFloat.sub max_x min_x) padding in
      let height := PrimFloat.add (PrimFloat.sub max_y min_y) padding in
      let screen_width := 800%float in
      let screen_height := 600%float in
      let margin_x := 100%float in
      let margin_y := 100%float in
      let room_x :=
        PrimFloat.sub screen_width (PrimFloat.mul 2%float margin_x) in
      let room_y :=
        PrimFloat.sub screen_height (PrimFloat.mul 2%float margin_y) in
      let scale :=
        if PrimFloat.ltb 0%float width && PrimFloat.ltb 0%float height then
          let a := PrimFloat.div room_x width in
          let b := PrimFloat.div room_y height in
          if PrimFloat.ltb b a then b else a
        else scale_factor g in
      {| graph := graph g; vertices := vertices g; lanes := lanes g;
         scale_factor := scale;
         offset_x :=
           PrimFloat.add margin_x
             (PrimFloat.div
                (PrimFloat.sub room_x (PrimFloat.mul width scale)) 2%float);
         offset_y :=
           PrimFloat.add margin_y
             (PrimFloat.div
                (PrimFloat.sub room_y (PrimFloat.mul height scale)) 2%float);
         min_x := min_x; max_x := max_x; min_y := min_y; max_y := max_y |}
  end.

(** The store [NavGraph(json_file_path)] leaves for a file with the
    vertices [vs] and the lanes [ls]: the defaults of [__init__], then the
    graph and the bounds. With no vertex the four bounds are attributes
    that were never set; they stand as zero here. *)
Definition loaded (vs : list (@Vertex float_scalar))
    (ls : list (@Lane float_scalar)) : @NavGraph float_scalar :=
  calculate_bounds
    {| graph := build_graph vs ls; vertices := vs; lanes := ls;
       scale_factor := 50%float; offset_x := 300%float;
       offset_y := 300%float;
       min_x := 0%float; max_x := 0%float;
       min_y := 0%float; max_y := 0%float |}.

(** ** A graph too wide to scale

    Two vertices at x = -2^1023 and x = 2^1023, both finite, with a lane
    in each direction. The width overflows to infinity, the scale factor
    is 0 and the x offset is not a number. *)
Module Wide.

Definition far : float := 0x1p1023%float.

Definition wide_vertices : list (@Vertex float_scalar) :=
  [ new_vertex 0 (PrimFloat.opp far) 0%float "v0" false;
    new_vertex 1 far 0%float "v1" false ].

Definition wide_lanes : list (@Lane float_scalar) :=
  [ new_lane 0 1 0%float; new_lane 1 0 0%float ].

Definition store : @NavGraph float_scalar :=
  Eval vm_compute in loaded wide_vertices wide_lanes.

End Wide.

(** ** Runs on the line

    The calls the user interface and the main loop make, on a world that
    is the registry and the shared store, or the exception raised. *)
Module Scenario.

Definition World : Type :=
  result (@FleetManager.t float_scalar * @NavGraph float_scalar).

Definition start : World := Ok (FleetManager.init, Line.store).

(** The frame time handed to [update]: a sixty-fourth of a second. *)
Definition frame : float := 0.015625%float.

Definition spawn (vertex_id : Z) (w : World) : World :=
  '(fm, g) ← w;
  '(_, fm', g') ← FleetManager.spawn_robot vertex_id 0%float fm g;
  mret (fm', g').

(** The effect of a [select_robot] click that hits robot [rid]. *)
Definition select (rid : Z) (w : World) : World :=
  '(fm, g) ← w;
  mret ({| FleetManager.robots := FleetManager.robots fm;
           FleetManager.next_robot_id := FleetManager.next_robot_id fm;
           FleetManager.selected_robot := Some rid |}, g).

Definition assign (destination_vertex : Z) (w : World) : World :=
  '(fm, g) ← w;
  '(_, fm') ← FleetManager.assign_navigation_task destination_vertex fm g;
  mret (fm', g).

(** The fleet half of a main-loop iteration. *)
Definition fleet_tick (w : World) : World :=
  '(fm, g) ← w; FleetManager.update frame fm g.

Definition fleet_of (w : World) : FleetManager.t :=
  match w with
  | Ok (fm, _) => fm
  | Raise _ => FleetManager.init
  end.

Definition store_of (w : World) : NavGraph :=
  match w with
  | Ok (_, g) => g
  | Raise _ => Line.store
  end.

Definition robot_of (rid : Z) (w : World) : result Robot.t :=
  dict_get (FleetManager.robots (fleet_of w)) rid.

(** Robot 0 is spawned at vertex 0. *)
Definition spawned : World := Eval vm_compute in spawn 0 start.

(** Robot 0 is sent to vertex 2 and has left vertex 0 on lane 0-1. *)
Definition departed : World :=
  Eval vm_compute in fleet_tick (assign 2 (select 0 spawned)).

(** Robot 1 is spawned at vertex 0 behind it, sent to vertex 2 as well, and
    waits for lane 0-1. *)
Definition blocked : World :=
  Eval vm_compute in fleet_tick (assign 2 (select 1 (spawn 0 departed))).

(** Robot 0 has been sent to vertex 2 and no frame has passed yet. *)
Definition assigned : World :=
  Eval vm_compute in assign 2 (select 0 spawned).

(** A robot spawned at the charger, vertex 2, and sent to vertex 0 before
    its first tick. *)
Definition charger_assigned : World :=
  Eval vm_compute in assign 0 (select 0 (spawn 2 start)).

(** A short session on the line: a spawn on vertex 0, a click on the
    robot, a task to vertex 2 and one frame of the main loop. *)
Definition session : list (@Command float_scalar) :=
  [ cmd_spawn 0 0%float; cmd_select 100%float 150%float 20%float;
    cmd_assign 2; cmd_frame frame ].

Definition after_session : World :=
  Eval vm_compute in run_commands session FleetManager.init Line.store.

(** [n] fleet ticks in a row. *)
Fixpoint fleet_ticks (n : nat) (w : World) : World :=
  match n with
  | O => w
  | S n' => fleet_tick (fleet_ticks n' w)
  end.

(** Robot 0 is on its way from vertex 0 to vertex 1, one tick before it
    arrives, while robot 1 has been spawned on vertex 1 and stands there. *)
Definition approaching : World :=
  Eval vm_compute in
    fleet_ticks 76 (spawn 1 (assign 2 (select 0 spawned))).

(** Robot 0 stands at vertex 0 and another robot is spawned at vertex 1,
    its neighbour. *)
Definition neighbours : World := Eval vm_compute in spawn 1 spawned.

(** A robot spawned at the charger, vertex 2, after one tick. *)
Definition at_charger : World :=
  Eval vm_compute in fleet_tick (spawn 2 start).

End Scenario.

(** * Python subscripts *)

Section Subscripts.
Context {A : Type}.
Implicit Types (l : list A) (i : Z).

Lemma py_index_nonneg l i :
  0 <= i < Z.of_nat (length l) -> py_index l i = Some (Z.to_nat i).
Proof.
  intros [H0 H1]. unfold py_index.
  apply Z.leb_le in H0. apply Z.ltb_lt in H1.
  now rewrite H0, H1.
Qed.

Lemma py_index_lt l i k : py_index l i = Some k -> (k < length l)%nat.
Proof.
  unfold py_index.
  destruct (0 <=? i) eqn:E0, (i <? Z.of_nat (length l)) eqn:E1; simpl;
    try (intros [= <-]; lia).
  all: destruct (- Z.of_nat (length l) <=? i) eqn:E2, (i <? 0) eqn:E3; simpl;
    try discriminate; intros [= <-]; lia.
Qed.

Lemma py_index_valid l i : valid_index l i <-> is_Some (py_index l i).
Proof.
  unfold valid_index, py_index. split.
  - intros [Hlo Hhi].
    destruct (0 <=? i) eqn:E0, (i <? Z.of_nat (length l)) eqn:E1; simpl;
      eauto; try lia.
    replace (- Z.of_nat (length l) <=? i) with true by lia.
    replace (i <? 0) with true by lia. simpl. eauto.
  - intros [k Hk].
    destruct (0 <=? i) eqn:E0, (i <? Z.of_nat (length l)) eqn:E1; simpl in Hk;
      try lia.
    all: destruct (- Z.of_nat (length l) <=? i) eqn:E2, (i <? 0) eqn:E3;
      simpl in Hk; try discriminate; lia.
Qed.

Lemma py_getitem_nonneg l i a :
  0 <= i -> l !! Z.to_nat i = Some a -> py_getitem l i = Ok a.
Proof.
  intros H0 Ha. unfold py_getitem.
  rewrite py_index_nonneg.
  - now rewrite Ha.
  - apply lookup_lt_Some in Ha. lia.
Qed.

Lemma py_getitem_valid l i : valid_index l i -> exists a, py_getitem l i = Ok a.
Proof.
  intros Hv. apply py_index_valid in Hv as [k Hk].
  unfold py_getitem. rewrite Hk.
  destruct (lookup_lt_is_Some_2 l k (py_index_lt _ _ _ Hk)) as [a Ha].
  exists a. now rewrite Ha.
Qed.

Lemma py_getitem_Ok_valid l i a : py_getitem l i = Ok a -> valid_index l i.
Proof.
  unfold py_getitem. intros H. apply py_index_valid.
  destruct (py_index l i); [eauto | discriminate].
Qed.

Lemma py_update_nonneg l i a (f : A -> A) :
  0 <= i -> l !! Z.to_nat i = Some a ->
  py_update l i f = Ok (<[Z.to_nat i := f a]> l).
Proof.
  intros H0 Ha. unfold py_update.
  rewrite py_index_nonneg.
  - now rewrite Ha.
  - apply lookup_lt_Some in Ha. lia.
Qed.

Lemma py_update_length l i (f : A -> A) l' :
  py_update l i f = Ok l' -> length l' = length l.
Proof.
  unfold py_update. destruct (py_index l i); [|discriminate].
  destruct (l !! n); [|discriminate].
  intros [= <-]. apply length_insert.
Qed.

Lemma py_update_valid l i (f : A -> A) :
  valid_index l i -> exists l', py_update l i f = Ok l'.
Proof.
  intros Hv. apply py_index_valid in Hv as [k Hk].
  unfold py_update. rewrite Hk.
  destruct (lookup_lt_is_Some_2 l k (py_index_lt _ _ _ Hk)) as [a Ha].
  rewrite Ha. eauto.
Qed.

End Subscripts.

(** * The reservation store *)

Section StoreFacts.
Context {SC : Scalar}.
Implicit Types (g : NavGraph) (ls : list Lane) (lane : Lane).

Lemma set_lanes_same g : set_lanes (lanes g) g = g.
Proof. now destruct g. Qed.

(** ** Vertices *)

Lemma reserve_vertex_free g vertex_id robot_id vertex :
  0 <= vertex_id ->
  vertices g !! Z.to_nat vertex_id = Some vertex ->
  v_occupying_robot vertex = None ->
  reserve_vertex vertex_id robot_id g
  = Ok (true,
        set_vertices
          (<[Z.to_nat vertex_id :=
               vertex_set_occupying_robot (Some robot_id) vertex]>
             (vertices g)) g).
Proof.
  intros H0 Hv Hocc. unfold reserve_vertex.
  rewrite (py_getitem_nonneg _ _ _ H0 Hv). simpl. rewrite Hocc.
  now rewrite (py_update_nonneg _ _ _ _ H0 Hv).
Qed.

Lemma reserve_vertex_taken g vertex_id robot_id vertex o :
  0 <= vertex_id ->
  vertices g !! Z.to_nat vertex_id = Some vertex ->
  v_occupying_robot vertex = Some o ->
  reserve_vertex vertex_id robot_id g = Ok (false, g).
Proof.
  intros H0 Hv Hocc. unfold reserve_vertex.
  rewrite (py_getitem_nonneg _ _ _ H0 Hv). simpl. now rewrite Hocc.
Qed.

(** Whatever its outcome, a vertex reservation on a valid subscript
    returns, keeps the lanes and the number of vertices. *)
Lemma reserve_vertex_total g vertex_id robot_id :
  valid_index (vertices g) vertex_id ->
  exists ok g',
    reserve_vertex vertex_id robot_id g = Ok (ok, g')
    /\ lanes g' = lanes g
    /\ length (vertices g') = length (vertices g).
Proof.
  intros Hv. unfold reserve_vertex.
  destruct (py_getitem_valid _ _ Hv) as [vertex ->]. simpl.
  destruct (v_occupying_robot vertex).
  - exists false, g. auto.
  - destruct (py_update_valid (vertices g) vertex_id
                (vertex_set_occupying_robot (Some robot_id)) Hv) as [vs Hvs].
    rewrite Hvs. simpl. exists true, (set_vertices vs g).
    repeat split. simpl. eapply py_update_length; eauto.
Qed.

Lemma release_vertex_valid g vertex_id robot_id :
  valid_index (vertices g) vertex_id ->
  exists g', release_vertex vertex_id robot_id g = Ok g'.
Proof.
  intros Hv. unfold release_vertex.
  destruct (py_getitem_valid _ _ Hv) as [vertex ->]. simpl.
  destruct (decide _); [|eauto].
  destruct (py_update_valid (vertices g) vertex_id
              (vertex_set_occupying_robot None) Hv) as [vs ->].
  simpl. eauto.
Qed.

Lemma release_vertex_Ok g vertex_id robot_id g' :
  release_vertex vertex_id robot_id g = Ok g' ->
  lanes g' = lanes g /\ length (vertices g') = length (vertices g).
Proof.
  unfold release_vertex.
  destruct (py_getitem (vertices g) vertex_id) as [vertex|] eqn:Hget;
    [|discriminate].
  simpl. destruct (decide _).
  - destruct (py_update _ _ _) as [vs|] eqn:Hvs; [|discriminate].
    simpl. intros [= <-]. split; [reflexivity|].
    simpl. eapply py_update_length; eauto.
  - intros [= <-]. auto.
Qed.

Lemma reserve_vertex_Ok g vertex_id robot_id ok g' :
  reserve_vertex vertex_id robot_id g = Ok (ok, g') ->
  lanes g' = lanes g /\ length (vertices g') = length (vertices g).
Proof.
  unfold reserve_vertex.
  destruct (py_getitem (vertices g) vertex_id) as [vertex|] eqn:Hget;
    [|discriminate].
  simpl. destruct (v_occupying_robot vertex).
  - intros [= <- <-]. auto.
  - destruct (py_update _ _ _) as [vs|] eqn:Hvs; [|discriminate].
    simpl. intros [= <- <-]. split; [reflexivity|].
    simpl. eapply py_update_length; eauto.
Qed.

(** ** Lanes *)

Lemma first_lane_unique f t ls i lane j lane' :
  first_lane f t ls i lane -> first_lane f t ls j lane' ->
  i = j /\ lane = lane'.
Proof.
  intros (Hi & Hmi & Hbi) (Hj & Hmj & Hbj).
  assert (i = j) as ->.
  { destruct (Nat.lt_trichotomy i j) as [Hlt | [Heq | Hgt]]; [|done|].
    - rewrite (Hbj _ _ Hi Hlt) in Hmi. discriminate.
    - rewrite (Hbi _ _ Hj Hgt) in Hmj. discriminate. }
  split; congruence.
Qed.

Lemma first_lane_head f t lane rest :
  lane_matches f t lane = true -> first_lane f t (lane :: rest) 0 lane.
Proof.
  intros Hm. repeat split; auto. intros j lane' _ Hj. lia.
Qed.

Lemma first_lane_tail f t lane rest i lane' :
  lane_matches f t lane = false ->
  first_lane f t (lane :: rest) i lane'
  <-> exists i', i = S i' /\ first_lane f t rest i' lane'.
Proof.
  intros Hm. split.
  - intros (Hi & Hmi & Hb). destruct i as [|i'].
    + simpl in Hi. injection Hi as <-. congruence.
    + exists i'. split; [done|]. repeat split; auto.
      intros j l' Hj Hlt. apply (Hb (S j) l'); [done | lia].
  - intros (i' & -> & Hi & Hmi & Hb). repeat split; auto.
    intros [|j] l' Hj Hlt.
    + simpl in Hj. injection Hj as <-. done.
    + apply (Hb j l'); [done | lia].
Qed.

(** No lane for the pair: the reservation loop fails and changes nothing. *)
Lemma reserve_lane_loop_spec f t a ls :
  match reserve_lane_loop f t a ls with
  | (true, ls') =>
      exists i lane,
        first_lane f t ls i lane /\ l_occupying_robot lane = None
        /\ l_is_blocked lane = false
        /\ ls' = <[i := lane_set_occupying_robot (Some a) lane]> ls
  | (false, ls') =>
      ls' = ls
      /\ forall i lane, first_lane f t ls i lane ->
           l_occupying_robot lane <> None \/ l_is_blocked lane = true
  end.
Proof.
  induction ls as [|lane rest IH]; simpl.
  - split; [done|]. intros i lane (Hi & _). discriminate.
  - destruct (lane_matches f t lane) eqn:Hm.
    + pose proof (first_lane_head f t lane rest Hm) as Hfirst.
      destruct (l_occupying_robot lane) as [o|] eqn:Hocc.
      * split; [done|]. intros i lane' Hf.
        destruct (first_lane_unique _ _ _ _ _ _ _ Hfirst Hf) as [_ <-].
        left. congruence.
      * destruct (l_is_blocked lane) eqn:Hb; simpl.
        -- split; [done|]. intros i lane' Hf.
           destruct (first_lane_unique _ _ _ _ _ _ _ Hfirst Hf) as [_ <-].
           now right.
        -- exists 0%nat, lane. auto.
    + destruct (reserve_lane_loop f t a rest) as [[] ls'].
      * destruct IH as (i & lane' & Hf & Hocc & Hb & ->).
        exists (S i), lane'.
        split; [apply first_lane_tail; eauto|]. auto.
      * destruct IH as [-> IH]. split; [done|].
        intros i lane' Hf.
        apply (first_lane_tail f t lane rest) in Hf as (i' & -> & Hf); [|done].
        eauto.
Qed.

Lemma release_lane_loop_lookup f t a ls i lane :
  ls !! i = Some lane ->
  release_lane_loop f t a ls !! i
  = Some (if lane_matches f t lane
             && bool_decide (l_occupying_robot lane = Some a)
          then lane_set_occupying_robot None lane else lane).
Proof.
  revert i. induction ls as [|l0 rest IH]; intros [|i] Hi; simpl in *;
    try discriminate.
  - now injection Hi as ->.
  - now apply IH.
Qed.


Lemma release_lane_loop_id f t a ls :
  (forall lane, lane ∈ ls -> lane_matches f t lane = true ->
     l_occupying_robot lane <> Some a) ->
  release_lane_loop f t a ls = ls.
Proof.
  induction ls as [|l0 rest IH]; intros H; simpl; [done|].
  rewrite IH by (intros; apply H; [now right | done]).
  destruct (lane_matches f t l0) eqn:Hm; simpl; [|done].
  rewrite bool_decide_eq_false_2; [done|].
  apply H; [left | done].
Qed.

(** ** The claims on the store *)

(** C3. [reserve_lane(from, to, robot_id)] returns [True] exactly when the
    lane from [from] to [to] (the first such entry of the lane list) exists,
    is unoccupied and is not blocked; it then writes [robot_id] into that
    lane and nothing else: after a successful call the occupant of that
    entry is [robot_id], its other fields, every other lane and the rest of
    the store are as before. Otherwise it returns [False] and leaves the
    store as it was. Two stores with the same lanes give the same answer and
    the same lanes, whatever their vertices hold: the occupancy of the
    destination vertex plays no part. *)
Theorem reserve_lane_spec (g : NavGraph) (from_vertex to_vertex robot_id : Z) :
  (fst (reserve_lane from_vertex to_vertex robot_id g) = true
   <-> exists i lane,
         first_lane from_vertex to_vertex (lanes g) i lane
         /\ l_occupying_robot lane = None
         /\ l_is_blocked lane = false)
  /\ (forall i lane,
        first_lane from_vertex to_vertex (lanes g) i lane ->
        l_occupying_robot lane = None ->
        l_is_blocked lane = false ->
        reserve_lane from_vertex to_vertex robot_id g
        = (true,
           set_lanes
             (<[i := lane_set_occupying_robot (Some robot_id) lane]> (lanes g))
             g))
  /\ (forall g',
        reserve_lane from_vertex to_vertex robot_id g = (true, g') ->
        exists i lane lane',
          first_lane from_vertex to_vertex (lanes g) i lane
          /\ lanes g' !! i = Some lane'
          /\ l_occupying_robot lane' = Some robot_id
          /\ l_from_vertex lane' = l_from_vertex lane
          /\ l_to_vertex lane' = l_to_vertex lane
          /\ l_speed_limit lane' = l_speed_limit lane
          /\ l_is_blocked lane' = l_is_blocked lane
          /\ (forall j, j <> i -> lanes g' !! j = lanes g !! j)
          /\ set_lanes (lanes g) g' = g)
  /\ (fst (reserve_lane from_vertex to_vertex robot_id g) = false ->
      reserve_lane from_vertex to_vertex robot_id g = (false, g))
  /\ (forall g2 : NavGraph,
        lanes g2 = lanes g ->
        fst (reserve_lane from_vertex to_vertex robot_id g2)
        = fst (reserve_lane from_vertex to_vertex robot_id g)
        /\ lanes (snd (reserve_lane from_vertex to_vertex robot_id g2))
           = lanes (snd (reserve_lane from_vertex to_vertex robot_id g))).
Proof.
  unfold reserve_lane.
  pose proof (reserve_lane_loop_spec from_vertex to_vertex robot_id (lanes g))
    as Hloop.
  destruct (reserve_lane_loop from_vertex to_vertex robot_id (lanes g))
    as [[] ls'] eqn:Hrun; simpl.
  - destruct Hloop as (i & lane & Hf & Hocc & Hb & ->).
    split; [split; eauto|]. split; [|split; [|split; [discriminate|]]].
    + intros j lane' Hf' _ _.
      now destruct (first_lane_unique _ _ _ _ _ _ _ Hf Hf') as [<- <-].
    + intros g' [= <-].
      exists i, lane, (lane_set_occupying_robot (Some robot_id) lane).
      split; [exact Hf|]. simpl. split.
      { apply list_lookup_insert_eq. eapply lookup_lt_Some. apply Hf. }
      do 5 (split; [reflexivity|]). split.
      * intros j Hj. now apply list_lookup_insert_ne.
      * now destruct g.
    + intros g2 ->. now rewrite Hrun.
  - destruct Hloop as [-> Hnone].
    split; [split; [discriminate|]|]. 2: split; [|split; [|split]].
    + intros (i & lane & Hf & Hocc & Hb).
      destruct (Hnone _ _ Hf); congruence.
    + intros i lane Hf Hocc Hb. destruct (Hnone _ _ Hf); congruence.
    + intros g' [=].
    + intros _. now rewrite set_lanes_same.
    + intros g2 ->. now rewrite Hrun.
Qed.

(** C4. On a vertex id of the store, [reserve_vertex] returns [True]
    exactly when the vertex is unoccupied, and then the vertex is occupied
    by [robot_id] and every other vertex and every lane is as before;
    otherwise it returns [False] and the store is unchanged. *)
Theorem reserve_vertex_spec (g : NavGraph) (vertex_id robot_id : Z) :
  0 <= vertex_id < Z.of_nat (length (vertices g)) ->
  exists vertex ok g',
    vertices g !! Z.to_nat vertex_id = Some vertex
    /\ reserve_vertex vertex_id robot_id g = Ok (ok, g')
    /\ (ok = true <-> v_occupying_robot vertex = None)
    /\ (ok = true ->
        vertices g' !! Z.to_nat vertex_id
        = Some (vertex_set_occupying_robot (Some robot_id) vertex)
        /\ (forall j, j <> Z.to_nat vertex_id ->
              vertices g' !! j = vertices g !! j)
        /\ set_vertices (vertices g) g' = g)
    /\ (ok = false -> g' = g).
Proof.
  intros [H0 Hlen].
  destruct (lookup_lt_is_Some_2 (vertices g) (Z.to_nat vertex_id))
    as [vertex Hv]; [lia|].
  exists vertex.
  destruct (v_occupying_robot vertex) as [o|] eqn:Hocc.
  - exists false, g. split; [done|].
    split; [eapply reserve_vertex_taken; eauto|].
    repeat split; try discriminate; auto.
  - eexists true, _. split; [done|].
    split; [eapply reserve_vertex_free; eauto|].
    split; [done|]. split; [|discriminate].
    intros _. simpl. split; [|split].
    + apply list_lookup_insert_eq. lia.
    + intros j Hj. now apply list_lookup_insert_ne.
    + now destruct g.
Qed.

(** C10. A vertex already held by the caller cannot be reserved again:
    [reserve_vertex] returns [False] and leaves the store unchanged, as it
    does for any occupant. *)
Theorem reserve_vertex_not_idempotent (g : NavGraph) (vertex_id a : Z)
    (vertex : Vertex) :
  0 <= vertex_id < Z.of_nat (length (vertices g)) ->
  vertices g !! Z.to_nat vertex_id = Some vertex ->
  (v_occupying_robot vertex = Some a ->
   reserve_vertex vertex_id a g = Ok (false, g))
  /\ (forall o, v_occupying_robot vertex = Some o ->
        reserve_vertex vertex_id a g = Ok (false, g)).
Proof.
  intros [H0 _] Hv.
  split; [|intros o]; intros Hocc; eapply reserve_vertex_taken; eauto.
Qed.


End StoreFacts.

(** * The lane invariant *)

Section LaneInvariant.
Context {SC : Scalar}.
Implicit Types (g : NavGraph) (ls : list Lane) (lane : Lane).

Lemma lane_matches_true f t lane :
  lane_matches f t lane = true
  <-> l_from_vertex lane = f /\ l_to_vertex lane = t.
Proof. unfold lane_matches. rewrite andb_true_iff, !Z.eqb_eq. tauto. Qed.

(** A freshly loaded store satisfies the invariant. *)
Lemma lanes_inv_fresh ls :
  Forall (fun lane => l_occupying_robot lane = None) ls -> lanes_inv ls.
Proof.
  induction 1 as [|lane rest Hocc Hrest IH]; simpl; [done|].
  split; [|done]. eapply Forall_impl; eauto.
Qed.

(** Clearing reservations, whichever, keeps the invariant. *)
Lemma lanes_inv_cleared ls ls' :
  Forall2 cleared_from ls ls' -> lanes_inv ls -> lanes_inv ls'.
Proof.
  induction 1 as [|lane lane' rest rest' Hc Hrest IH]; simpl; [done|].
  intros [Hbehind Hinv]. split; [|auto].
  assert (l_from_vertex lane' = l_from_vertex lane
          /\ l_to_vertex lane' = l_to_vertex lane) as [-> ->]
    by (destruct Hc as [-> | ->]; done).
  clear Hc IH Hinv. induction Hrest as [|x x' r r' Hx Hr IHr]; [done|].
  apply Forall_cons in Hbehind as [Hhead Hbehind].
  constructor; [|auto].
  destruct Hx as [-> | ->]; [done|]. done.
Qed.

Lemma release_lane_loop_cleared f t a ls :
  Forall2 cleared_from ls (release_lane_loop f t a ls).
Proof.
  induction ls as [|lane rest IH]; simpl; constructor; [|done].
  destruct (_ && _); [now right | now left].
Qed.

Lemma clear_lanes_cleared f t ls :
  Forall2 cleared_from ls (fst (TrafficManager.clear_lanes f t ls)).
Proof.
  induction ls as [|lane rest IH]; simpl; [constructor|].
  destruct (TrafficManager.clear_lanes f t rest) as [rest' n]. simpl in IH.
  destruct (lane_matches f t lane); [destruct (l_occupying_robot lane)|];
    simpl; constructor; auto; try (now left); now right.
Qed.

Lemma release_lane_inv f t a g :
  lanes_inv (lanes g) -> lanes_inv (lanes (release_lane f t a g)).
Proof. apply lanes_inv_cleared, release_lane_loop_cleared. Qed.

(** A reservation is written to the first entry of its pair, and keeps
    the invariant. *)
Lemma reserve_lane_loop_inv f t a ls :
  lanes_inv ls -> lanes_inv (snd (reserve_lane_loop f t a ls)).
Proof.
  induction ls as [|lane rest IH]; simpl; [done|].
  intros [Hbehind Hinv].
  destruct (lane_matches f t lane) eqn:Hm.
  - destruct (l_occupying_robot lane); [done|].
    destruct (l_is_blocked lane); simpl; done.
  - pose proof (reserve_lane_loop_spec f t a rest) as Hspec.
    destruct (reserve_lane_loop f t a rest) as [[] rest'];
      simpl in *; [|destruct Hspec as [-> _]; done].
    split; [|auto].
    destruct Hspec as (i & lane' & (Hi & Hmi & _) & _ & _ & ->).
    apply Forall_lookup. intros j x Hj Hx.
    destruct (decide (i = j)) as [<-|Hne].
    + rewrite list_lookup_insert_eq in Hj by (eapply lookup_lt_Some; eauto).
      injection Hj as <-.
      apply lane_matches_true in Hmi as [Hf Ht].
      apply lane_matches_true in Hx as [Hf' Ht']. simpl in *.
      assert (lane_matches f t lane = true) by (apply lane_matches_true; lia).
      congruence.
    + rewrite list_lookup_insert_ne in Hj by done.
      eapply Forall_lookup_1 in Hbehind; eauto.
Qed.

Lemma reserve_lane_inv f t a g :
  lanes_inv (lanes g) -> lanes_inv (lanes (snd (reserve_lane f t a g))).
Proof.
  intros Hinv. unfold reserve_lane.
  pose proof (reserve_lane_loop_inv f t a (lanes g) Hinv) as H.
  now destruct (reserve_lane_loop f t a (lanes g)).
Qed.

Lemma reserve_lane_vertices f t a g :
  vertices (snd (reserve_lane f t a g)) = vertices g.
Proof.
  unfold reserve_lane. now destruct (reserve_lane_loop f t a (lanes g)).
Qed.

(** Lanes of the pair that are all free: the clearing loop finds nothing. *)
Lemma clear_lanes_free f t ls :
  Forall (fun lane =>
            lane_matches f t lane = true -> l_occupying_robot lane = None) ls ->
  TrafficManager.clear_lanes f t ls = (ls, 0).
Proof.
  induction 1 as [|lane rest Hocc Hrest IH]; simpl; [done|].
  rewrite IH. destruct (lane_matches f t lane); [|done].
  now rewrite Hocc.
Qed.

(** Under the invariant the clearing loop touches the first lane of the
    pair only: it clears it and counts one when it is occupied, and does
    nothing otherwise. *)
Lemma clear_lanes_spec f t ls :
  lanes_inv ls ->
  (TrafficManager.clear_lanes f t ls = (ls, 0)
   /\ forall i lane, first_lane f t ls i lane -> l_occupying_robot lane = None)
  \/ (exists i lane,
        first_lane f t ls i lane /\ l_occupying_robot lane <> None
        /\ TrafficManager.clear_lanes f t ls
           = (<[i := lane_set_occupying_robot None lane]> ls, 1)).
Proof.
  induction ls as [|lane rest IH]; simpl.
  - intros _. left. split; [done|]. intros i lane (Hi & _). discriminate.
  - intros [Hbehind Hinv].
    destruct (lane_matches f t lane) eqn:Hm.
    + pose proof (first_lane_head f t lane rest Hm) as Hfirst.
      apply lane_matches_true in Hm as [<- <-].
      rewrite (clear_lanes_free _ _ _ Hbehind).
      destruct (l_occupying_robot lane) as [o|] eqn:Hocc.
      * right. exists 0%nat, lane. repeat split; try apply Hfirst.
        congruence.
      * left. split; [done|]. intros i lane' Hf.
        now destruct (first_lane_unique _ _ _ _ _ _ _ Hfirst Hf) as [_ <-].
    + destruct (IH Hinv) as [[-> Hfree] | (i & lane' & Hf & Hocc & ->)].
      * left. split; [done|]. intros i lane' Hf.
        apply first_lane_tail in Hf as (i' & -> & Hf); eauto.
      * right. exists (S i), lane'.
        split; [apply first_lane_tail; eauto|]. done.
Qed.

End LaneInvariant.

(** * The robot state machine *)

Section RobotFacts.
Context {SC : Scalar} {PF : PathFinder}.
Implicit Types (g : NavGraph) (r : Robot.t).

Lemma has_next_hop_lt r :
  Robot.has_next_hop r = true
  <-> (S (Robot.current_path_index r) < length (Robot.path r))%nat.
Proof.
  unfold Robot.has_next_hop. destruct (Robot.path r); cbv iota.
  - simpl. split; [discriminate | lia].
  - rewrite Z.ltb_lt. lia.
Qed.

Lemma has_next_hop_getitem r :
  Robot.has_next_hop r = true ->
  exists next_vertex,
    Robot.path r !! S (Robot.current_path_index r) = Some next_vertex
    /\ py_getitem (Robot.path r) (Z.of_nat (Robot.current_path_index r) + 1)
       = Ok next_vertex.
Proof.
  intros H. apply has_next_hop_lt in H.
  destruct (lookup_lt_is_Some_2 _ _ H) as [nv Hnv]. exists nv.
  split; [done|]. apply py_getitem_nonneg; [lia|].
  now replace (Z.to_nat (Z.of_nat (Robot.current_path_index r) + 1))
    with (S (Robot.current_path_index r)) by lia.
Qed.

Lemma lookup_getitem (p : list Z) (k : nat) (v : Z) :
  p !! k = Some v -> py_getitem p (Z.of_nat k) = Ok v.
Proof. intros H. apply py_getitem_nonneg; [lia|]. now rewrite Nat2Z.id. Qed.

(** A charging robot without a next hop is left alone by [update]. *)
Lemma update_charging_done delta_time r g :
  Robot.state r = Robot.CHARGING ->
  Robot.has_next_hop r = false ->
  Robot.update delta_time r g = Ok (r, g, quiet_status r).
Proof.
  intros Hs Hn. unfold Robot.update.
  destruct (decide (Robot.state r = Robot.IDLE)) as [He|_]; [congruence|].
  simpl. now rewrite Hn.
Qed.

Lemma assign_task_busy destination_vertex r g :
  Robot.state r <> Robot.IDLE -> Robot.state r <> Robot.COMPLETED ->
  Robot.assign_task destination_vertex r g = Ok (false, r).
Proof.
  intros H1 H2. unfold Robot.assign_task.
  now rewrite !bool_decide_eq_true_2.
Qed.

(** C9. A charging robot whose path is empty or fully traversed stays as
    it is: [update] changes neither the robot nor the store, [assign_task]
    returns [False] without a change, and so no sequence of such calls ever
    takes the robot out of [CHARGING]. *)
Theorem charging_without_path_is_stuck (r : Robot.t) (g : NavGraph) :
  Robot.state r = Robot.CHARGING ->
  Robot.path r = []
    \/ Z.of_nat (length (Robot.path r)) - 1
       <= Z.of_nat (Robot.current_path_index r) ->
  (forall delta_time,
     Robot.update delta_time r g
     = Ok (r, g,
           {| Robot.su_robot_id := Robot.id r;
              Robot.su_state := Robot.CHARGING;
              Robot.su_position := Robot.current_vertex r;
              Robot.su_event := None |}))
  /\ (forall destination_vertex,
        Robot.assign_task destination_vertex r g = Ok (false, r))
  /\ (forall cs, run_calls cs r g = Ok (r, g)).
Proof.
  intros Hs Hpath.
  assert (Robot.has_next_hop r = false) as Hn.
  { unfold Robot.has_next_hop. destruct Hpath as [-> | Hle]; [done|].
    destruct (Robot.path r); [done|]. lia. }
  assert (forall delta_time,
            Robot.update delta_time r g = Ok (r, g, quiet_status r)) as Hu
    by (intros; now apply update_charging_done).
  assert (forall destination_vertex,
            Robot.assign_task destination_vertex r g = Ok (false, r)) as Ha
    by (intros; apply assign_task_busy; congruence).
  split; [|split; [done|]].
  - intros dt. rewrite Hu. unfold quiet_status. now rewrite Hs.
  - induction cs as [|[dt|dest] cs IH]; simpl; [done| |].
    + now rewrite Hu.
    + now rewrite Ha.
Qed.

(** C2. A moving robot with a hop ahead, heading for a vertex of the
    store. When the distance left is below [move_speed] it arrives: the
    path index advances by one, the lane from the previous path vertex is
    released, a reservation of the arrived vertex is attempted, and the
    robot that results is [arrived r next_vertex] whether the attempt
    succeeded or not: at [next_vertex], [COMPLETED] when that was the last
    vertex of the path and [IDLE] otherwise. When the distance is not below
    [move_speed] the position moves by [move_speed] along the direction to
    the target, the robot stays [MOVING] and the store is untouched. *)
Theorem moving_update_spec (delta_time : num) (r : Robot.t) (g : NavGraph)
    (next_vertex : Z) :
  Robot.state r = Robot.MOVING ->
  Robot.path r !! S (Robot.current_path_index r) = Some next_vertex ->
  valid_index (vertices g) next_vertex ->
  let direction := Robot.vec_sub (Robot.target_position r) (Robot.position r) in
  let distance := num_norm direction in
  (num_lt distance (Robot.move_speed r) = true ->
   exists prev_vertex reserved g2,
     Robot.path r !! Robot.current_path_index r = Some prev_vertex
     /\ reserve_vertex next_vertex (Robot.id r)
          (release_lane prev_vertex next_vertex (Robot.id r) g)
        = Ok (reserved, g2)
     /\ Robot.update delta_time r g
        = Ok (arrived r next_vertex, g2,
              Robot.report (Robot.state (arrived r next_vertex))
                (if bool_decide (length (Robot.path r)
                                 = S (S (Robot.current_path_index r)))
                 then Robot.reached_destination
                 else Robot.arrived_at next_vertex)
                (quiet_status r)))
  /\ (num_lt distance (Robot.move_speed r) = false ->
      Robot.update delta_time r g
      = Ok (Robot.set_position
              (Robot.vec_add (Robot.position r)
                 (Robot.vec_mul (Robot.vec_div direction distance)
                    (Robot.move_speed r))) r,
            g, quiet_status r)
      /\ Robot.state
           (Robot.set_position
              (Robot.vec_add (Robot.position r)
                 (Robot.vec_mul (Robot.vec_div direction distance)
                    (Robot.move_speed r))) r) = Robot.MOVING).
Proof.
  intros Hs Hnext Hvalid direction distance.
  assert (Robot.has_next_hop r = true) as Hhop
    by (apply has_next_hop_lt; eapply lookup_lt_Some; eauto).
  assert (exists prev_vertex,
            Robot.path r !! Robot.current_path_index r = Some prev_vertex)
    as [prev_vertex Hprev].
  { apply lookup_lt_is_Some_2. apply lookup_lt_Some in Hnext. lia. }
  unfold Robot.update.
  destruct (decide (Robot.state r = Robot.IDLE)) as [He|_]; [congruence|].
  cbn [mbind result_bind mret result_ret]. rewrite Hhop, Hs.
  fold direction. fold distance.
  split.
  - intros Hlt. rewrite Hlt.
    rewrite (lookup_getitem _ _ _ Hnext). cbn [mbind result_bind].
    replace (Z.of_nat (S (Robot.current_path_index r)) - 1)
      with (Z.of_nat (Robot.current_path_index r)) by lia.
    rewrite (lookup_getitem _ _ _ Hprev). cbn [mbind result_bind].
    destruct (reserve_vertex_total
                (release_lane prev_vertex next_vertex (Robot.id r) g)
                next_vertex (Robot.id r)) as (reserved & g2 & Hres & _);
      [exact Hvalid|].
    exists prev_vertex, reserved, g2. split; [done|]. split; [done|].
    rewrite Hres. cbn [mbind result_bind].
    unfold arrived, quiet_status. rewrite Hs.
    destruct (Z.of_nat (S (Robot.current_path_index r))
              =? Z.of_nat (length (Robot.path r)) - 1) eqn:Hlast.
    + apply Z.eqb_eq in Hlast.
      rewrite bool_decide_eq_true_2 by lia. reflexivity.
    + apply Z.eqb_neq in Hlast.
      rewrite bool_decide_eq_false_2 by lia. reflexivity.
  - intros Hge. rewrite Hge. unfold quiet_status. now rewrite Hs.
Qed.

(** Ticks that leave a robot as it is can be repeated at will. *)
Lemma run_updates_fixed r g (dts : list num) :
  (forall delta_time, exists u, Robot.update delta_time r g = Ok (r, g, u)) ->
  run_calls (map call_update dts) r g = Ok (r, g).
Proof.
  intros Hfix. induction dts as [|dt dts IH]; simpl; [done|].
  destruct (Hfix dt) as [u ->]. simpl. exact IH.
Qed.

(** C5, as the code has it. A robot that is [IDLE] or [COMPLETED], stands
    on a node of the graph and is given its own vertex as destination
    accepts the task: the path becomes that one vertex and the state
    becomes [IDLE]. No later tick makes it [COMPLETED]. Where the vertex is
    a valid subscript of the vertex list, [update] leaves the robot [IDLE],
    untouched, when the vertex is not a charger, and turns it to
    [CHARGING], where it stays, when the vertex is a charger; the store is
    never touched. Where it is not, [update] raises [IndexError]. *)
Theorem assign_task_same_vertex (r : Robot.t) (g : NavGraph) :
  Robot.state r = Robot.IDLE \/ Robot.state r = Robot.COMPLETED ->
  has_node (graph g) (Robot.current_vertex r) = true ->
  exists r1,
    Robot.assign_task (Robot.current_vertex r) r g = Ok (true, r1)
    /\ Robot.path r1 = [Robot.current_vertex r]
    /\ Robot.current_path_index r1 = 0%nat
    /\ Robot.target_vertex r1 = Some (Robot.current_vertex r)
    /\ Robot.state r1 = Robot.IDLE
    /\ (forall vertex,
          py_getitem (vertices g) (Robot.current_vertex r) = Ok vertex ->
          (forall delta_time,
             Robot.update delta_time r1 g
             = Ok (if v_is_charger vertex
                   then (Robot.set_state Robot.CHARGING r1, g,
                         Robot.report Robot.CHARGING Robot.started_charging
                           (quiet_status r1))
                   else (r1, g, quiet_status r1)))
          /\ (forall delta_time dts,
                exists r2,
                  run_calls (map call_update (delta_time :: dts)) r1 g
                  = Ok (r2, g)
                  /\ Robot.state r2
                     = (if v_is_charger vertex
                        then Robot.CHARGING else Robot.IDLE)))
    /\ (forall delta_time,
          py_getitem (vertices g) (Robot.current_vertex r) = Raise IndexError ->
          Robot.update delta_time r1 g = Raise IndexError)
    /\ (forall dts r2 g2,
          run_calls (map call_update dts) r1 g = Ok (r2, g2) ->
          Robot.state r2 <> Robot.COMPLETED).
Proof.
  intros Hstate Hnode.
  eexists. split.
  { unfold Robot.assign_task.
    replace (bool_decide (Robot.state r <> Robot.IDLE)
             && bool_decide (Robot.state r <> Robot.COMPLETED)) with false.
    2: { destruct Hstate as [-> | ->]; reflexivity. }
    unfold get_shortest_path. rewrite (nx_shortest_path_self _ _ Hnode).
    reflexivity. }
  set (r1 := {| Robot.id := Robot.id r; Robot.state := Robot.IDLE |}).
  do 4 (split; [reflexivity|]).
  assert (forall vertex,
            py_getitem (vertices g) (Robot.current_vertex r) = Ok vertex ->
            (forall delta_time,
               Robot.update delta_time r1 g
               = Ok (if v_is_charger vertex
                     then (Robot.set_state Robot.CHARGING r1, g,
                           Robot.report Robot.CHARGING Robot.started_charging
                             (quiet_status r1))
                     else (r1, g, quiet_status r1)))
            /\ (forall delta_time dts,
                  exists r2,
                    run_calls (map call_update (delta_time :: dts)) r1 g
                    = Ok (r2, g)
                    /\ Robot.state r2
                       = (if v_is_charger vertex
                          then Robot.CHARGING else Robot.IDLE))) as Hvalid.
  { intros vertex Hvertex.
    assert (forall delta_time,
              Robot.update delta_time r1 g
              = Ok (if v_is_charger vertex
                    then (Robot.set_state Robot.CHARGING r1, g,
                          Robot.report Robot.CHARGING Robot.started_charging
                            (quiet_status r1))
                    else (r1, g, quiet_status r1))) as Hupd.
    { intros dt. unfold Robot.update. simpl. rewrite Hvertex. simpl.
      now destruct (v_is_charger vertex). }
    split; [exact Hupd|].
    intros dt dts. cbn [map run_calls run_call]. rewrite Hupd.
    destruct (v_is_charger vertex); cbn [mbind result_bind].
    - exists (Robot.set_state Robot.CHARGING r1). split; [|reflexivity].
      apply run_updates_fixed. intros dt'. eexists.
      now apply update_charging_done.
    - exists r1. split; [|reflexivity].
      apply run_updates_fixed. intros dt'. eexists.
      rewrite Hupd. reflexivity. }
  assert (forall delta_time,
            py_getitem (vertices g) (Robot.current_vertex r)
            = Raise IndexError ->
            Robot.update delta_time r1 g = Raise IndexError) as Hraise.
  { intros dt Hget. unfold Robot.update. simpl. now rewrite Hget. }
  split; [exact Hvalid|]. split; [exact Hraise|].
  intros [|dt dts] r2 g2 Hrun.
  { injection Hrun as <- _. discriminate. }
  destruct (py_getitem (vertices g) (Robot.current_vertex r))
    as [vertex|e] eqn:Hget.
  - destruct (Hvalid vertex eq_refl) as [_ Hruns].
    destruct (Hruns dt dts) as (r2' & Hrun' & Hst).
    rewrite Hrun' in Hrun. injection Hrun as <- _.
    rewrite Hst. now destruct (v_is_charger vertex).
  - assert (e = IndexError) as ->.
    { revert Hget. unfold py_getitem.
      destruct (py_index _ _) as [k|]; [|now intros [= <-]].
      destruct (_ !! k); [discriminate | now intros [= <-]]. }
    cbn [map run_calls run_call] in Hrun.
    rewrite (Hraise dt eq_refl) in Hrun. discriminate.
Qed.

End RobotFacts.

(** * Invariants along the calls *)

Section Preservation.
Context {SC : Scalar} {PF : PathFinder}.
Implicit Types (g : NavGraph) (r : Robot.t).

(** Case analysis on a computation in the [result] monad that is known to
    have returned. *)
Ltac returned H :=
  repeat match type of H with
    | (if ?b then _ else _) = Ok _ =>
        destruct b eqn:?; cbn [mbind result_bind mret result_ret] in H
    | (match ?x with _ => _ end) = Ok _ =>
        destruct x eqn:?; cbn [mbind result_bind mret result_ret] in H
    | (let '(_, _) := ?x in _) = Ok _ =>
        destruct x eqn:?; cbn [mbind result_bind mret result_ret] in H
    | (?m ≫= _) = Ok _ =>
        destruct m eqn:?; cbn [mbind result_bind mret result_ret] in H
    | Raise _ = Ok _ => discriminate H
    end.

Lemma get_scaled_position_valid g vertex_id p :
  get_scaled_position g vertex_id = Ok p -> valid_index (vertices g) vertex_id.
Proof.
  unfold get_scaled_position. intros H.
  destruct (py_getitem (vertices g) vertex_id) eqn:Hget; [|discriminate].
  eapply py_getitem_Ok_valid; eauto.
Qed.

Lemma start_moving_Ok next_vertex r g r' g' :
  Robot.start_moving next_vertex r g = Ok (r', g') ->
  lanes g' = lanes g
  /\ length (vertices g') = length (vertices g)
  /\ valid_index (vertices g') next_vertex
  /\ Robot.state r' = Robot.MOVING
  /\ Robot.path r' = Robot.path r
  /\ Robot.current_path_index r' = Robot.current_path_index r.
Proof.
  unfold Robot.start_moving. intros H. returned H.
  injection H as <- <-.
  match goal with
  | Hrel : release_vertex _ _ _ = Ok _ |- _ =>
      apply release_vertex_Ok in Hrel as [Hl Hv]
  end.
  repeat split; auto.
  - eapply get_scaled_position_valid; eauto.
  - eapply get_scaled_position_valid; eauto.
Qed.

(** A successful departure: the lane was reserved and the robot moves. *)
Lemma depart_preserves r g next_vertex g1 r2 g2 :
  Robot.has_next_hop r = true ->
  py_getitem (Robot.path r) (Z.of_nat (Robot.current_path_index r) + 1)
  = Ok next_vertex ->
  reserve_lane (Robot.current_vertex r) next_vertex (Robot.id r) g
  = (true, g1) ->
  Robot.start_moving next_vertex r g1 = Ok (r2, g2) ->
  (lanes_inv (lanes g) -> lanes_inv (lanes g2))
  /\ length (vertices g2) = length (vertices g)
  /\ robot_inv r2 g2.
Proof.
  intros Hhop Hnv Hres Hsm.
  pose proof (reserve_lane_inv (Robot.current_vertex r) next_vertex
                (Robot.id r) g) as Hlinv.
  pose proof (reserve_lane_vertices (Robot.current_vertex r) next_vertex
                (Robot.id r) g) as Hlv.
  rewrite Hres in Hlinv, Hlv. simpl in Hlinv, Hlv.
  apply start_moving_Ok in Hsm as (Hl & Hv & Hvalid & Hst & Hp & Hi).
  split; [rewrite Hl; auto|]. split; [rewrite Hv, Hlv; done|].
  unfold robot_inv. rewrite Hst, Hp, Hi.
  unfold Robot.has_next_hop. rewrite Hp, Hi.
  fold (Robot.has_next_hop r). split; [done|]. intros _.
  destruct (has_next_hop_getitem r Hhop) as (nv' & Hlook & Hget).
  exists nv'. split; [done|]. congruence.
Qed.

(** A failed reservation leaves the store as it was. *)
Lemma reserve_lane_failed f t a g g1 :
  reserve_lane f t a g = (false, g1) -> g1 = g.
Proof.
  unfold reserve_lane. intros H.
  pose proof (reserve_lane_loop_spec f t a (lanes g)) as Hloop.
  destruct (reserve_lane_loop f t a (lanes g)) as [ok ls].
  injection H as -> <-. destruct Hloop as [-> _]. apply set_lanes_same.
Qed.

(** What every returning [update] keeps: the lane invariant, the number of
    vertices, and the invariant of the robot. *)
Lemma update_preserves delta_time r g r' g' u :
  Robot.update delta_time r g = Ok (r', g', u) ->
  (lanes_inv (lanes g) -> lanes_inv (lanes g'))
  /\ length (vertices g') = length (vertices g)
  /\ (robot_inv r g -> robot_inv r' g').
Proof.
  unfold Robot.update. intros H.
  assert (forall s, s <> Robot.MOVING -> s <> Robot.WAITING ->
            robot_inv (Robot.set_state s r) g) as Hrest.
  { intros s H1 H2. split; simpl; [intros [?|?]|]; congruence. }
  destruct (decide (Robot.state r = Robot.IDLE)) as [Hidle|Hnidle];
    cbn [mbind result_bind mret result_ret] in H.
  - destruct (py_getitem (vertices g) (Robot.current_vertex r)) as [vd|]
      eqn:Hvd; cbn [mbind result_bind mret result_ret] in H; [|discriminate].
    destruct (v_is_charger vd).
    { injection H as <- <- <-.
      split; [auto|]. split; [done|]. intros _. now apply Hrest. }
    destruct (Robot.has_next_hop r) eqn:Hhop.
    2: { injection H as <- <- <-. auto. }
    rewrite Hidle in H.
    destruct (py_getitem (Robot.path r) _) as [nv|] eqn:Hnv;
      cbn [mbind result_bind mret result_ret] in H; [|discriminate].
    destruct (reserve_lane (Robot.current_vertex r) nv (Robot.id r) g)
      as [[] g1] eqn:Hres.
    + destruct (Robot.start_moving nv r g1) as [[r2 g2]|] eqn:Hsm;
        cbn [mbind result_bind mret result_ret] in H; [|discriminate].
      injection H as <- <- <-.
      destruct (depart_preserves _ _ _ _ _ _ Hhop Hnv Hres Hsm)
        as (? & ? & ?). auto.
    + injection H as <- <- <-. apply reserve_lane_failed in Hres as ->.
      split; [auto|]. split; [done|]. intros _.
      split; simpl; [done | discriminate].
  - destruct (Robot.has_next_hop r) eqn:Hhop.
    2: { injection H as <- <- <-. auto. }
    destruct (Robot.state r) eqn:Hstate; [congruence| | | |].
    + (* MOVING *)
      destruct (num_lt _ _).
      2: { injection H as <- <- <-.
           split; [auto|]. split; [done|].
           intros [_ Hinv]. split; simpl; [done|].
           intros _. now apply Hinv. }
      destruct (py_getitem (Robot.path r)
                  (Z.of_nat (S (Robot.current_path_index r))))
        as [nv|] eqn:Hnv;
        cbn [mbind result_bind mret result_ret] in H; [|discriminate].
      destruct (py_getitem (Robot.path r)
                  (Z.of_nat (S (Robot.current_path_index r)) - 1))
        as [pv|] eqn:Hpv;
        cbn [mbind result_bind mret result_ret] in H; [|discriminate].
      destruct (reserve_vertex nv (Robot.id r)
                  (release_lane pv nv (Robot.id r) g))
        as [[ok g2]|] eqn:Hrv;
        cbn [mbind result_bind mret result_ret] in H; [|discriminate].
      apply reserve_vertex_Ok in Hrv as [Hl Hv].
      assert (lanes_inv (lanes g) -> lanes_inv (lanes g2)) as Hinv.
      { rewrite Hl. apply release_lane_inv. }
      destruct (_ =? _); injection H as <- <- <-;
        (split; [exact Hinv|]; split; [exact Hv|]);
        intros _; split; simpl; try discriminate;
        intros [?|?]; discriminate.
    + (* WAITING *)
      destruct (py_getitem (Robot.path r) _) as [nv|] eqn:Hnv;
        cbn [mbind result_bind mret result_ret] in H; [|discriminate].
      destruct (reserve_lane (Robot.current_vertex r) nv (Robot.id r) g)
        as [[] g1] eqn:Hres.
      * destruct (Robot.start_moving nv r g1) as [[r2 g2]|] eqn:Hsm;
          cbn [mbind result_bind mret result_ret] in H; [|discriminate].
        injection H as <- <- <-.
        destruct (depart_preserves _ _ _ _ _ _ Hhop Hnv Hres Hsm)
          as (? & ? & ?). auto.
      * injection H as <- <- <-. apply reserve_lane_failed in Hres as ->.
        auto.
    + (* CHARGING *)
      destruct (py_getitem (Robot.path r) _) as [nv|] eqn:Hnv;
        cbn [mbind result_bind mret result_ret] in H; [|discriminate].
      destruct (reserve_lane (Robot.current_vertex r) nv (Robot.id r) g)
        as [[] g1] eqn:Hres.
      * destruct (Robot.start_moving nv r g1) as [[r2 g2]|] eqn:Hsm;
          cbn [mbind result_bind mret result_ret] in H; [|discriminate].
        injection H as <- <- <-.
        destruct (depart_preserves _ _ _ _ _ _ Hhop Hnv Hres Hsm)
          as (? & ? & ?). auto.
      * injection H as <- <- <-. apply reserve_lane_failed in Hres as ->.
        split; [auto|]. split; [done|]. intros _.
        split; simpl; [done | discriminate].
    + (* COMPLETED *)
      injection H as <- <- <-. auto.
Qed.

End Preservation.

(** * The fleet registry *)

Section FleetFacts.
Context {SC : Scalar} {PF : PathFinder}.
Implicit Types (g : NavGraph) (fm : FleetManager.t).

Lemma dict_get_set {V : Type} (d : list (Z * V)) (k : Z) (v : V) :
  dict_get (dict_set d k v) k = Ok v.
Proof.
  induction d as [|[k' v'] rest IH]; simpl.
  - now rewrite Z.eqb_refl.
  - destruct (k' =? k) eqn:E; simpl; [now rewrite Z.eqb_refl|].
    now rewrite E.
Qed.

Lemma dict_get_first {V : Type} (before after : list (Z * V)) (k : Z) (v : V) :
  dict_wf (before ++ (k, v) :: after) ->
  dict_get (before ++ (k, v) :: after) k = Ok v.
Proof.
  unfold dict_wf. induction before as [|[k' v'] rest IH]; simpl.
  - intros _. now rewrite Z.eqb_refl.
  - intros Hnd. apply NoDup_cons in Hnd as [Hnotin Hnd].
    destruct (k' =? k) eqn:E; [|auto].
    apply Z.eqb_eq in E as ->. exfalso. apply Hnotin.
    rewrite map_app. apply elem_of_app. right. simpl. left.
Qed.

Lemma robot_color_exists (n : Z) :
  exists c,
    py_getitem FleetManager.robot_colors
      (n `mod` Z.of_nat (length FleetManager.robot_colors)) = Ok c.
Proof.
  apply py_getitem_valid. unfold valid_index.
  pose proof (Z.mod_pos_bound n
                (Z.of_nat (length FleetManager.robot_colors))) as Hb.
  simpl in *. lia.
Qed.

(** C6, as the code has it. Spawning on a vertex of the store. When the
    vertex is occupied [spawn_robot] returns [None] and neither the store
    nor the registry changes. When it is free and its scaled position can be
    computed, [spawn_robot] returns the next sequential id, registers under
    it a new idle robot that stands at the vertex, at that position, moves
    the id counter on by one, and the vertex is occupied by the new id while
    every other vertex and every lane is as before. When it is free and
    [get_scaled_position] raises, on a coordinate that is not finite,
    [spawn_robot] raises the same exception and returns no id. *)
Theorem spawn_robot_spec (vertex_id : Z) (now : num) (fm : FleetManager.t)
    (g : NavGraph) :
  0 <= vertex_id < Z.of_nat (length (vertices g)) ->
  exists vertex,
    vertices g !! Z.to_nat vertex_id = Some vertex
    /\ (v_occupying_robot vertex <> None ->
        FleetManager.spawn_robot vertex_id now fm g = Ok (None, fm, g))
    /\ (forall e,
          v_occupying_robot vertex = None ->
          get_scaled_position g vertex_id = Raise e ->
          FleetManager.spawn_robot vertex_id now fm g = Raise e)
    /\ (forall pos,
        v_occupying_robot vertex = None ->
        get_scaled_position g vertex_id = Ok pos ->
        exists robot g',
          FleetManager.spawn_robot vertex_id now fm g
          = Ok (Some (FleetManager.next_robot_id fm),
                {| FleetManager.robots :=
                     dict_set (FleetManager.robots fm)
                       (FleetManager.next_robot_id fm) robot;
                   FleetManager.next_robot_id :=
                     FleetManager.next_robot_id fm + 1;
                   FleetManager.selected_robot :=
                     FleetManager.selected_robot fm |},
                g')
          /\ dict_get
               (dict_set (FleetManager.robots fm)
                  (FleetManager.next_robot_id fm) robot)
               (FleetManager.next_robot_id fm) = Ok robot
          /\ Robot.id robot = FleetManager.next_robot_id fm
          /\ Robot.current_vertex robot = vertex_id
          /\ Robot.state robot = Robot.IDLE
          /\ Robot.path robot = []
          /\ Robot.position robot = pos
          /\ vertices g' !! Z.to_nat vertex_id
             = Some (vertex_set_occupying_robot
                       (Some (FleetManager.next_robot_id fm)) vertex)
          /\ v_occupying_robot <$> vertices g' !! Z.to_nat vertex_id
             = Some (Some (FleetManager.next_robot_id fm))
          /\ (forall j, j <> Z.to_nat vertex_id ->
                vertices g' !! j = vertices g !! j)
          /\ set_vertices (vertices g) g' = g).
Proof.
  intros [H0 Hlen].
  destruct (lookup_lt_is_Some_2 (vertices g) (Z.to_nat vertex_id))
    as [vertex Hv]; [lia|].
  exists vertex. split; [done|].
  unfold FleetManager.spawn_robot.
  rewrite (py_getitem_nonneg _ _ _ H0 Hv).
  cbn [mbind result_bind mret result_ret].
  destruct (v_occupying_robot vertex) as [o|] eqn:Hocc.
  - split; [done|]. split; [discriminate|]. intros pos [=].
  - split; [done|].
    destruct (robot_color_exists (FleetManager.next_robot_id fm))
      as [c ->].
    cbn [mbind result_bind mret result_ret].
    unfold Robot.init. split.
    + intros e _ ->. reflexivity.
    + intros pos _ ->.
      cbn [mbind result_bind mret result_ret].
      rewrite (reserve_vertex_free _ _ _ _ H0 Hv Hocc).
      cbn [mbind result_bind mret result_ret].
      eexists _, _. split; [reflexivity|].
      split; [apply dict_get_set|].
      do 5 (split; [reflexivity|]).
      simpl. split; [|split; [|split]].
      * apply list_lookup_insert_eq. lia.
      * rewrite list_lookup_insert_eq by lia. reflexivity.
      * intros j Hj. now apply list_lookup_insert_ne.
      * now destruct g.
Qed.

(** C8. [update] never reads [delta_time]. Two calls on the same robot and
    the same store that differ in it only return the same status and leave
    the same robot (state, path index, current vertex, position and all) and
    the same store, or raise the same exception; so do two ticks of the
    whole fleet, and two runs of ticks of the same length. *)
Theorem update_ignores_delta_time (d1 d2 : num) :
  (forall (r : Robot.t) (g : NavGraph),
     Robot.update d1 r g = Robot.update d2 r g)
  /\ (forall (fm : FleetManager.t) (g : NavGraph),
        FleetManager.update d1 fm g = FleetManager.update d2 fm g)
  /\ (forall (dts1 dts2 : list num) (r : Robot.t) (g : NavGraph),
        length dts1 = length dts2 ->
        run_calls (map call_update dts1) r g
        = run_calls (map call_update dts2) r g).
Proof.
  assert (forall (a b : num) (r : Robot.t) (g : NavGraph),
            Robot.update a r g = Robot.update b r g) as Hrobot
    by reflexivity.
  split; [apply Hrobot|]. split.
  - intros fm g. unfold FleetManager.update. f_equal.
    generalize (FleetManager.robots fm) as rs. intros rs. revert g.
    induction rs as [|[k r] rest IH]; intros g; simpl; [done|].
    rewrite (Hrobot d1 d2).
    destruct (Robot.update d2 r g) as [[[r1 g1] u]|]; simpl; [|done].
    now rewrite IH.
  - intros dts1. induction dts1 as [|a dts1 IH]; intros [|b dts2] r g Hlen;
      simpl in *; try discriminate; [done|].
    rewrite (Hrobot a b).
    destruct (Robot.update b r g) as [[[r1 g1] u]|]; simpl; [|done].
    apply IH. congruence.
Qed.

(** The registry loop keeps the lane invariant and the number of
    vertices. *)
Lemma update_robots_preserves delta_time rs g rs' g' :
  FleetManager.update_robots delta_time rs g = Ok (rs', g') ->
  (lanes_inv (lanes g) -> lanes_inv (lanes g'))
  /\ length (vertices g') = length (vertices g)
  /\ map fst rs' = map fst rs.
Proof.
  revert g rs' g'. induction rs as [|[k r] rest IH]; intros g rs' g' H.
  - injection H as <- <-. auto.
  - simpl in H.
    destruct (Robot.update delta_time r g) as [[[r1 g1] u]|] eqn:Hu;
      cbn [mbind result_bind mret result_ret] in H; [|discriminate].
    destruct (FleetManager.update_robots delta_time rest g1)
      as [[rest1 g2]|] eqn:Hrest;
      cbn [mbind result_bind mret result_ret] in H; [|discriminate].
    injection H as <- <-.
    apply update_preserves in Hu as (Hl1 & Hv1 & _).
    apply IH in Hrest as (Hl2 & Hv2 & Hk).
    split; [auto|]. split; [congruence|]. simpl. now rewrite Hk.
Qed.

End FleetFacts.

(** * The traffic manager *)

Section TrafficFacts.
Context {SC : Scalar}.
Implicit Types (g : NavGraph) (fm : FleetManager.t).

Lemma waiting_robots_none fm :
  Forall (fun kv => Robot.state (snd kv) <> Robot.WAITING)
    (FleetManager.robots fm) ->
  TrafficManager.waiting_robots fm = [].
Proof.
  unfold TrafficManager.waiting_robots.
  induction 1 as [|kv rest Hkv Hrest IH]; [done|].
  now rewrite filter_cons_False.
Qed.

Lemma waiting_robots_first fm rid robot :
  first_waiting fm rid robot ->
  exists others, TrafficManager.waiting_robots fm = rid :: others.
Proof.
  intros (before & after & Hfm & Hbefore & Hw).
  unfold TrafficManager.waiting_robots. rewrite Hfm. clear Hfm.
  induction Hbefore as [|kv rest Hkv Hrest IH]; simpl.
  - rewrite filter_cons_True by done. simpl. eauto.
  - now rewrite filter_cons_False.
Qed.

(** Either no robot waits or there is a first one that does. *)
Lemma first_waiting_cases fm :
  Forall (fun kv => Robot.state (snd kv) <> Robot.WAITING)
    (FleetManager.robots fm)
  \/ exists rid robot, first_waiting fm rid robot.
Proof.
  unfold first_waiting.
  induction (FleetManager.robots fm) as [|[k r] rest IH]; [now left|].
  destruct (decide (Robot.state r = Robot.WAITING)) as [Hw|Hnw].
  - right. exists k, r, [], rest. auto.
  - destruct IH as [Hall | (rid & robot & before & after & -> & Hb & Hw)].
    + left. now constructor.
    + right. exists rid, robot, ((k, r) :: before), after. auto.
Qed.

(** C1. With the registry a dictionary and the store in a state the
    reservation operations produce. [resolve_deadlocks] always returns 0 or
    1, never touches a vertex and keeps the lane invariant. With no waiting
    robot it returns 0 and changes nothing. Otherwise only the first waiting
    robot of the registry counts: when the lane from its current vertex to
    its next path vertex is occupied (by whichever robot, another one in
    particular), that lane is cleared and the result is 1; and any lane
    that differs afterwards is that very lane. *)
Theorem resolve_deadlocks_spec (fm : FleetManager.t) (g : NavGraph) :
  dict_wf (FleetManager.robots fm) ->
  lanes_inv (lanes g) ->
  (exists n g',
     TrafficManager.resolve_deadlocks fm g = Ok (n, g')
     /\ (n = 0 \/ n = 1)
     /\ set_lanes (lanes g) g' = g
     /\ length (lanes g') = length (lanes g)
     /\ lanes_inv (lanes g'))
  /\ (Forall (fun kv => Robot.state (snd kv) <> Robot.WAITING)
        (FleetManager.robots fm) ->
      TrafficManager.resolve_deadlocks fm g = Ok (0, g))
  /\ (forall rid robot,
        first_waiting fm rid robot ->
        (forall next_vertex i lane o,
           Robot.path robot !! S (Robot.current_path_index robot)
           = Some next_vertex ->
           first_lane (Robot.current_vertex robot) next_vertex (lanes g)
             i lane ->
           l_occupying_robot lane = Some o ->
           TrafficManager.resolve_deadlocks fm g
           = Ok (1,
                 set_lanes
                   (<[i := lane_set_occupying_robot None lane]> (lanes g)) g))
        /\ (forall n g' j lane,
              TrafficManager.resolve_deadlocks fm g = Ok (n, g') ->
              lanes g !! j = Some lane ->
              lanes g' !! j = Some lane
              \/ (n = 1
                  /\ lanes g' !! j = Some (lane_set_occupying_robot None lane)
                  /\ l_occupying_robot lane <> None
                  /\ exists next_vertex,
                       Robot.path robot !! S (Robot.current_path_index robot)
                       = Some next_vertex
                       /\ first_lane (Robot.current_vertex robot) next_vertex
                            (lanes g) j lane))).
Proof.
  intros Hwf Hinv.
  (* the run of the function on its first waiting robot *)
  assert (forall rid robot,
            first_waiting fm rid robot ->
            TrafficManager.resolve_deadlocks fm g
            = if Robot.has_next_hop robot then
                next_vertex ←
                  py_getitem (Robot.path robot)
                    (Z.of_nat (Robot.current_path_index robot) + 1);
                let '(ls, resolved) :=
                  TrafficManager.clear_lanes (Robot.current_vertex robot)
                    next_vertex (lanes g) in
                mret (resolved, set_lanes ls g)
              else mret (0, g)) as Hrun.
  { intros rid robot Hfirst.
    destruct (waiting_robots_first _ _ _ Hfirst) as [others Hw].
    destruct Hfirst as (before & after & Hfm & _ & _).
    unfold TrafficManager.resolve_deadlocks. rewrite Hw, Hfm.
    rewrite dict_get_first by (rewrite <- Hfm; exact Hwf).
    reflexivity. }
  (* what that run does *)
  assert (forall rid robot,
            first_waiting fm rid robot ->
            (Robot.has_next_hop robot = false
             /\ TrafficManager.resolve_deadlocks fm g = Ok (0, g))
            \/ (exists next_vertex,
                  Robot.path robot !! S (Robot.current_path_index robot)
                  = Some next_vertex
                  /\ TrafficManager.resolve_deadlocks fm g
                     = Ok (snd (TrafficManager.clear_lanes
                                  (Robot.current_vertex robot) next_vertex
                                  (lanes g)),
                           set_lanes
                             (fst (TrafficManager.clear_lanes
                                     (Robot.current_vertex robot) next_vertex
                                     (lanes g))) g))) as Hcases.
  { intros rid robot Hfirst. rewrite (Hrun _ _ Hfirst).
    destruct (Robot.has_next_hop robot) eqn:Hhop; [right | left; done].
    destruct (has_next_hop_getitem robot Hhop) as (nv & Hlook & ->).
    exists nv. split; [done|].
    cbn [mbind result_bind mret result_ret].
    now destruct (TrafficManager.clear_lanes _ _ _). }
  assert (forall (P : Prop),
            (Forall (fun kv => Robot.state (snd kv) <> Robot.WAITING)
               (FleetManager.robots fm) -> P) ->
            (forall rid robot, first_waiting fm rid robot -> P) -> P)
    as Hsplit.
  { intros P Hnone Hsome.
    destruct (first_waiting_cases fm) as [Hall | (rid & robot & Hfirst)];
      eauto. }
  assert (Forall (fun kv => Robot.state (snd kv) <> Robot.WAITING)
            (FleetManager.robots fm) ->
          TrafficManager.resolve_deadlocks fm g = Ok (0, g)) as Hnone.
  { intros Hall. unfold TrafficManager.resolve_deadlocks.
    now rewrite (waiting_robots_none _ Hall). }
  split; [|split; [exact Hnone|]].
  - apply Hsplit.
    + intros Hall. exists 0, g. rewrite (Hnone Hall).
      repeat split; auto using set_lanes_same.
    + intros rid robot Hfirst.
      destruct (Hcases _ _ Hfirst) as [[_ ->] | (nv & _ & ->)].
      * exists 0, g. repeat split; auto using set_lanes_same.
      * eexists _, _. split; [reflexivity|].
        pose proof (clear_lanes_cleared (Robot.current_vertex robot) nv
                      (lanes g)) as Hcl.
        split; [|split; [now destruct g|split]].
        -- destruct (clear_lanes_spec (Robot.current_vertex robot) nv
                       (lanes g) Hinv) as [[-> _] | (i & l & _ & _ & ->)];
             simpl; auto.
        -- simpl. symmetry. eapply Forall2_length; eauto.
        -- simpl. eapply lanes_inv_cleared; eauto.
  - intros rid robot Hfirst. split.
    + intros nv i lane o Hlook Hf Hocc.
      destruct (Hcases _ _ Hfirst) as [[Hno _] | (nv' & Hlook' & ->)].
      * apply lookup_lt_Some in Hlook.
        apply has_next_hop_lt in Hlook. congruence.
      * assert (nv' = nv) as -> by congruence.
        destruct (clear_lanes_spec (Robot.current_vertex robot) nv
                    (lanes g) Hinv) as [[_ Hfree] | (i' & l' & Hf' & _ & ->)].
        -- rewrite (Hfree _ _ Hf) in Hocc. discriminate.
        -- now destruct (first_lane_unique _ _ _ _ _ _ _ Hf Hf') as [<- <-].
    + intros n g' j lane Hres Hj.
      destruct (Hcases _ _ Hfirst) as [[_ Hr] | (nv & Hlook & Hr)];
        rewrite Hr in Hres; injection Hres as <- <-; [now left|].
      destruct (clear_lanes_spec (Robot.current_vertex robot) nv
                  (lanes g) Hinv) as [[-> _] | (i & l & Hf & Hocc & ->)];
        simpl; [now left|].
      destruct (decide (i = j)) as [<-|Hne].
      * right. destruct Hf as (Hi & Hrest).
        assert (l = lane) as -> by congruence.
        split; [done|].
        split; [apply list_lookup_insert_eq; eapply lookup_lt_Some; eauto|].
        split; [done|]. exists nv. split; [done|]. split; done.
      * left. now rewrite list_lookup_insert_ne.
Qed.

End TrafficFacts.

(** * The invariants hold in every state the program reaches *)

Section Reachable.
Context {SC : Scalar} {PF : PathFinder}.
Implicit Types (g : NavGraph) (r : Robot.t) (fm : FleetManager.t).

(** The robot invariant only looks at the number of vertices of the store:
    the calls of other robots cannot break it. *)
Lemma robot_inv_store r g g' :
  length (vertices g') = length (vertices g) ->
  robot_inv r g -> robot_inv r g'.
Proof.
  intros Hlen [Hhop Hmove]. split; [exact Hhop|].
  intros Hs. destruct (Hmove Hs) as (nv & Hnv & Hvalid).
  exists nv. split; [done|]. unfold valid_index in *. now rewrite Hlen.
Qed.

Lemma init_robot_inv robot_id start_vertex g robot_color now r g' :
  Robot.init robot_id start_vertex g robot_color now = Ok (r, g') ->
  robot_inv r g'
  /\ lanes g' = lanes g
  /\ length (vertices g') = length (vertices g).
Proof.
  unfold Robot.init. intros H.
  destruct (get_scaled_position g start_vertex) as [pos|];
    cbn [mbind result_bind mret result_ret] in H; [|discriminate].
  destruct (reserve_vertex start_vertex robot_id g) as [[ok g1]|] eqn:Hres;
    cbn [mbind result_bind mret result_ret] in H; [|discriminate].
  injection H as <- <-. apply reserve_vertex_Ok in Hres as [Hl Hv].
  split; [|done]. split; simpl; [intros [?|?]|]; discriminate.
Qed.

Lemma assign_task_robot_inv destination_vertex r g ok r' :
  Robot.assign_task destination_vertex r g = Ok (ok, r') ->
  robot_inv r g -> robot_inv r' g.
Proof.
  unfold Robot.assign_task. intros H Hinv.
  destruct (_ && _); [injection H as <- <-; done|].
  destruct (get_shortest_path g (Robot.current_vertex r) destination_vertex)
    as [[p|]|]; cbn [mbind result_bind mret result_ret] in H;
    [| injection H as <- <-; done | discriminate].
  injection H as <- <-.
  split; simpl; [intros [?|?]|]; discriminate.
Qed.

(** A dictionary stays one under [d[k] = v]. *)
Lemma dict_set_keys {V : Type} (d : list (Z * V)) (k : Z) (v : V) :
  map fst (dict_set d k v)
  = if existsb (Z.eqb k) (map fst d) then map fst d else map fst d ++ [k].
Proof.
  induction d as [|[k' v'] rest IH]; simpl; [done|].
  rewrite (Z.eqb_sym k k').
  destruct (k' =? k) eqn:E; simpl.
  - apply Z.eqb_eq in E as ->. done.
  - rewrite IH. now destruct (existsb (Z.eqb k) (map fst rest)).
Qed.

Lemma dict_set_wf {V : Type} (d : list (Z * V)) (k : Z) (v : V) :
  dict_wf d -> dict_wf (dict_set d k v).
Proof.
  unfold dict_wf. intros Hnd. rewrite dict_set_keys.
  destruct (existsb (Z.eqb k) (map fst d)) eqn:E; [done|].
  apply NoDup_app. split; [done|]. split; [|apply NoDup_singleton].
  intros x Hx Hk. apply list_elem_of_singleton in Hk as ->.
  apply not_true_iff_false in E. apply E.
  apply existsb_exists. exists k. split; [|apply Z.eqb_refl].
  now apply list_elem_of_In.
Qed.

(** Spawning keeps the lanes as they are and the registry a dictionary. *)
Lemma spawn_robot_preserves vertex_id now fm g o fm' g' :
  FleetManager.spawn_robot vertex_id now fm g = Ok (o, fm', g') ->
  lanes g' = lanes g
  /\ length (vertices g') = length (vertices g)
  /\ (dict_wf (FleetManager.robots fm) -> dict_wf (FleetManager.robots fm')).
Proof.
  unfold FleetManager.spawn_robot. intros H.
  destruct (py_getitem (vertices g) vertex_id) as [vertex|];
    cbn [mbind result_bind mret result_ret] in H; [|discriminate].
  destruct (v_occupying_robot vertex); [injection H as <- <- <-; done|].
  destruct (py_getitem FleetManager.robot_colors _) as [c|];
    cbn [mbind result_bind mret result_ret] in H; [|discriminate].
  destruct (Robot.init _ _ _ _ _) as [[robot g1]|] eqn:Hinit;
    cbn [mbind result_bind mret result_ret] in H; [|discriminate].
  injection H as <- <- <-.
  apply init_robot_inv in Hinit as (_ & Hl & Hv).
  split; [done|]. split; [done|]. simpl. apply dict_set_wf.
Qed.

Lemma assign_navigation_task_preserves destination_vertex fm g ok fm' :
  FleetManager.assign_navigation_task destination_vertex fm g = Ok (ok, fm') ->
  dict_wf (FleetManager.robots fm) -> dict_wf (FleetManager.robots fm').
Proof.
  unfold FleetManager.assign_navigation_task. intros H Hwf.
  destruct (FleetManager.selected_robot fm) as [sel|];
    [|injection H as <- <-; done].
  destruct (existsb _ _); [|injection H as <- <-; done].
  destruct (dict_get (FleetManager.robots fm) sel) as [robot|];
    cbn [mbind result_bind mret result_ret] in H; [|discriminate].
  destruct (Robot.assign_task destination_vertex robot g) as [[success r']|];
    cbn [mbind result_bind mret result_ret] in H; [|discriminate].
  injection H as <- <-. simpl. now apply dict_set_wf.
Qed.

(** A tick of the fleet keeps the lane invariant and the registry a
    dictionary. *)
Lemma fleet_update_preserves delta_time fm g fm' g' :
  FleetManager.update delta_time fm g = Ok (fm', g') ->
  (lanes_inv (lanes g) -> lanes_inv (lanes g'))
  /\ (dict_wf (FleetManager.robots fm) -> dict_wf (FleetManager.robots fm')).
Proof.
  unfold FleetManager.update. intros H.
  destruct (FleetManager.update_robots delta_time (FleetManager.robots fm) g)
    as [[rs g1]|] eqn:Hrs;
    cbn [mbind result_bind mret result_ret] in H; [|discriminate].
  injection H as <- <-.
  apply update_robots_preserves in Hrs as (Hl & _ & Hk).
  split; [done|]. unfold dict_wf. simpl. now rewrite Hk.
Qed.

End Reachable.

(** * The scenarios *)

Section Scenarios.
Import Scenario.

Lemma line_lanes_inv : lanes_inv (lanes Line.store).
Proof. apply lanes_inv_fresh. repeat constructor. Qed.

Lemma blocked_lanes_inv : lanes_inv (lanes (store_of blocked)).
Proof.
  simpl. repeat split; repeat constructor; discriminate.
Qed.

(** C4 on the empty line: vertex 1 is free, robot 7 gets it. *)
Lemma reserve_vertex_on_line :
  exists g',
    reserve_vertex 1 7 Line.store = Ok (true, g')
    /\ v_occupying_robot <$> vertices g' !! 1%nat = Some (Some 7).
Proof.
  destruct (reserve_vertex_spec Line.store 1 7)
    as (vertex & ok & g' & Hv & Hres & Hiff & Htrue & _).
  { simpl. lia. }
  injection Hv as <-.
  assert (ok = true) as -> by (now apply Hiff).
  exists g'. split; [exact Hres|].
  destruct (Htrue eq_refl) as (Hocc & _).
  change (Z.to_nat 1) with 1%nat in Hocc. now rewrite Hocc.
Defined.

(** C3 with a neighbour: vertex 1 is occupied by robot 1, and robot 0
    reserves the lane to it all the same. *)
Lemma reserve_lane_to_occupied_vertex :
  v_occupying_robot <$> vertices (store_of neighbours) !! 1%nat
  = Some (Some 1)
  /\ l_occupying_robot <$> lanes (store_of neighbours) !! 0%nat
     = Some None
  /\ exists g',
       reserve_lane 0 1 0 (store_of neighbours) = (true, g')
       /\ l_occupying_robot <$> lanes g' !! 0%nat = Some (Some 0)
       /\ vertices g' = vertices (store_of neighbours).
Proof.
  split; [reflexivity|]. split; [reflexivity|].
  destruct (reserve_lane_spec (store_of neighbours) 0 1 0)
    as (Hiff & _ & Hwritten & _).
  assert (fst (reserve_lane 0 1 0 (store_of neighbours)) = true) as Hok.
  { apply Hiff. eexists 0%nat, _.
    split; [apply (first_lane_head 0 1); reflexivity|]. split; reflexivity. }
  destruct (reserve_lane 0 1 0 (store_of neighbours)) as [ok g'] eqn:Hres.
  simpl in Hok. subst ok. exists g'. split; [reflexivity|].
  destruct (Hwritten g' eq_refl)
    as (i & lane & lane' & Hf & Hi & Hocc & _ & _ & _ & _ & _ & Hrest).
  assert (first_lane 0 1 (lanes (store_of neighbours)) 0
            (new_lane (SC := float_scalar) 0 1 0%float)) as Hhead
    by (apply (first_lane_head 0 1); reflexivity).
  destruct (first_lane_unique _ _ _ _ _ _ _ Hhead Hf) as [<- _].
  rewrite Hi. simpl. rewrite Hocc. split; [reflexivity|].
  exact (f_equal vertices Hrest).
Defined.


(** C10 after the spawn: robot 0 holds vertex 0 and asks for it again. *)
Lemma reserve_vertex_again :
  reserve_vertex 0 0 (store_of spawned) = Ok (false, store_of spawned).
Proof.
  assert (0 <= 0 < Z.of_nat (length (vertices (store_of spawned)))) as Hin
    by (simpl; lia).
  destruct (reserve_vertex_not_idempotent (store_of spawned) 0 0 _ Hin eq_refl)
    as [Hown _].
  exact (Hown eq_refl).
Defined.

(** C6 on the empty line: the first robot gets id 0 and vertex 0. *)
Lemma spawn_on_line :
  exists fm g',
    FleetManager.spawn_robot 0 0%float FleetManager.init Line.store
    = Ok (Some 0, fm, g')
    /\ FleetManager.next_robot_id fm = 1
    /\ v_occupying_robot <$> vertices g' !! 0%nat = Some (Some 0).
Proof.
  destruct (spawn_robot_spec (SC := float_scalar) 0 0%float
              FleetManager.init Line.store)
    as (vertex & Hv & _ & _ & Hfree).
  { simpl. lia. }
  injection Hv as <-.
  destruct (Hfree (100%float, 150%float) eq_refl eq_refl)
    as (robot & g' & Hspawn & _ & _ & _ & _ & _ & _ & _ & Hocc & _).
  eexists _, g'. split; [exact Hspawn|]. split; [reflexivity|].
  change (Z.to_nat 0) with 0%nat in Hocc. exact Hocc.
Defined.

(** C6, the claim as stated fails: vertex 0 of the wide graph is in the
    store and free, and [spawn_robot] raises [ValueError] instead of
    returning an id, because the scaled x coordinate is not a number. *)
Lemma spawn_on_wide_graph_raises :
  0 <= 0 < Z.of_nat (length (vertices Wide.store))
  /\ v_occupying_robot <$> vertices Wide.store !! 0%nat = Some None
  /\ FleetManager.spawn_robot 0 0%float FleetManager.init Wide.store
     = Raise ValueError.
Proof.
  split; [simpl; lia|]. split; reflexivity.
Qed.

(** The line store is the store loading leaves for the line. *)
Lemma line_store_loaded :
  loaded Line.line_vertices Line.line_lanes = Line.store.
Proof. reflexivity. Qed.

(** C2 after the departure: robot 0 is 150 pixels from vertex 1 and moves
    two of them. *)
Lemma moving_robot_steps :
  exists r,
    robot_of 0 departed = Ok r
    /\ Robot.update frame r (store_of departed)
       = Ok (Robot.set_position (102%float, 150%float) r,
             store_of departed, quiet_status r).
Proof.
  eexists. split; [reflexivity|].
  lazymatch goal with
  | |- Robot.update _ ?r _ = _ =>
      refine (proj1 (proj2 (moving_update_spec (SC := float_scalar) frame r
                              (store_of departed) 1 eq_refl eq_refl _)
                       eq_refl))
  end.
  unfold valid_index. simpl. lia.
Defined.

(** C9 at the charger: the robot spawned there charges for good. *)
Lemma charging_robot_stays :
  exists r,
    robot_of 0 at_charger = Ok r
    /\ Robot.state r = Robot.CHARGING
    /\ run_calls [call_update frame; call_assign_task 0; call_update frame]
         r (store_of at_charger)
       = Ok (r, store_of at_charger).
Proof.
  eexists. split; [reflexivity|]. split; [reflexivity|].
  lazymatch goal with
  | |- run_calls ?cs ?r _ = _ =>
      exact (proj2 (proj2 (charging_without_path_is_stuck r
                             (store_of at_charger) eq_refl
                             (or_introl eq_refl))) cs)
  end.
Defined.

(** C1 on the blocked line: robot 1 is the first to wait, lane 0-1 is held
    by robot 0 and is taken from it. *)
Lemma deadlock_resolved :
  exists lane,
    lanes (store_of blocked) !! 0%nat = Some lane
    /\ l_occupying_robot lane = Some 0
    /\ TrafficManager.resolve_deadlocks (fleet_of blocked) (store_of blocked)
       = Ok (1,
             set_lanes
               (<[0%nat := lane_set_occupying_robot None lane]>
                  (lanes (store_of blocked)))
               (store_of blocked)).
Proof.
  eexists. split; [reflexivity|]. split; [reflexivity|].
  assert (dict_wf (FleetManager.robots (fleet_of blocked))) as Hwf.
  { unfold dict_wf. simpl. apply NoDup_cons. split; [|apply NoDup_singleton].
    rewrite list_elem_of_singleton. discriminate. }
  destruct (resolve_deadlocks_spec (fleet_of blocked) (store_of blocked)
              Hwf blocked_lanes_inv) as (_ & _ & Hfirst).
  eapply (Hfirst 1).
  - eexists [_], []. split; [reflexivity|].
    split; [repeat constructor; discriminate | reflexivity].
  - reflexivity.
  - apply (first_lane_head 0 1). reflexivity.
  - reflexivity.
Defined.

(** The lane invariant in C1 is not decoration: on a list that holds the
    lane 0-1 twice, both entries occupied (a state no run produces, see
    [reserve_lane_loop_inv]), the loop without [break] clears both and
    counts two. *)
Example clear_lanes_counts_duplicates :
  snd (TrafficManager.clear_lanes 0 1
         [ lane_set_occupying_robot (Some 0) (new_lane 0 1 0%float);
           lane_set_occupying_robot (Some 1) (new_lane 0 1 0%float) ])
  = 2.
Proof. reflexivity. Qed.

(** C5, the claim as stated fails: robot 0 stands idle at vertex 0 and is
    given vertex 0 as destination. The task is accepted with the path [0],
    and the following [update] leaves the robot [IDLE], not [COMPLETED]. *)
Lemma same_vertex_task_is_not_completed :
  exists r r1 u,
    robot_of 0 spawned = Ok r
    /\ Robot.state r = Robot.IDLE
    /\ Robot.assign_task (Robot.current_vertex r) r (store_of spawned)
       = Ok (true, r1)
    /\ Robot.path r1 = [Robot.current_vertex r]
    /\ Robot.update frame r1 (store_of spawned)
       = Ok (r1, store_of spawned, u)
    /\ Robot.state r1 = Robot.IDLE
    /\ Robot.state r1 <> Robot.COMPLETED.
Proof.
  eexists _, _, _. split; [reflexivity|]. split; [reflexivity|].
  split; [reflexivity|]. split; [reflexivity|].
  split; [reflexivity|]. split; [reflexivity | discriminate].
Qed.

(** C5, as the code has it, on the same robot: two ticks later it is
    still idle. *)
Lemma same_vertex_task_stays_idle :
  exists r r1 r2,
    robot_of 0 spawned = Ok r
    /\ Robot.assign_task (Robot.current_vertex r) r (store_of spawned)
       = Ok (true, r1)
    /\ run_calls [call_update frame; call_update frame] r1 (store_of spawned)
       = Ok (r2, store_of spawned)
    /\ Robot.state r2 = Robot.IDLE.
Proof.
  lazymatch eval hnf in (robot_of 0 spawned) with
  | Ok ?r =>
      destruct (assign_task_same_vertex r (store_of spawned)
                  (or_introl eq_refl) eq_refl)
        as (r1 & Hassign & _ & _ & _ & _ & Hvalid & _);
      destruct (Hvalid _ eq_refl) as [_ Hruns];
      destruct (Hruns frame [frame]) as (r2 & Hrun & Hstate);
      exists r, r1, r2
  end.
  split; [reflexivity|]. split; [exact Hassign|].
  split; [exact Hrun | exact Hstate].
Defined.

End Scenarios.

(** * How the store operations compose *)

Section StoreComposition.
Context {SC : Scalar}.
Implicit Types (g : NavGraph) (ls : list Lane) (lane : Lane).

Lemma py_update_getitem {A : Type} (l l' : list A) (i : Z) (f : A -> A) (a : A) :
  py_getitem l i = Ok a -> py_update l i f = Ok l' ->
  py_getitem l' i = Ok (f a) /\ py_index l' i = py_index l i.
Proof.
  unfold py_getitem, py_update.
  destruct (py_index l i) as [k|] eqn:Hk; [|discriminate].
  destruct (l !! k) as [a'|] eqn:Hlk; [|discriminate].
  intros [= ->] [= <-].
  assert (py_index (<[k := f a]> l) i = Some k) as Hk'.
  { unfold py_index in *. now rewrite length_insert. }
  rewrite Hk'. split; [|done].
  rewrite list_lookup_insert_eq; [done|]. eapply lookup_lt_Some; eauto.
Qed.

Lemma reserve_lane_loop_twice f t a b ls :
  reserve_lane_loop f t b (snd (reserve_lane_loop f t a ls))
  = (false, snd (reserve_lane_loop f t a ls)).
Proof.
  induction ls as [|lane rest IH]; simpl; [done|].
  destruct (lane_matches f t lane) eqn:Hm.
  - destruct (l_occupying_robot lane) eqn:Hocc; simpl.
    + now rewrite Hm, Hocc.
    + destruct (l_is_blocked lane) eqn:Hb; simpl.
      * now rewrite Hm, Hocc, Hb.
      * unfold lane_matches in *. simpl. now rewrite Hm.
  - destruct (reserve_lane_loop f t a rest) as [ok rest'] eqn:Hrun.
    simpl in *. now rewrite Hm, IH.
Qed.

(** X1. Whatever the first attempt gave, a second [reserve_lane] on the
    same pair of vertices, by the same or by another robot, fails and
    leaves the store as the first attempt left it: of two robots asking for
    a lane one after the other, only the first can get it. *)
Theorem reserve_lane_twice (g : NavGraph) (from_vertex to_vertex a b : Z) :
  reserve_lane from_vertex to_vertex b
    (snd (reserve_lane from_vertex to_vertex a g))
  = (false, snd (reserve_lane from_vertex to_vertex a g)).
Proof.
  unfold reserve_lane.
  pose proof (reserve_lane_loop_twice from_vertex to_vertex a b (lanes g))
    as Htwice.
  destruct (reserve_lane_loop from_vertex to_vertex a (lanes g))
    as [ok ls'] eqn:Hrun.
  simpl in *. rewrite Htwice. now destruct g.
Qed.

(** X2. After a [reserve_vertex] that returned, successful or not, a
    second one on the same vertex fails and changes nothing. *)
Theorem reserve_vertex_twice (g g' : NavGraph) (vertex_id a b : Z)
    (ok : bool) :
  reserve_vertex vertex_id a g = Ok (ok, g') ->
  reserve_vertex vertex_id b g' = Ok (false, g').
Proof.
  unfold reserve_vertex.
  destruct (py_getitem (vertices g) vertex_id) as [vertex|] eqn:Hget;
    [|discriminate].
  cbn [mbind result_bind mret result_ret].
  destruct (v_occupying_robot vertex) as [o|] eqn:Hocc.
  - intros [= <- <-]. rewrite Hget. cbn [mbind result_bind]. now rewrite Hocc.
  - destruct (py_update (vertices g) vertex_id _) as [vs|] eqn:Hupd;
      [|discriminate].
    cbn [mbind result_bind mret result_ret]. intros [= <- <-]. simpl.
    destruct (py_update_getitem _ _ _ _ _ Hget Hupd) as [-> _].
    reflexivity.
Qed.

Lemma reserve_release_lane_loop f t a ls ls' :
  lanes_inv ls ->
  reserve_lane_loop f t a ls = (true, ls') ->
  release_lane_loop f t a ls' = ls.
Proof.
  revert ls'. induction ls as [|lane rest IH]; intros ls'; simpl;
    [discriminate|].
  intros [Hbehind Hinv].
  destruct (lane_matches f t lane) eqn:Hm.
  - destruct (l_occupying_robot lane) eqn:Hocc; [discriminate|].
    destruct (l_is_blocked lane); simpl; [discriminate|].
    intros [= <-]. simpl.
    change (lane_matches f t (lane_set_occupying_robot (Some a) lane))
      with (lane_matches f t lane).
    rewrite Hm. simpl.
    f_equal.
    + rewrite bool_decide_eq_true_2 by done.
      destruct lane; simpl in *. now subst.
    + apply release_lane_loop_id. intros lane' Hin Hm' Hheld.
      apply lane_matches_true in Hm as [<- <-].
      rewrite Forall_forall in Hbehind.
      specialize (Hbehind lane' Hin Hm'). congruence.
  - destruct (reserve_lane_loop f t a rest) as [ok rest'] eqn:Hrun.
    intros [= -> <-]. simpl. rewrite Hm. simpl. f_equal. now apply IH.
Qed.

(** X3. In a store the reservation operations produce, a successful
    [reserve_lane] followed by [release_lane] by the same robot gives the
    original store back. *)
Theorem reserve_release_lane (g g' : NavGraph) (from_vertex to_vertex a : Z) :
  lanes_inv (lanes g) ->
  reserve_lane from_vertex to_vertex a g = (true, g') ->
  release_lane from_vertex to_vertex a g' = g.
Proof.
  unfold reserve_lane, release_lane. intros Hinv.
  destruct (reserve_lane_loop from_vertex to_vertex a (lanes g))
    as [ok ls'] eqn:Hrun.
  intros [= -> <-]. simpl.
  rewrite (reserve_release_lane_loop _ _ _ _ _ Hinv Hrun).
  now destruct g.
Qed.

(** X4. A successful [reserve_vertex] followed by [release_vertex] by the
    same robot gives the original store back. *)
Theorem reserve_release_vertex (g g' : NavGraph) (vertex_id a : Z) :
  reserve_vertex vertex_id a g = Ok (true, g') ->
  release_vertex vertex_id a g' = Ok g.
Proof.
  unfold reserve_vertex, release_vertex.
  destruct (py_getitem (vertices g) vertex_id) as [vertex|] eqn:Hget;
    [|discriminate].
  cbn [mbind result_bind mret result_ret].
  destruct (v_occupying_robot vertex) as [o|] eqn:Hocc; [discriminate|].
  destruct (py_update (vertices g) vertex_id _) as [vs|] eqn:Hupd;
    [|discriminate].
  cbn [mbind result_bind mret result_ret]. intros [= <-]. simpl.
  destruct (py_update_getitem _ _ _ _ _ Hget Hupd) as [Hget' Hidx].
  rewrite Hget'. cbn [mbind result_bind mret result_ret]. simpl.
  rewrite decide_True by done.
  unfold py_update in *. rewrite Hidx.
  unfold py_getitem in Hget, Hget'.
  destruct (py_index (vertices g) vertex_id) as [k|]; [|discriminate].
  rewrite Hidx in Hget'.
  destruct (vertices g !! k) as [v0|] eqn:Hk; [|discriminate].
  injection Hget as ->. injection Hupd as <-.
  rewrite list_lookup_insert_eq by (eapply lookup_lt_Some; eauto).
  cbn [mbind result_bind mret result_ret].
  rewrite list_insert_insert_eq.
  replace (vertex_set_occupying_robot None
             (vertex_set_occupying_robot (Some a) vertex)) with vertex
    by (destruct vertex; simpl in *; now subst).
  rewrite list_insert_id by done. now destruct g.
Qed.

End StoreComposition.

(** * The queries of the traffic manager *)

Section TrafficQueries.
Context {SC : Scalar}.
Implicit Types (g : NavGraph) (ls : list Lane) (fm : FleetManager.t).

Lemma lane_conflict_spec robot_id f t ls :
  TrafficManager.lane_conflict robot_id f t ls = true
  <-> exists i lane o,
        first_lane f t ls i lane /\ l_occupying_robot lane = Some o
        /\ o <> robot_id.
Proof.
  induction ls as [|lane rest IH]; simpl.
  - split; [discriminate|]. intros (i & lane & o & (Hi & _) & _). discriminate.
  - destruct (lane_matches f t lane) eqn:Hm.
    + pose proof (first_lane_head f t lane rest Hm) as Hfirst.
      split.
      * destruct (l_occupying_robot lane) as [o|] eqn:Hocc; [|discriminate].
        intros Hne. exists 0%nat, lane, o. repeat split; try apply Hfirst.
        -- done.
        -- apply negb_true_iff, Z.eqb_neq in Hne. done.
      * intros (i & lane' & o & Hf & Hocc & Hne).
        destruct (first_lane_unique _ _ _ _ _ _ _ Hfirst Hf) as [_ <-].
        rewrite Hocc. now apply negb_true_iff, Z.eqb_neq.
    + rewrite IH. split.
      * intros (i & lane' & o & Hf & Hocc & Hne).
        exists (S i), lane', o. split; [|done].
        apply first_lane_tail; eauto.
      * intros (i & lane' & o & Hf & Hocc & Hne).
        apply first_lane_tail in Hf as (i' & -> & Hf); eauto 10.
Qed.

Lemma check_path_conflicts_cons robot_id f t rest g :
  TrafficManager.check_path_conflicts robot_id (f :: t :: rest) g
  = (vertex ← py_getitem (vertices g) t;
     later ← TrafficManager.check_path_conflicts robot_id (t :: rest) g;
     mret ((if TrafficManager.lane_conflict robot_id f t (lanes g)
            then [t] else [])
           ++ match v_occupying_robot vertex with
              | Some _ => [t]
              | None => []
              end ++ later)).
Proof. reflexivity. Qed.

(** X5. What [check_path_conflicts] reports. A vertex is in the list it
    returns exactly when it ends a segment of the path and either the
    vertex is occupied (by any robot, the asking one included) or the lane
    of the segment is held by a robot other than the asking one. *)
Theorem check_path_conflicts_spec (robot_id : Z) (path : list Z)
    (g : NavGraph) (conflicts : list Z) :
  TrafficManager.check_path_conflicts robot_id path g = Ok conflicts ->
  forall c,
    c ∈ conflicts
    <-> exists k from_vertex,
          path !! k = Some from_vertex /\ path !! S k = Some c
          /\ ((exists vertex,
                 py_getitem (vertices g) c = Ok vertex
                 /\ v_occupying_robot vertex <> None)
              \/ (exists i lane o,
                    first_lane from_vertex c (lanes g) i lane
                    /\ l_occupying_robot lane = Some o /\ o <> robot_id)).
Proof.
  revert conflicts. induction path as [|f rest IH]; intros conflicts.
  - intros [= <-] c. split; [intros H; inversion H|].
    intros (k & f & Hk & _). discriminate.
  - destruct rest as [|t rest'].
    + intros [= <-] c. split; [intros H; inversion H|].
      intros (k & f' & _ & Hk & _). destruct k; discriminate.
    + rewrite check_path_conflicts_cons.
      destruct (py_getitem (vertices g) t) as [vertex|] eqn:Hget;
        cbn [mbind result_bind mret result_ret]; [|discriminate].
      destruct (TrafficManager.check_path_conflicts robot_id (t :: rest') g)
        as [later|] eqn:Hlater;
        cbn [mbind result_bind mret result_ret]; [|discriminate].
      intros [= <-] c. specialize (IH later eq_refl c).
      rewrite !elem_of_app, IH. clear IH. split.
      * intros [Hlane | [Hvertex | (k & f' & Hk & Hk' & Hwhy)]].
        -- destruct (TrafficManager.lane_conflict robot_id f t (lanes g))
             eqn:Hc; [|inversion Hlane].
           apply list_elem_of_singleton in Hlane as ->.
           exists 0%nat, f. split; [done|]. split; [done|]. right.
           now apply lane_conflict_spec.
        -- destruct (v_occupying_robot vertex) eqn:Hocc; [|inversion Hvertex].
           apply list_elem_of_singleton in Hvertex as ->.
           exists 0%nat, f. split; [done|]. split; [done|]. left.
           exists vertex. split; [done|]. congruence.
        -- exists (S k), f'. auto.
      * intros (k & f' & Hk & Hk' & Hwhy). destruct k as [|k].
        -- simpl in Hk, Hk'. injection Hk as <-. injection Hk' as <-.
           destruct Hwhy as [(vertex' & Hget' & Hocc) | Hlane].
           ++ right. left. rewrite Hget in Hget'. injection Hget' as <-.
              destruct (v_occupying_robot vertex); [|done].
              now apply list_elem_of_singleton.
           ++ left. apply lane_conflict_spec in Hlane. rewrite Hlane.
              now apply list_elem_of_singleton.
        -- right. right. exists k, f'. auto.
Qed.

(** X6. [check_path_conflicts] returns, rather than raising [IndexError],
    exactly when every vertex of the path after the first is a valid
    subscript of the vertex list; a path of fewer than two vertices gives
    the empty list, and no path gives more than two entries a segment. *)
Theorem check_path_conflicts_returns (robot_id : Z) (path : list Z)
    (g : NavGraph) :
  ((exists conflicts,
      TrafficManager.check_path_conflicts robot_id path g = Ok conflicts)
   <-> Forall (valid_index (vertices g)) (tail path))
  /\ (forall conflicts,
        TrafficManager.check_path_conflicts robot_id path g = Ok conflicts ->
        (length conflicts <= 2 * (length path - 1))%nat).
Proof.
  induction path as [|f rest IH].
  - split; [|intros conflicts [= <-]; simpl; lia].
    split; [constructor | eauto].
  - destruct rest as [|t rest'].
    + split; [|intros conflicts [= <-]; simpl; lia].
      split; [constructor | eauto].
    + destruct IH as [IHret IHlen].
      rewrite check_path_conflicts_cons. cbn [tail] in *.
      destruct (py_getitem (vertices g) t) as [vertex|] eqn:Hget;
        cbn [mbind result_bind mret result_ret].
      * destruct (TrafficManager.check_path_conflicts robot_id (t :: rest') g)
          as [later|] eqn:Hlater;
          cbn [mbind result_bind mret result_ret].
        -- split.
           ++ split; [intros _ | eauto].
              constructor; [eapply py_getitem_Ok_valid; eauto|].
              apply IHret. eauto.
           ++ intros conflicts [= <-]. specialize (IHlen later eq_refl).
              rewrite !length_app. simpl in *.
              destruct (TrafficManager.lane_conflict _ _ _ _);
                destruct (v_occupying_robot vertex); simpl; lia.
        -- split; [|discriminate].
           split; [intros [? [=]]|].
           intros Hall. apply Forall_cons in Hall as [_ Hall].
           apply IHret in Hall as [? [=]].
      * split; [|discriminate].
        split; [intros [? [=]]|].
        intros Hall. apply Forall_cons in Hall as [Hv _].
        apply py_getitem_valid in Hv as [? Hv]. congruence.
Qed.

Lemma dict_get_registered {V : Type} (d : list (Z * V)) (k : Z) :
  if existsb (fun kv => fst kv =? k) d
  then exists v, dict_get d k = Ok v
  else dict_get d k = Raise KeyError.
Proof.
  induction d as [|[k' v'] rest IH]; simpl; [done|].
  destruct (k' =? k); simpl; eauto.
Qed.

Lemma lane_status_loop_spec fm f t ls :
  (TrafficManager.lane_status_loop fm f t ls = Ok None
   /\ Forall (fun lane => lane_matches f t lane = false) ls)
  \/ (exists i lane,
        first_lane f t ls i lane
        /\ TrafficManager.lane_status_loop fm f t ls
           = Ok (Some {| TrafficManager.ls_from_vertex := f;
                         TrafficManager.ls_to_vertex := t;
                         TrafficManager.ls_is_blocked := l_is_blocked lane;
                         TrafficManager.ls_occupying_robot :=
                           l_occupying_robot lane;
                         TrafficManager.ls_robot_info :=
                           robot_info_of fm (l_occupying_robot lane) |})).
Proof.
  induction ls as [|lane rest IH]; simpl; [left; split; [done | constructor]|].
  destruct (lane_matches f t lane) eqn:Hm.
  - right. exists 0%nat, lane. split; [now apply first_lane_head|].
    unfold robot_info_of. destruct (l_occupying_robot lane) as [o|]; [|done].
    pose proof (dict_get_registered (FleetManager.robots fm) o) as Hreg.
    destruct (existsb _ _).
    + destruct Hreg as [robot ->]. reflexivity.
    + now rewrite Hreg.
  - destruct IH as [[-> Hnone] | (i & lane' & Hf & ->)].
    + left. split; [done|]. now constructor.
    + right. exists (S i), lane'. split; [|done].
      apply first_lane_tail; eauto.
Qed.

(** X7. [get_lane_status] never raises. It returns [None] exactly when no
    lane goes from [from_vertex] to [to_vertex]; otherwise it reports the
    occupant and the block flag of the first such lane, with the id and
    state of the occupant when that robot is registered. [reserve_lane]
    succeeds exactly when the status shows a lane that is neither occupied
    nor blocked. *)
Theorem get_lane_status_spec (fm : FleetManager.t) (g : NavGraph)
    (from_vertex to_vertex : Z) :
  exists status,
    TrafficManager.get_lane_status fm g from_vertex to_vertex = Ok status
    /\ (status = None
        <-> Forall (fun lane => lane_matches from_vertex to_vertex lane = false)
              (lanes g))
    /\ (forall s, status = Some s ->
        exists i lane,
          first_lane from_vertex to_vertex (lanes g) i lane
          /\ s = {| TrafficManager.ls_from_vertex := from_vertex;
                    TrafficManager.ls_to_vertex := to_vertex;
                    TrafficManager.ls_is_blocked := l_is_blocked lane;
                    TrafficManager.ls_occupying_robot :=
                      l_occupying_robot lane;
                    TrafficManager.ls_robot_info :=
                      robot_info_of fm (l_occupying_robot lane) |})
    /\ (forall a,
          fst (reserve_lane from_vertex to_vertex a g) = true
          <-> exists s,
                status = Some s
                /\ TrafficManager.ls_occupying_robot s = None
                /\ TrafficManager.ls_is_blocked s = false).
Proof.
  unfold TrafficManager.get_lane_status.
  assert (forall a,
            fst (reserve_lane from_vertex to_vertex a g) = true
            <-> exists i lane,
                  first_lane from_vertex to_vertex (lanes g) i lane
                  /\ l_occupying_robot lane = None
                  /\ l_is_blocked lane = false) as Hres.
  { intros a. unfold reserve_lane.
    pose proof (reserve_lane_loop_spec from_vertex to_vertex a (lanes g))
      as Hloop.
    destruct (reserve_lane_loop from_vertex to_vertex a (lanes g))
      as [[] ls']; simpl.
    - destruct Hloop as (i & lane & Hf & Hocc & Hb & _). split; eauto.
    - destruct Hloop as [_ Hnone]. split; [discriminate|].
      intros (i & lane & Hf & Hocc & Hb).
      destruct (Hnone _ _ Hf); congruence. }
  destruct (lane_status_loop_spec fm from_vertex to_vertex (lanes g))
    as [[-> Hnone] | (i & lane & Hf & ->)].
  - exists None. split; [done|]. split; [done|]. split; [discriminate|].
    intros a. rewrite Hres. split.
    + intros (j & lane & (Hj & Hm & _) & _).
      rewrite Forall_lookup in Hnone. rewrite (Hnone _ _ Hj) in Hm.
      discriminate.
    + intros (s & [=] & _).
  - eexists. split; [reflexivity|]. split; [|split].
    + split; [discriminate|]. intros Hnone.
      destruct Hf as (Hi & Hm & _).
      rewrite Forall_lookup in Hnone. rewrite (Hnone _ _ Hi) in Hm.
      discriminate.
    + intros s [= <-]. eauto.
    + intros a. rewrite Hres. split.
      * intros (j & lane' & Hf' & Hocc & Hb).
        destruct (first_lane_unique _ _ _ _ _ _ _ Hf Hf') as [_ <-].
        eexists. split; [reflexivity|]. simpl. done.
      * intros (s & [= <-] & Hocc & Hb). simpl in *. eauto.
Qed.

Lemma reserved_lane_status fm f t a ls ls' :
  reserve_lane_loop f t a ls = (true, ls') ->
  TrafficManager.lane_status_loop fm f t ls'
  = Ok (Some {| TrafficManager.ls_from_vertex := f;
                TrafficManager.ls_to_vertex := t;
                TrafficManager.ls_is_blocked := false;
                TrafficManager.ls_occupying_robot := Some a;
                TrafficManager.ls_robot_info := robot_info_of fm (Some a) |}).
Proof.
  revert ls'. induction ls as [|lane rest IH]; intros ls'; simpl;
    [discriminate|].
  destruct (lane_matches f t lane) eqn:Hm.
  - destruct (l_occupying_robot lane); [discriminate|].
    destruct (l_is_blocked lane) eqn:Hb; simpl; [discriminate|].
    intros [= <-].
    destruct (lane_status_loop_spec fm f t
                (lane_set_occupying_robot (Some a) lane :: rest))
      as [[_ Hnone] | (i & lane' & Hf & ->)].
    + apply Forall_cons in Hnone as [Hnone _].
      change (lane_matches f t lane = false) in Hnone. congruence.
    + assert (first_lane f t (lane_set_occupying_robot (Some a) lane :: rest)
                0 (lane_set_occupying_robot (Some a) lane)) as Hhead
        by (now apply first_lane_head).
      destruct (first_lane_unique _ _ _ _ _ _ _ Hhead Hf) as [_ <-].
      simpl. now rewrite Hb.
  - destruct (reserve_lane_loop f t a rest) as [ok rest'] eqn:Hrun.
    intros [= -> <-]. simpl. rewrite Hm. now apply IH.
Qed.

(** X8. After a successful [reserve_lane] by robot [a], [get_lane_status]
    on the same pair shows the lane unblocked and occupied by [a], with
    [a]'s id and state when [a] is registered. *)
Theorem reserve_lane_then_status (fm : FleetManager.t) (g g' : NavGraph)
    (from_vertex to_vertex a : Z) :
  reserve_lane from_vertex to_vertex a g = (true, g') ->
  TrafficManager.get_lane_status fm g' from_vertex to_vertex
  = Ok (Some {| TrafficManager.ls_from_vertex := from_vertex;
                TrafficManager.ls_to_vertex := to_vertex;
                TrafficManager.ls_is_blocked := false;
                TrafficManager.ls_occupying_robot := Some a;
                TrafficManager.ls_robot_info := robot_info_of fm (Some a) |}).
Proof.
  unfold reserve_lane, TrafficManager.get_lane_status.
  destruct (reserve_lane_loop from_vertex to_vertex a (lanes g))
    as [ok ls'] eqn:Hrun.
  intros [= -> <-]. simpl. eapply reserved_lane_status; eauto.
Qed.

End TrafficQueries.

(** * One tick of a robot *)

Section RobotTick.
Context {SC : Scalar} {PF : PathFinder}.
Implicit Types (g : NavGraph) (r : Robot.t).

Lemma py_update_Ok {A : Type} (l l' : list A) (i : Z) (f : A -> A) :
  py_update l i f = Ok l' ->
  exists k a, l !! k = Some a /\ py_getitem l i = Ok a /\ l' = <[k := f a]> l.
Proof.
  unfold py_update, py_getitem.
  destruct (py_index l i) as [k|]; [|discriminate].
  destruct (l !! k) as [a|] eqn:Hk; [|discriminate].
  intros [= <-]. eauto.
Qed.

(** The scaled position of a vertex does not depend on who occupies
    what. *)
Lemma get_scaled_position_release vertex_id a g g' w :
  release_vertex vertex_id a g = Ok g' ->
  get_scaled_position g' w = get_scaled_position g w.
Proof.
  unfold release_vertex.
  destruct (py_getitem (vertices g) vertex_id) as [vertex|] eqn:Hget;
    [|discriminate].
  cbn [mbind result_bind mret result_ret].
  destruct (decide _); [|now intros [= <-]].
  destruct (py_update _ _ _) as [vs|] eqn:Hupd; [|discriminate].
  cbn [mbind result_bind mret result_ret]. intros [= <-].
  apply py_update_Ok in Hupd as (k & v0 & Hk & _ & ->).
  unfold get_scaled_position, py_getitem, py_index. simpl.
  rewrite length_insert.
  destruct (if (0 <=? w) && (w <? Z.of_nat (length (vertices g)))
            then Some (Z.to_nat w)
            else if (- Z.of_nat (length (vertices g)) <=? w) && (w <? 0)
                 then Some (Z.to_nat (Z.of_nat (length (vertices g)) + w))
                 else None) as [j|]; [|done].
  destruct (decide (k = j)) as [<-|Hne].
  - rewrite list_lookup_insert_eq by (eapply lookup_lt_Some; eauto).
    now rewrite Hk.
  - now rewrite list_lookup_insert_ne.
Qed.

Lemma get_scaled_position_reserve_lane from_vertex to_vertex a g w :
  get_scaled_position (snd (reserve_lane from_vertex to_vertex a g)) w
  = get_scaled_position g w.
Proof.
  unfold reserve_lane.
  now destruct (reserve_lane_loop from_vertex to_vertex a (lanes g)).
Qed.

(** The tick of a robot that is ready to leave and has a hop ahead. *)
Lemma update_attempt delta_time r g next_vertex :
  ready_to_leave r g ->
  Robot.path r !! S (Robot.current_path_index r) = Some next_vertex ->
  Robot.update delta_time r g
  = (let '(ok, g1) :=
       reserve_lane (Robot.current_vertex r) next_vertex (Robot.id r) g in
     if ok then
       '(r', g2) ← Robot.start_moving next_vertex r g1;
       mret (r', g2,
             Robot.report Robot.MOVING (Robot.moving_to next_vertex)
               (quiet_status r))
     else if decide (Robot.state r = Robot.WAITING) then
       mret (r, g1, quiet_status r)
     else
       mret (Robot.set_state Robot.WAITING r, g1,
             Robot.report Robot.WAITING
               (Robot.waiting_for_lane_to next_vertex) (quiet_status r))).
Proof.
  intros Hready Hnext.
  assert (Robot.has_next_hop r = true) as Hhop
    by (apply has_next_hop_lt; eapply lookup_lt_Some; eauto).
  destruct (has_next_hop_getitem r Hhop) as (nv & Hnv & Hget).
  assert (nv = next_vertex) as -> by congruence.
  unfold Robot.update, quiet_status.
  destruct Hready as [Hs | [Hs | (Hs & vertex & Hv & Hc)]].
  - destruct (decide (Robot.state r = Robot.IDLE)); [congruence|].
    cbn [mbind result_bind mret result_ret].
    rewrite Hhop, Hs, Hget. cbn [mbind result_bind mret result_ret].
    destruct (reserve_lane _ _ _ _) as [[] g1]; reflexivity.
  - destruct (decide (Robot.state r = Robot.IDLE)); [congruence|].
    cbn [mbind result_bind mret result_ret].
    rewrite Hhop, Hs, Hget. cbn [mbind result_bind mret result_ret].
    destruct (reserve_lane _ _ _ _) as [[] g1]; reflexivity.
  - destruct (decide (Robot.state r = Robot.IDLE)); [|congruence].
    rewrite Hv. cbn [mbind result_bind mret result_ret].
    rewrite Hc, Hhop, Hs, Hget. cbn [mbind result_bind mret result_ret].
    destruct (reserve_lane _ _ _ _) as [[] g1]; reflexivity.
Qed.

(** A reservation attempt on a free, unblocked lane goes through when the
    vertex left is a valid one and the scaled position of the next one can
    be computed. *)
Lemma attempt_succeeds r g next_vertex i lane target
    (status : Robot.StatusUpdate) :
  first_lane (Robot.current_vertex r) next_vertex (lanes g) i lane ->
  l_occupying_robot lane = None ->
  l_is_blocked lane = false ->
  valid_index (vertices g) (Robot.current_vertex r) ->
  get_scaled_position g next_vertex = Ok target ->
  exists g',
    release_vertex (Robot.current_vertex r) (Robot.id r)
         (set_lanes
            (<[i := lane_set_occupying_robot (Some (Robot.id r)) lane]>
               (lanes g)) g)
       = Ok g'
    /\ reserve_lane (Robot.current_vertex r) next_vertex (Robot.id r) g
       = (true,
          set_lanes
            (<[i := lane_set_occupying_robot (Some (Robot.id r)) lane]>
               (lanes g)) g)
    /\ Robot.start_moving next_vertex r
         (set_lanes
            (<[i := lane_set_occupying_robot (Some (Robot.id r)) lane]>
               (lanes g)) g)
       = Ok (Robot.set_target_position target
               (Robot.set_state Robot.MOVING r), g').
Proof.
  intros Hf Hocc Hb Hcv Htarget.
  unfold reserve_lane.
  pose proof (reserve_lane_loop_spec (Robot.current_vertex r) next_vertex
                (Robot.id r) (lanes g)) as Hloop.
  destruct (reserve_lane_loop _ _ _ _) as [[] ls'].
  2: { destruct Hloop as [_ Hnone]. destruct (Hnone _ _ Hf); congruence. }
  destruct Hloop as (j & lane' & Hf' & _ & _ & ->).
  destruct (first_lane_unique _ _ _ _ _ _ _ Hf Hf') as [<- <-].
  set (g1 := set_lanes _ g).
  destruct (release_vertex_valid g1 (Robot.current_vertex r) (Robot.id r))
    as [g2 Hrel]; [exact Hcv|].
  exists g2. split; [done|]. split; [done|].
  unfold Robot.start_moving. rewrite Hrel.
  cbn [mbind result_bind mret result_ret].
  rewrite (get_scaled_position_release _ _ _ _ _ Hrel).
  change (get_scaled_position g1 next_vertex)
    with (get_scaled_position g next_vertex).
  rewrite Htarget. reflexivity.
Qed.

(** X9. A robot ready to leave whose next lane is free and unblocked
    departs on its next [update], provided the scaled position of the next
    vertex can be computed: the lane is reserved for it, the lane entry now
    names it as occupant, its own reservation of the vertex it leaves is
    released, its target becomes that scaled position, and it is [MOVING].
    When [get_scaled_position] raises instead, on a coordinate that is not
    finite, so does [update]. *)
Theorem update_departs (delta_time : num) (r : Robot.t) (g : NavGraph)
    (next_vertex : Z) (i : nat) (lane : Lane) :
  ready_to_leave r g ->
  Robot.path r !! S (Robot.current_path_index r) = Some next_vertex ->
  first_lane (Robot.current_vertex r) next_vertex (lanes g) i lane ->
  l_occupying_robot lane = None ->
  l_is_blocked lane = false ->
  valid_index (vertices g) (Robot.current_vertex r) ->
  (forall target,
     get_scaled_position g next_vertex = Ok target ->
     exists g',
       release_vertex (Robot.current_vertex r) (Robot.id r)
         (set_lanes
            (<[i := lane_set_occupying_robot (Some (Robot.id r)) lane]>
               (lanes g)) g)
       = Ok g'
       /\ Robot.update delta_time r g
          = Ok (Robot.set_target_position target
                  (Robot.set_state Robot.MOVING r),
                g',
                Robot.report Robot.MOVING (Robot.moving_to next_vertex)
                  (quiet_status r))
       /\ l_occupying_robot <$> lanes g' !! i = Some (Some (Robot.id r)))
  /\ (forall e,
        get_scaled_position g next_vertex = Raise e ->
        Robot.update delta_time r g = Raise e).
Proof.
  intros Hready Hnext Hf Hocc Hb Hcv.
  rewrite (update_attempt _ _ _ _ Hready Hnext). split.
  - intros target Htarget.
    destruct (attempt_succeeds r g next_vertex i lane target (quiet_status r)
                Hf Hocc Hb Hcv Htarget)
      as (g' & Hrel & -> & Hsm).
    exists g'. split; [done|]. rewrite Hsm. split; [reflexivity|].
    rewrite (proj1 (release_vertex_Ok _ _ _ _ Hrel)). simpl.
    rewrite list_lookup_insert_eq by (eapply lookup_lt_Some; apply Hf).
    reflexivity.
  - intros e Hraise.
    unfold reserve_lane.
    pose proof (reserve_lane_loop_spec (Robot.current_vertex r) next_vertex
                  (Robot.id r) (lanes g)) as Hloop.
    destruct (reserve_lane_loop _ _ _ _) as [[] ls'].
    2: { destruct Hloop as [_ Hnone]. destruct (Hnone _ _ Hf); congruence. }
    unfold Robot.start_moving.
    destruct (release_vertex_valid (set_lanes ls' g) (Robot.current_vertex r)
                (Robot.id r)) as [g2 Hrel]; [exact Hcv|].
    rewrite Hrel. cbn [mbind result_bind mret result_ret].
    rewrite (get_scaled_position_release _ _ _ _ _ Hrel).
    change (get_scaled_position (set_lanes ls' g) next_vertex)
      with (get_scaled_position g next_vertex).
    rewrite Hraise. reflexivity.
Qed.

(** X10. A robot ready to leave whose next lane is missing, occupied or
    blocked does not move and the store is untouched: a waiting robot is
    left exactly as it was and reports no event, an idle or charging one
    becomes [WAITING]. *)
Theorem update_waits (delta_time : num) (r : Robot.t) (g : NavGraph)
    (next_vertex : Z) :
  ready_to_leave r g ->
  Robot.path r !! S (Robot.current_path_index r) = Some next_vertex ->
  (forall i lane,
     first_lane (Robot.current_vertex r) next_vertex (lanes g) i lane ->
     l_occupying_robot lane <> None \/ l_is_blocked lane = true) ->
  Robot.update delta_time r g
  = Ok (if decide (Robot.state r = Robot.WAITING)
        then (r, g, quiet_status r)
        else (Robot.set_state Robot.WAITING r, g,
              Robot.report Robot.WAITING
                (Robot.waiting_for_lane_to next_vertex) (quiet_status r))).
Proof.
  intros Hready Hnext Hbusy.
  rewrite (update_attempt _ _ _ _ Hready Hnext).
  unfold reserve_lane.
  pose proof (reserve_lane_loop_spec (Robot.current_vertex r) next_vertex
                (Robot.id r) (lanes g)) as Hloop.
  destruct (reserve_lane_loop _ _ _ _) as [[] ls'].
  - destruct Hloop as (j & lane & Hf & Hocc & Hb & _).
    destruct (Hbusy _ _ Hf); congruence.
  - destruct Hloop as [-> _]. rewrite set_lanes_same.
    now destruct (decide _).
Qed.

Lemma start_moving_robot next_vertex r g r' g' :
  Robot.start_moving next_vertex r g = Ok (r', g') ->
  release_vertex (Robot.current_vertex r) (Robot.id r) g = Ok g'
  /\ exists target,
       r' = Robot.set_target_position target (Robot.set_state Robot.MOVING r).
Proof.
  unfold Robot.start_moving.
  destruct (release_vertex _ _ _) as [g1|]; [|discriminate].
  cbn [mbind result_bind mret result_ret].
  destruct (get_scaled_position g1 next_vertex) as [target|]; [|discriminate].
  cbn [mbind result_bind mret result_ret]. intros [= <- <-]. eauto.
Qed.

Lemma update_cases delta_time r g r' g' u :
  Robot.update delta_time r g = Ok (r', g', u) -> Tick r g r' g' u.
Proof.
  unfold Robot.update. fold (quiet_status r). intros H.
  assert (forall s,
            s <> Robot.MOVING -> Robot.state r = s ->
            Robot.has_next_hop r = true ->
            (next_vertex ←
               py_getitem (Robot.path r)
                 (Z.of_nat (Robot.current_path_index r) + 1);
             let '(ok, g1) :=
               reserve_lane (Robot.current_vertex r) next_vertex
                 (Robot.id r) g in
             if ok then
               '(r2, g2) ← Robot.start_moving next_vertex r g1;
               mret (r2, g2,
                     Robot.report Robot.MOVING (Robot.moving_to next_vertex)
                       (quiet_status r))
             else
               mret (if decide (s = Robot.WAITING)
                     then (r, g1, quiet_status r)
                     else (Robot.set_state Robot.WAITING r, g1,
                           Robot.report Robot.WAITING
                             (Robot.waiting_for_lane_to next_vertex)
                             (quiet_status r))))
            = Ok (r', g', u) ->
            Tick r g r' g' u) as Hattempt.
  { intros s Hs Hst Hhop Hrun.
    destruct (has_next_hop_getitem r Hhop) as (nv & Hnv & Hget).
    rewrite Hget in Hrun. cbn [mbind result_bind mret result_ret] in Hrun.
    destruct (reserve_lane _ _ _ _) as [[] g1] eqn:Hres.
    - destruct (Robot.start_moving nv r g1) as [[r2 g2]|] eqn:Hsm;
        cbn [mbind result_bind mret result_ret] in Hrun; [|discriminate].
      injection Hrun as <- <- <-.
      apply start_moving_robot in Hsm as (Hrel & target & ->).
      eapply tick_depart; eauto. congruence.
    - apply reserve_lane_failed in Hres as ->.
      destruct (decide (s = Robot.WAITING)); injection Hrun as <- <- <-.
      + constructor.
      + apply tick_wait. congruence. }
  destruct (decide (Robot.state r = Robot.IDLE)) as [Hidle|Hnidle];
    cbn [mbind result_bind mret result_ret] in H.
  - destruct (py_getitem (vertices g) (Robot.current_vertex r)) as [vd|];
      cbn [mbind result_bind mret result_ret] in H; [|discriminate].
    destruct (v_is_charger vd).
    { injection H as <- <- <-. now constructor. }
    destruct (Robot.has_next_hop r) eqn:Hhop.
    2: { injection H as <- <- <-. constructor. }
    rewrite Hidle in H.
    apply (Hattempt Robot.IDLE); [done | done | done |].
    destruct (py_getitem (Robot.path r) _) as [nv|]; [|done].
    cbn [mbind result_bind mret result_ret] in *.
    destruct (reserve_lane _ _ _ _) as [[] g1]; [done|].
    now destruct (decide _).
  - destruct (Robot.has_next_hop r) eqn:Hhop.
    2: { injection H as <- <- <-. constructor. }
    destruct (Robot.state r) eqn:Hstate; [congruence| | | |].
    + (* MOVING *)
      destruct (num_lt _ _).
      2: { injection H as <- <- <-. now constructor. }
      destruct (py_getitem (Robot.path r)
                  (Z.of_nat (S (Robot.current_path_index r))))
        as [nv|] eqn:Hnv;
        cbn [mbind result_bind mret result_ret] in H; [|discriminate].
      destruct (py_getitem (Robot.path r)
                  (Z.of_nat (S (Robot.current_path_index r)) - 1))
        as [pv|] eqn:Hpv;
        cbn [mbind result_bind mret result_ret] in H; [|discriminate].
      destruct (reserve_vertex nv (Robot.id r)
                  (release_lane pv nv (Robot.id r) g))
        as [[ok g2]|] eqn:Hrv;
        cbn [mbind result_bind mret result_ret] in H; [|discriminate].
      destruct (has_next_hop_getitem r Hhop) as (nv' & Hlook & Hget).
      replace (Z.of_nat (Robot.current_path_index r) + 1)
        with (Z.of_nat (S (Robot.current_path_index r))) in Hget by lia.
      assert (nv' = nv) as -> by congruence.
      assert (forall s e,
                Robot.state (arrived r nv) = s ->
                Tick r g
                  (Robot.set_state s
                     (Robot.set_current_vertex nv
                        (Robot.set_current_path_index
                           (S (Robot.current_path_index r))
                           (Robot.set_position (Robot.target_position r) r))))
                  g2 (Robot.report s e (quiet_status r))) as Harr.
      { intros s e Hs.
        replace (Robot.set_state s _) with (arrived r nv)
          by (unfold arrived; rewrite <- Hs; reflexivity).
        rewrite <- Hs. eapply tick_arrive; eauto. }
      destruct (Z.of_nat (S (Robot.current_path_index r))
                =? Z.of_nat (length (Robot.path r)) - 1) eqn:Hlast;
        injection H as <- <- <-; apply Harr; unfold arrived; simpl.
      * apply Z.eqb_eq in Hlast. now rewrite bool_decide_eq_true_2 by lia.
      * apply Z.eqb_neq in Hlast. now rewrite bool_decide_eq_false_2 by lia.
    + (* WAITING *)
      apply (Hattempt Robot.WAITING); [done | done | done |].
      destruct (py_getitem (Robot.path r) _) as [nv|]; [|done].
      cbn [mbind result_bind mret result_ret] in *.
      now destruct (reserve_lane _ _ _ _) as [[] g1].
    + (* CHARGING *)
      apply (Hattempt Robot.CHARGING); [done | done | done |].
      destruct (py_getitem (Robot.path r) _) as [nv|]; [|done].
      cbn [mbind result_bind mret result_ret] in *.
      now destruct (reserve_lane _ _ _ _) as [[] g1].
    + injection H as <- <- <-. constructor.
Qed.

(** X11. What a tick never touches. A returning [update] leaves the id,
    the path, the colour, the target vertex, the speed and the creation
    time of the robot as they were: the path is not replanned under way.
    The path index stays or, for a moving robot, advances by exactly one.
    The status reports the robot's id, the vertex it stood at before the
    call and the state it is left in. *)
Theorem update_keeps_task (delta_time : num) (r r' : Robot.t)
    (g g' : NavGraph) (u : Robot.StatusUpdate) :
  Robot.update delta_time r g = Ok (r', g', u) ->
  Robot.id r' = Robot.id r
  /\ Robot.path r' = Robot.path r
  /\ Robot.color r' = Robot.color r
  /\ Robot.target_vertex r' = Robot.target_vertex r
  /\ Robot.move_speed r' = Robot.move_speed r
  /\ Robot.last_action_time r' = Robot.last_action_time r
  /\ (Robot.current_path_index r' = Robot.current_path_index r
      \/ (Robot.state r = Robot.MOVING
          /\ Robot.current_path_index r' = S (Robot.current_path_index r)
          /\ (Robot.current_path_index r' < length (Robot.path r))%nat))
  /\ Robot.su_robot_id u = Robot.id r
  /\ Robot.su_position u = Robot.current_vertex r
  /\ Robot.su_state u = Robot.state r'.
Proof.
  intros H. apply update_cases in H.
  destruct H; simpl; repeat split; auto.
  right. repeat split; auto. eapply lookup_lt_Some; eauto.
Qed.

Lemma keeps_foreign_refl a g : keeps_foreign a g g.
Proof. split; auto. Qed.

Lemma keeps_foreign_trans a g1 g2 g3 :
  keeps_foreign a g1 g2 -> keeps_foreign a g2 g3 -> keeps_foreign a g1 g3.
Proof. intros [Hv1 Hl1] [Hv2 Hl2]. split; eauto. Qed.

Lemma reserve_lane_keeps_foreign f t a b g :
  keeps_foreign a g (snd (reserve_lane f t b g)).
Proof.
  unfold reserve_lane.
  pose proof (reserve_lane_loop_spec f t b (lanes g)) as Hloop.
  destruct (reserve_lane_loop f t b (lanes g)) as [[] ls']; simpl.
  - destruct Hloop as (i & lane & (Hi & _) & Hocc & _ & ->).
    split; [auto|]. intros j lane' Hj [Hsome _]. simpl.
    rewrite list_lookup_insert_ne; [done|]. congruence.
  - destruct Hloop as [-> _]. split; auto.
Qed.

Lemma release_lane_keeps_foreign f t a g :
  keeps_foreign a g (release_lane f t a g).
Proof.
  split; [auto|]. intros i lane Hi [_ Hne]. simpl.
  rewrite (release_lane_loop_lookup _ _ _ _ _ _ Hi).
  rewrite bool_decide_eq_false_2 by done. now rewrite andb_false_r.
Qed.

Lemma reserve_vertex_keeps_foreign vertex_id a b g ok g' :
  reserve_vertex vertex_id b g = Ok (ok, g') -> keeps_foreign a g g'.
Proof.
  unfold reserve_vertex.
  destruct (py_getitem (vertices g) vertex_id) as [vertex|] eqn:Hget;
    [|discriminate].
  cbn [mbind result_bind mret result_ret].
  destruct (v_occupying_robot vertex) eqn:Hocc.
  { intros [= <- <-]. apply keeps_foreign_refl. }
  destruct (py_update _ _ _) as [vs|] eqn:Hupd; [|discriminate].
  cbn [mbind result_bind mret result_ret]. intros [= <- <-].
  apply py_update_Ok in Hupd as (k & v0 & Hk & Hget' & ->).
  assert (v0 = vertex) as -> by congruence.
  split; [|auto]. intros j v Hj [Hsome _]. simpl.
  rewrite list_lookup_insert_ne; [done|]. congruence.
Qed.

Lemma release_vertex_keeps_foreign vertex_id a g g' :
  release_vertex vertex_id a g = Ok g' -> keeps_foreign a g g'.
Proof.
  unfold release_vertex.
  destruct (py_getitem (vertices g) vertex_id) as [vertex|] eqn:Hget;
    [|discriminate].
  cbn [mbind result_bind mret result_ret].
  destruct (decide _) as [Hheld|].
  2: { intros [= <-]. apply keeps_foreign_refl. }
  destruct (py_update _ _ _) as [vs|] eqn:Hupd; [|discriminate].
  cbn [mbind result_bind mret result_ret]. intros [= <-].
  apply py_update_Ok in Hupd as (k & v0 & Hk & Hget' & ->).
  assert (v0 = vertex) as -> by congruence.
  split; [|auto]. intros j v Hj [_ Hne]. simpl.
  rewrite list_lookup_insert_ne; [done|]. congruence.
Qed.

(** X12. A tick of a robot never takes a reservation from another robot:
    every vertex and every lane held by a robot other than the one updated
    is, after [update], exactly as before. *)
Theorem update_keeps_foreign (delta_time : num) (r r' : Robot.t)
    (g g' : NavGraph) (u : Robot.StatusUpdate) :
  Robot.update delta_time r g = Ok (r', g', u) ->
  keeps_foreign (Robot.id r) g g'.
Proof.
  intros H. apply update_cases in H.
  destruct H as [ | | nv g1 g2 target _ _ Hres Hrel | | pv nv ok g2 e _ _ Hrv | ];
    try apply keeps_foreign_refl.
  - eapply keeps_foreign_trans;
      [|eapply release_vertex_keeps_foreign; eauto].
    pose proof (reserve_lane_keeps_foreign (Robot.current_vertex r) nv
                  (Robot.id r) (Robot.id r) g) as Hk.
    now rewrite Hres in Hk.
  - eapply keeps_foreign_trans;
      [apply release_lane_keeps_foreign
      |eapply reserve_vertex_keeps_foreign; eauto].
Qed.

(** X13. Charging is a one-tick pass-through. An idle robot standing on a
    charger with a hop ahead, to a vertex whose scaled position can be
    computed, turns [CHARGING] on its first tick, whatever its path, and on
    the second tick it leaves the charger state again: it is [MOVING] or,
    the lane being taken, [WAITING]. *)
Theorem charger_pass_through (d1 d2 : num) (r : Robot.t) (g : NavGraph)
    (vertex : Vertex) (next_vertex : Z) (target : num * num) :
  Robot.state r = Robot.IDLE ->
  py_getitem (vertices g) (Robot.current_vertex r) = Ok vertex ->
  v_is_charger vertex = true ->
  Robot.path r !! S (Robot.current_path_index r) = Some next_vertex ->
  get_scaled_position g next_vertex = Ok target ->
  Robot.update d1 r g
  = Ok (Robot.set_state Robot.CHARGING r, g,
        Robot.report Robot.CHARGING Robot.started_charging (quiet_status r))
  /\ exists r2 g2,
       run_calls [call_update d1; call_update d2] r g = Ok (r2, g2)
       /\ (Robot.state r2 = Robot.MOVING \/ Robot.state r2 = Robot.WAITING).
Proof.
  intros Hs Hv Hc Hnext Htarget.
  assert (Robot.update d1 r g
          = Ok (Robot.set_state Robot.CHARGING r, g,
                Robot.report Robot.CHARGING Robot.started_charging
                  (quiet_status r))) as Hfirst.
  { unfold Robot.update, quiet_status.
    destruct (decide (Robot.state r = Robot.IDLE)); [|congruence].
    rewrite Hv. cbn [mbind result_bind mret result_ret]. now rewrite Hc. }
  split; [exact Hfirst|].
  cbn [run_calls run_call]. rewrite Hfirst.
  cbn [mbind result_bind mret result_ret].
  set (r1 := Robot.set_state Robot.CHARGING r).
  rewrite (update_attempt d2 r1 g next_vertex); [|right; now left|exact Hnext].
  destruct (reserve_lane _ _ _ _) as [[] g1] eqn:Hres.
  - unfold Robot.start_moving.
    pose proof (reserve_lane_vertices (Robot.current_vertex r1) next_vertex
                  (Robot.id r1) g) as Hsame.
    rewrite Hres in Hsame. simpl in Hsame.
    destruct (release_vertex_valid g1 (Robot.current_vertex r1) (Robot.id r1))
      as [g2 Hrel].
    { rewrite Hsame. eapply py_getitem_Ok_valid; eauto. }
    rewrite Hrel. cbn [mbind result_bind mret result_ret].
    rewrite (get_scaled_position_release _ _ _ _ _ Hrel).
    pose proof (get_scaled_position_reserve_lane (Robot.current_vertex r1)
                  next_vertex (Robot.id r1) g next_vertex) as Hpos.
    rewrite Hres in Hpos. simpl in Hpos.
    rewrite Hpos, Htarget. cbn [mbind result_bind mret result_ret].
    eexists _, _. split; [reflexivity|]. now left.
  - destruct (decide (Robot.state r1 = Robot.WAITING)) as [Hw|_];
      [discriminate Hw|].
    cbn [mbind result_bind mret result_ret].
    eexists _, _. split; [reflexivity|]. now right.
Qed.

End RobotTick.

(** * The registry along the commands *)

Section FleetRuns.
Context {SC : Scalar} {PF : PathFinder} {SP : ScalarPow}.
Implicit Types (g : NavGraph) (r : Robot.t) (fm : FleetManager.t).

Lemma dict_set_fresh {V : Type} (d : list (Z * V)) (k : Z) (v : V) :
  k ∉ map fst d -> dict_set d k v = d ++ [(k, v)].
Proof.
  induction d as [|[k' v'] rest IH]; simpl; [done|].
  intros Hnotin. apply not_elem_of_cons in Hnotin as [Hne Hnotin].
  destruct (k' =? k) eqn:E; [apply Z.eqb_eq in E; congruence|].
  now rewrite IH.
Qed.

Lemma dict_set_Forall {V : Type} (P : Z * V -> Prop) (d : list (Z * V))
    (k : Z) (v : V) :
  Forall P d -> P (k, v) -> Forall P (dict_set d k v).
Proof.
  intros Hd Hkv. induction Hd as [|[k' v'] rest Hhead Hrest IH]; simpl.
  - now constructor.
  - destruct (k' =? k); constructor; auto.
Qed.

Lemma dict_get_elem {V : Type} (d : list (Z * V)) (k : Z) (v : V) :
  dict_get d k = Ok v -> (k, v) ∈ d.
Proof.
  induction d as [|[k' v'] rest IH]; simpl; [discriminate|].
  destruct (k' =? k) eqn:E.
  - apply Z.eqb_eq in E as ->. intros [= ->]. left.
  - intros H. right. auto.
Qed.

Lemma update_id delta_time r g r' g' u :
  Robot.update delta_time r g = Ok (r', g', u) -> Robot.id r' = Robot.id r.
Proof. intros H. apply update_cases in H. now destruct H. Qed.

Lemma assign_task_id destination_vertex r g ok r' :
  Robot.assign_task destination_vertex r g = Ok (ok, r') ->
  Robot.id r' = Robot.id r.
Proof.
  unfold Robot.assign_task.
  destruct (_ && _); [now intros [= <- <-]|].
  destruct (get_shortest_path _ _ _) as [[p|]|];
    cbn [mbind result_bind mret result_ret]; [| |discriminate];
    now intros [= <- <-].
Qed.

Lemma registered_ok_store g g' rs :
  length (vertices g') = length (vertices g) ->
  Forall (registered_ok g) rs -> Forall (registered_ok g') rs.
Proof.
  intros Hlen Hall. eapply Forall_impl; [exact Hall|].
  intros kv [Hid Hinv]. split; [done|]. eapply robot_inv_store; eauto.
Qed.

Lemma update_robots_registered delta_time rs g rs' g' :
  FleetManager.update_robots delta_time rs g = Ok (rs', g') ->
  Forall (registered_ok g) rs -> Forall (registered_ok g') rs'.
Proof.
  revert g rs' g'. induction rs as [|[k r] rest IH]; intros g rs' g' H Hall.
  - injection H as <- <-. constructor.
  - simpl in H.
    destruct (Robot.update delta_time r g) as [[[r1 g1] u]|] eqn:Hu;
      cbn [mbind result_bind mret result_ret] in H; [|discriminate].
    destruct (FleetManager.update_robots delta_time rest g1)
      as [[rest1 g2]|] eqn:Hrest;
      cbn [mbind result_bind mret result_ret] in H; [|discriminate].
    injection H as <- <-.
    apply Forall_cons in Hall as [[Hid Hinv] Hall].
    pose proof (update_id _ _ _ _ _ _ Hu) as Hid'.
    pose proof (update_preserves _ _ _ _ _ _ Hu) as (_ & Hlen1 & Hinv1).
    pose proof (update_robots_preserves _ _ _ _ _ Hrest) as (_ & Hlen2 & _).
    constructor.
    + split; simpl in *; [congruence|].
      eapply robot_inv_store; eauto.
    + eapply IH; eauto. eapply registered_ok_store; eauto.
Qed.

Lemma resolve_deadlocks_frame fm g n g' :
  TrafficManager.resolve_deadlocks fm g = Ok (n, g') ->
  vertices g' = vertices g
  /\ (lanes_inv (lanes g) -> lanes_inv (lanes g')).
Proof.
  unfold TrafficManager.resolve_deadlocks.
  destruct (TrafficManager.waiting_robots fm); [now intros [= <- <-]|].
  destruct (dict_get _ _) as [robot|];
    cbn [mbind result_bind mret result_ret]; [|discriminate].
  destruct (Robot.has_next_hop robot); [|now intros [= <- <-]].
  destruct (py_getitem _ _) as [nv|];
    cbn [mbind result_bind mret result_ret]; [|discriminate].
  pose proof (clear_lanes_cleared (Robot.current_vertex robot) nv (lanes g))
    as Hcl.
  destruct (TrafficManager.clear_lanes _ _ _) as [ls resolved].
  intros [= <- <-]. split; [done|]. simpl in *.
  now apply lanes_inv_cleared.
Qed.

Lemma spawn_robot_fleet_inv vertex_id now fm g o fm' g' :
  FleetManager.spawn_robot vertex_id now fm g = Ok (o, fm', g') ->
  fleet_inv fm g ->
  fleet_inv fm' g'
  /\ (forall rid, o = Some rid ->
        rid = FleetManager.next_robot_id fm
        /\ FleetManager.next_robot_id fm' = rid + 1
        /\ exists robot,
             FleetManager.robots fm' = FleetManager.robots fm ++ [(rid, robot)]).
Proof.
  unfold FleetManager.spawn_robot. intros H (Hnext & Hkeys & Hall).
  destruct (py_getitem (vertices g) vertex_id) as [vertex|];
    cbn [mbind result_bind mret result_ret] in H; [|discriminate].
  destruct (v_occupying_robot vertex).
  { injection H as <- <- <-. split; [done | discriminate]. }
  destruct (py_getitem FleetManager.robot_colors _) as [c|];
    cbn [mbind result_bind mret result_ret] in H; [|discriminate].
  destruct (Robot.init _ _ _ _ _) as [[robot g1]|] eqn:Hinit;
    cbn [mbind result_bind mret result_ret] in H; [|discriminate].
  injection H as <- <- <-.
  assert (Robot.id robot = FleetManager.next_robot_id fm) as Hid.
  { unfold Robot.init in Hinit.
    destruct (get_scaled_position _ _);
      cbn [mbind result_bind mret result_ret] in Hinit; [|discriminate].
    destruct (reserve_vertex _ _ _) as [[? ?]|];
      cbn [mbind result_bind mret result_ret] in Hinit; [|discriminate].
    now injection Hinit as <- <-. }
  apply init_robot_inv in Hinit as (Hinv & _ & Hlen).
  assert (FleetManager.next_robot_id fm ∉ map fst (FleetManager.robots fm))
    as Hfresh.
  { rewrite Hkeys. intros Hin. apply list_elem_of_lookup in Hin as [i Hi].
    apply lookup_seqZ in Hi. lia. }
  rewrite (dict_set_fresh _ _ _ Hfresh).
  split.
  - split; [simpl; lia|]. split; simpl.
    + rewrite map_app, Hkeys. simpl.
      rewrite (seqZ_app 0 (FleetManager.next_robot_id fm) 1) by lia.
      reflexivity.
    + apply Forall_app. split.
      * eapply registered_ok_store; eauto.
      * constructor; [|constructor]. split; done.
  - intros rid [= <-]. eauto.
Qed.

Lemma fleet_update_fleet_inv delta_time fm g fm' g' :
  FleetManager.update delta_time fm g = Ok (fm', g') ->
  fleet_inv fm g -> fleet_inv fm' g'.
Proof.
  unfold FleetManager.update. intros H (Hnext & Hkeys & Hall).
  destruct (FleetManager.update_robots delta_time (FleetManager.robots fm) g)
    as [[rs g1]|] eqn:Hrs;
    cbn [mbind result_bind mret result_ret] in H; [|discriminate].
  injection H as <- <-.
  pose proof (update_robots_preserves _ _ _ _ _ Hrs) as (_ & _ & Hk).
  split; [done|]. split; simpl; [congruence|].
  eapply update_robots_registered; eauto.
Qed.

Lemma assign_navigation_task_fleet_inv destination_vertex fm g ok fm' :
  FleetManager.assign_navigation_task destination_vertex fm g = Ok (ok, fm') ->
  fleet_inv fm g -> fleet_inv fm' g.
Proof.
  unfold FleetManager.assign_navigation_task. intros H (Hnext & Hkeys & Hall).
  destruct (FleetManager.selected_robot fm) as [sel|];
    [|injection H as <- <-; done].
  destruct (existsb _ _) eqn:Hreg; [|injection H as <- <-; done].
  destruct (dict_get (FleetManager.robots fm) sel) as [robot|] eqn:Hget;
    cbn [mbind result_bind mret result_ret] in H; [|discriminate].
  destruct (Robot.assign_task destination_vertex robot g)
    as [[success r']|] eqn:Hassign;
    cbn [mbind result_bind mret result_ret] in H; [|discriminate].
  injection H as <- <-.
  apply dict_get_elem in Hget.
  rewrite Forall_forall in Hall. destruct (Hall _ Hget) as [Hid Hinv].
  split; [done|]. split; simpl.
  - rewrite dict_set_keys, <- Hkeys.
    replace (existsb (Z.eqb sel) (map fst (FleetManager.robots fm)))
      with true; [done|].
    symmetry. apply existsb_exists. exists sel. split; [|apply Z.eqb_refl].
    apply list_elem_of_In, list_elem_of_fmap. now exists (sel, robot).
  - apply dict_set_Forall; [now apply Forall_forall|].
    split; simpl.
    + rewrite (assign_task_id _ _ _ _ _ Hassign). exact Hid.
    + eapply assign_task_robot_inv; eauto.
Qed.

Lemma run_command_inv c fm g fm' g' :
  run_command c fm g = Ok (fm', g') ->
  lanes_inv (lanes g) -> fleet_inv fm g ->
  lanes_inv (lanes g') /\ fleet_inv fm' g'
  /\ length (vertices g') = length (vertices g).
Proof.
  intros H Hlanes Hfleet. destruct c as [v now | x y tol | d | dt]; simpl in H.
  - destruct (FleetManager.spawn_robot v now fm g) as [[[o fm1] g1]|] eqn:Hs;
      cbn [mbind result_bind mret result_ret] in H; [|discriminate].
    injection H as <- <-.
    pose proof (spawn_robot_preserves _ _ _ _ _ _ _ Hs) as (Hl & Hv & _).
    apply spawn_robot_fleet_inv in Hs as [Hf _]; [|done].
    rewrite Hl. auto.
  - injection H as <- <-. split; [done|]. split; [|done].
    unfold FleetManager.select_robot.
    destruct (FleetManager.select_loop _ _ _ _ _); done.
  - destruct (FleetManager.assign_navigation_task d fm g) as [[ok fm1]|] eqn:Ha;
      cbn [mbind result_bind mret result_ret] in H; [|discriminate].
    injection H as <- <-. split; [done|]. split; [|done].
    eapply assign_navigation_task_fleet_inv; eauto.
  - destruct (FleetManager.update dt fm g) as [[fm1 g1]|] eqn:Hu;
      cbn [mbind result_bind mret result_ret] in H; [|discriminate].
    destruct (TrafficManager.update fm1 g1) as [[n g2]|] eqn:Ht;
      cbn [mbind result_bind mret result_ret] in H; [|discriminate].
    injection H as <- <-.
    pose proof (fleet_update_preserves _ _ _ _ _ Hu) as [Hl1 _].
    pose proof (fleet_update_fleet_inv _ _ _ _ _ Hu Hfleet) as Hf1.
    assert (length (vertices g1) = length (vertices g)) as Hlen1.
    { unfold FleetManager.update in Hu.
      destruct (FleetManager.update_robots _ _ _) as [[rs gx]|] eqn:Hrs;
        cbn [mbind result_bind mret result_ret] in Hu; [|discriminate].
      injection Hu as <- <-.
      now apply update_robots_preserves in Hrs as (_ & ? & _). }
    apply resolve_deadlocks_frame in Ht as [Hv2 Hl2].
    split; [auto|]. split; [|congruence].
    destruct Hf1 as (? & ? & Hall). split; [done|]. split; [done|].
    eapply registered_ok_store; [|exact Hall]. congruence.
Qed.

(** X14. The invariants hold along every run. From a store and a registry
    that satisfy them (a freshly loaded store with the empty registry
    does), any sequence of spawn clicks, selection clicks, task assignments
    and frames that returns leaves a store whose repeated lane entries are
    unoccupied, a registry whose ids are 0, 1, ... in order with every
    robot carrying its own id, moving and waiting robots with a hop ahead,
    and as many vertices as before. *)
Theorem run_commands_inv (cs : list Command) (fm fm' : FleetManager.t)
    (g g' : NavGraph) :
  lanes_inv (lanes g) ->
  fleet_inv fm g ->
  run_commands cs fm g = Ok (fm', g') ->
  lanes_inv (lanes g') /\ fleet_inv fm' g'
  /\ length (vertices g') = length (vertices g).
Proof.
  revert fm g. induction cs as [|c cs IH]; intros fm g Hlanes Hfleet H.
  - injection H as <- <-. auto.
  - simpl in H.
    destruct (run_command c fm g) as [[fm1 g1]|] eqn:Hc;
      cbn [mbind result_bind mret result_ret] in H; [|discriminate].
    destruct (run_command_inv _ _ _ _ _ Hc Hlanes Hfleet) as (Hl1 & Hf1 & Hv1).
    destruct (IH _ _ Hl1 Hf1 H) as (? & ? & ?).
    split; [done|]. split; [done|]. congruence.
Qed.

(** X15. In a registry that satisfies the invariant a successful spawn
    hands out the next id, which no registered robot has, and puts the new
    robot last in registry order; the robots already there are not
    touched. *)
Theorem spawn_robot_appends (vertex_id : Z) (now : num)
    (fm fm' : FleetManager.t) (g g' : NavGraph) (rid : Z) :
  fleet_inv fm g ->
  FleetManager.spawn_robot vertex_id now fm g = Ok (Some rid, fm', g') ->
  rid = FleetManager.next_robot_id fm
  /\ (rid ∉ map fst (FleetManager.robots fm))
  /\ FleetManager.next_robot_id fm' = rid + 1
  /\ exists robot,
       Robot.id robot = rid
       /\ FleetManager.robots fm' = FleetManager.robots fm ++ [(rid, robot)].
Proof.
  intros Hinv Hspawn.
  destruct (spawn_robot_fleet_inv _ _ _ _ _ _ _ Hspawn Hinv) as [Hinv' Hnew].
  destruct (Hnew rid eq_refl) as (-> & Hnext & robot & Hrobots).
  split; [done|]. split; [|split; [done|]].
  - destruct Hinv as (_ & Hkeys & _). rewrite Hkeys.
    intros Hin. apply list_elem_of_lookup in Hin as [i Hi].
    apply lookup_seqZ in Hi. lia.
  - exists robot. split; [|done].
    destruct Hinv' as (_ & _ & Hall). rewrite Hrobots in Hall.
    apply Forall_app in Hall as [_ Hall].
    apply Forall_cons in Hall as [[Hid _] _]. exact Hid.
Qed.

(** X16. After a successful spawn the vertex is taken: spawning on it
    again returns [None] and changes neither the registry nor the store. *)
Theorem spawn_robot_twice (vertex_id : Z) (now now' : num)
    (fm fm' : FleetManager.t) (g g' : NavGraph) (rid : Z) :
  FleetManager.spawn_robot vertex_id now fm g = Ok (Some rid, fm', g') ->
  FleetManager.spawn_robot vertex_id now' fm' g' = Ok (None, fm', g').
Proof.
  unfold FleetManager.spawn_robot at 1. intros H.
  destruct (py_getitem (vertices g) vertex_id) as [vertex|] eqn:Hget;
    cbn [mbind result_bind mret result_ret] in H; [|discriminate].
  destruct (v_occupying_robot vertex) eqn:Hocc; [discriminate|].
  destruct (py_getitem FleetManager.robot_colors _) as [c|];
    cbn [mbind result_bind mret result_ret] in H; [|discriminate].
  unfold Robot.init in H.
  destruct (get_scaled_position g vertex_id) as [pos|];
    cbn [mbind result_bind mret result_ret] in H; [|discriminate].
  destruct (reserve_vertex vertex_id (FleetManager.next_robot_id fm) g)
    as [[ok g1]|] eqn:Hres;
    cbn [mbind result_bind mret result_ret] in H; [|discriminate].
  injection H as <- <- <-.
  unfold reserve_vertex in Hres. rewrite Hget in Hres.
  cbn [mbind result_bind mret result_ret] in Hres. rewrite Hocc in Hres.
  destruct (py_update _ _ _) as [vs|] eqn:Hupd;
    cbn [mbind result_bind mret result_ret] in Hres; [|discriminate].
  injection Hres as <- <-.
  destruct (py_update_getitem _ _ _ _ _ Hget Hupd) as [Hget' _].
  unfold FleetManager.spawn_robot. simpl. rewrite Hget'. reflexivity.
Qed.

Lemma dict_get_set_ne {V : Type} (d : list (Z * V)) (k k' : Z) (v : V) :
  k <> k' -> dict_get (dict_set d k v) k' = dict_get d k'.
Proof.
  intros Hne. induction d as [|[k0 v0] rest IH]; simpl.
  - now rewrite (proj2 (Z.eqb_neq k k') Hne).
  - destruct (k0 =? k) eqn:E; simpl.
    + apply Z.eqb_eq in E as ->.
      now rewrite (proj2 (Z.eqb_neq k k') Hne).
    + now rewrite IH.
Qed.

Lemma dict_set_same {V : Type} (d : list (Z * V)) (k : Z) (v : V) :
  dict_get d k = Ok v -> dict_set d k v = d.
Proof.
  induction d as [|[k0 v0] rest IH]; simpl; [discriminate|].
  destruct (k0 =? k) eqn:E.
  - apply Z.eqb_eq in E as ->. now intros [= ->].
  - intros H. now rewrite IH.
Qed.

Lemma assign_task_rejected destination_vertex r g r' :
  Robot.assign_task destination_vertex r g = Ok (false, r') -> r' = r.
Proof.
  unfold Robot.assign_task.
  destruct (_ && _); [now intros [= <-]|].
  destruct (get_shortest_path _ _ _) as [[p|]|];
    cbn [mbind result_bind mret result_ret]; [discriminate| |discriminate].
  now intros [= <-].
Qed.

(** X17. [assign_navigation_task] on the registry. With no robot selected,
    or with a selection that is not registered, it returns [False] and
    changes nothing. Otherwise it is [assign_task] on the selected robot:
    it returns what that returns, the selected entry holds the robot
    [assign_task] leaves, every other robot and the registry order are as
    before, and a rejected task leaves the whole registry as it was. *)
Theorem assign_navigation_task_spec (destination_vertex : Z)
    (fm : FleetManager.t) (g : NavGraph) :
  (FleetManager.selected_robot fm = None ->
   FleetManager.assign_navigation_task destination_vertex fm g
   = Ok (false, fm))
  /\ (forall sel,
        FleetManager.selected_robot fm = Some sel ->
        dict_get (FleetManager.robots fm) sel = Raise KeyError ->
        FleetManager.assign_navigation_task destination_vertex fm g
        = Ok (false, fm))
  /\ (forall sel robot ok robot',
        FleetManager.selected_robot fm = Some sel ->
        dict_get (FleetManager.robots fm) sel = Ok robot ->
        Robot.assign_task destination_vertex robot g = Ok (ok, robot') ->
        exists fm',
          FleetManager.assign_navigation_task destination_vertex fm g
          = Ok (ok, fm')
          /\ dict_get (FleetManager.robots fm') sel = Ok robot'
          /\ (forall k, k <> sel ->
                dict_get (FleetManager.robots fm') k
                = dict_get (FleetManager.robots fm) k)
          /\ map fst (FleetManager.robots fm')
             = map fst (FleetManager.robots fm)
          /\ FleetManager.next_robot_id fm' = FleetManager.next_robot_id fm
          /\ FleetManager.selected_robot fm' = Some sel
          /\ (ok = false -> fm' = fm)).
Proof.
  unfold FleetManager.assign_navigation_task.
  split; [now intros ->|]. split.
  - intros sel -> Hget.
    pose proof (dict_get_registered (FleetManager.robots fm) sel) as Hreg.
    destruct (existsb _ _); [|done].
    destruct Hreg as [v Hv]. congruence.
  - intros sel robot ok robot' Hsel Hget Hassign. rewrite Hsel.
    pose proof (dict_get_registered (FleetManager.robots fm) sel) as Hreg.
    destruct (existsb _ _) eqn:Hin; [|congruence].
    rewrite Hget. cbn [mbind result_bind mret result_ret].
    rewrite Hassign. cbn [mbind result_bind mret result_ret].
    eexists. split; [reflexivity|]. simpl.
    split; [apply dict_get_set|].
    split; [intros k Hk; now apply dict_get_set_ne|].
    split.
    { rewrite dict_set_keys.
      replace (existsb (Z.eqb sel) (map fst (FleetManager.robots fm)))
        with true; [done|].
      symmetry. apply existsb_exists. exists sel.
      split; [|apply Z.eqb_refl].
      apply list_elem_of_In, list_elem_of_fmap. exists (sel, robot).
      split; [done|]. now apply dict_get_elem. }
    split; [done|]. split; [done|].
    intros ->. apply assign_task_rejected in Hassign as ->.
    rewrite (dict_set_same _ _ _ Hget). destruct fm; simpl in *.
    now subst.
Qed.

Lemma strict_onb_sound (L : list num) : strict_onb L = true -> strict_on L.
Proof.
  unfold strict_onb, strict_on. rewrite andb_true_iff, !forallb_forall.
  intros [Hirr Htrans]. split.
  - intros a Ha. apply list_elem_of_In in Ha.
    specialize (Hirr a Ha). now apply negb_true_iff in Hirr.
  - intros a b c Ha Hb Hc Hab Hbc.
    apply list_elem_of_In in Ha, Hb, Hc.
    specialize (Htrans a Ha). rewrite forallb_forall in Htrans.
    specialize (Htrans b Hb). rewrite forallb_forall in Htrans.
    specialize (Htrans c Hc). now rewrite Hab, Hbc in Htrans.
Qed.

Lemma select_loop_some x y rs m k :
  exists k', FleetManager.select_loop x y rs m (Some k) = Some k'.
Proof.
  revert m k. induction rs as [|[k0 r0] rest IH]; intros m k; simpl; [eauto|].
  destruct (num_lt _ m); apply IH.
Qed.

Lemma select_loop_none x y rs m sel :
  Forall (fun kv => num_lt (FleetManager.click_distance x y (snd kv)) m = false)
    rs ->
  FleetManager.select_loop x y rs m sel = sel.
Proof.
  induction 1 as [|[k r] rest Hhead Hrest IH]; simpl; [done|].
  simpl in Hhead. now rewrite Hhead.
Qed.

Lemma select_loop_spec x y (L : list num) rs m sel :
  strict_on L -> m ∈ L ->
  Forall (fun kv => FleetManager.click_distance x y (snd kv) ∈ L) rs ->
  (FleetManager.select_loop x y rs m sel = sel
   /\ Forall (fun kv =>
                num_lt (FleetManager.click_distance x y (snd kv)) m = false)
        rs)
  \/ (exists before rid robot after,
        rs = before ++ (rid, robot) :: after
        /\ FleetManager.select_loop x y rs m sel = Some rid
        /\ num_lt (FleetManager.click_distance x y robot) m = true
        /\ Forall (fun kv =>
                     num_lt (FleetManager.click_distance x y (snd kv))
                       (FleetManager.click_distance x y robot) = false) rs
        /\ Forall (fun kv =>
                     FleetManager.click_distance x y (snd kv)
                     <> FleetManager.click_distance x y robot) before).
Proof.
  intros [Hirr Htrans] Hm Hall. revert m sel Hm.
  induction Hall as [|[k r] rest Hd Hrest IH]; intros m sel Hm.
  { left. split; [done | constructor]. }
  simpl in Hd. simpl.
  set (d := FleetManager.click_distance x y r) in *.
  destruct (num_lt d m) eqn:Hlt.
  - right.
    destruct (IH d (Some k) Hd)
      as [[Hsel Hnone] | (before & rid & robot & after & -> & Hsel & Hlt'
                          & Hmin & Hfirst)].
    + exists [], k, r, rest. split; [done|]. split; [done|].
      split; [done|]. split; [|constructor].
      constructor; [|done]. simpl. now apply Hirr.
    + set (d' := FleetManager.click_distance x y robot) in *.
      assert (d' ∈ L) as Hd'.
      { rewrite Forall_forall in Hrest.
        apply (Hrest (rid, robot)). apply elem_of_app. right. left. }
      exists ((k, r) :: before), rid, robot, after.
      split; [done|]. split; [done|].
      split; [now apply (Htrans d' d m)|]. split.
      * constructor; [|done]. simpl. fold d.
        destruct (num_lt d d') eqn:Hdd'; [|done].
        pose proof (Htrans d' d d' Hd' Hd Hd' Hlt' Hdd') as Hc.
        rewrite (Hirr d' Hd') in Hc. discriminate.
      * constructor; [|done]. simpl. fold d. intros Heq. fold d' in Heq.
        pose proof (Hirr d' Hd') as Hc. clearbody d d'. congruence.
  - destruct (IH m sel Hm)
      as [[Hsel Hnone] | (before & rid & robot & after & -> & Hsel & Hlt'
                          & Hmin & Hfirst)].
    + left. split; [done|]. now constructor.
    + right. set (d' := FleetManager.click_distance x y robot) in *.
      assert (d' ∈ L) as Hd'.
      { rewrite Forall_forall in Hrest.
        apply (Hrest (rid, robot)). apply elem_of_app. right. left. }
      exists ((k, r) :: before), rid, robot, after.
      split; [done|]. split; [done|]. split; [done|]. split.
      * constructor; [|done]. simpl. fold d.
        destruct (num_lt d d') eqn:Hdd'; [|done].
        pose proof (Htrans d d' m Hd Hd' Hm Hdd' Hlt') as Hc. congruence.
      * constructor; [|done]. simpl. fold d. intros Heq. fold d' in Heq.
        clearbody d d'. congruence.
Qed.

(** X18. [select_robot] finds the nearest robot. It returns [None], and
    leaves the selection as it was, exactly when no robot is at a distance
    below the tolerance. When [<] is irreflexive and transitive on the
    distances involved and a robot is returned, that robot is registered,
    becomes the selection, is below the tolerance, no robot is strictly
    nearer, and no robot before it in registry order is at the same
    distance: ties go to the first. *)
Theorem select_robot_nearest (x y tolerance : num) (fm : FleetManager.t) :
  (fst (FleetManager.select_robot x y tolerance fm) = None
   <-> Forall (fun kv =>
                 num_lt (FleetManager.click_distance x y (snd kv)) tolerance
                 = false) (FleetManager.robots fm))
  /\ (fst (FleetManager.select_robot x y tolerance fm) = None ->
      snd (FleetManager.select_robot x y tolerance fm) = fm)
  /\ (strict_on
        (tolerance
         :: map (fun kv => FleetManager.click_distance x y (snd kv))
              (FleetManager.robots fm)) ->
      forall rid,
        fst (FleetManager.select_robot x y tolerance fm) = Some rid ->
        FleetManager.selected_robot
          (snd (FleetManager.select_robot x y tolerance fm)) = Some rid
        /\ exists before robot after,
             FleetManager.robots fm = before ++ (rid, robot) :: after
             /\ num_lt (FleetManager.click_distance x y robot) tolerance
                = true
             /\ Forall (fun kv =>
                          num_lt (FleetManager.click_distance x y (snd kv))
                            (FleetManager.click_distance x y robot) = false)
                  (FleetManager.robots fm)
             /\ Forall (fun kv =>
                          FleetManager.click_distance x y (snd kv)
                          <> FleetManager.click_distance x y robot) before).
Proof.
  unfold FleetManager.select_robot.
  split; [|split].
  - split.
    + intros Hnone.
      destruct (FleetManager.select_loop x y (FleetManager.robots fm)
                  tolerance None) as [rid|] eqn:Hloop; [discriminate|].
      clear Hnone. revert Hloop.
      generalize (FleetManager.robots fm) as rs.
      induction rs as [|[k r] rest IH]; simpl; [constructor|].
      destruct (num_lt (FleetManager.click_distance x y r) tolerance)
        eqn:Hlt.
      * intros Hloop.
        destruct (select_loop_some x y rest
                    (FleetManager.click_distance x y r) k) as [k' Hk'].
        congruence.
      * intros Hloop. constructor; auto.
    + intros Hall. now rewrite (select_loop_none _ _ _ _ _ Hall).
  - now destruct (FleetManager.select_loop _ _ _ _ _).
  - intros Hstrict rid.
    destruct (select_loop_spec x y _ (FleetManager.robots fm) tolerance None
                Hstrict)
      as [[-> _] | (before & rid' & robot & after & Hrs & -> & Hlt & Hmin
                    & Hfirst)].
    + left.
    + apply Forall_forall. intros kv Hkv. right.
      apply list_elem_of_fmap. now exists kv.
    + discriminate.
    + simpl. intros [= <-]. split; [done|].
      exists before, robot, after. auto.
Qed.

Lemma get_status_display_returns r :
  (exists status, Robot.get_status_display r = Ok status)
  <-> (Robot.state r = Robot.MOVING \/ Robot.state r = Robot.WAITING ->
       Robot.has_next_hop r = true).
Proof.
  unfold Robot.get_status_display.
  destruct (Robot.has_next_hop r) eqn:Hhop.
  - destruct (has_next_hop_getitem r Hhop) as (nv & _ & ->).
    destruct (Robot.state r); simpl; split; eauto.
  - assert (py_getitem (Robot.path r)
              (Z.of_nat (Robot.current_path_index r) + 1) = Raise IndexError)
      as ->.
    { destruct (py_getitem _ _) as [nv|e] eqn:Hget.
      - exfalso. apply py_getitem_Ok_valid in Hget.
        unfold valid_index in Hget.
        apply not_true_iff_false in Hhop. apply Hhop, has_next_hop_lt. lia.
      - unfold py_getitem in Hget.
        destruct (py_index _ _); [destruct (_ !! _)|]; congruence. }
    destruct (Robot.state r); simpl.
    + split; [intros _ [|]; discriminate | eauto].
    + split; [intros [? [=]] | intros H; discriminate H; now left].
    + split; [intros [? [=]] | intros H; discriminate H; now right].
    + split; [intros _ [|]; discriminate | eauto].
    + split; [intros _ [|]; discriminate | eauto].
Qed.

(** X19. [get_status_display] returns a text, rather than raising
    [IndexError], exactly when the robot is not moving or waiting without a
    hop ahead; so in a registry that satisfies the invariant
    [get_all_robot_statuses] returns a text for every registered robot, in
    registry order. *)
Theorem robot_statuses_total (fm : FleetManager.t) (g : NavGraph) :
  (forall r,
     (exists status, Robot.get_status_display r = Ok status)
     <-> (Robot.state r = Robot.MOVING \/ Robot.state r = Robot.WAITING ->
          Robot.has_next_hop r = true))
  /\ (fleet_inv fm g ->
      exists statuses,
        FleetManager.get_all_robot_statuses fm = Ok statuses
        /\ map fst statuses = map fst (FleetManager.robots fm)).
Proof.
  split; [apply get_status_display_returns|].
  intros (_ & _ & Hall). unfold FleetManager.get_all_robot_statuses.
  induction Hall as [|[k r] rest [_ [Hhop _]] Hrest IH]; simpl.
  - eexists. split; reflexivity.
  - destruct (proj2 (get_status_display_returns r) Hhop) as [status ->].
    destruct IH as (statuses & -> & Hkeys).
    cbn [mbind result_bind mret result_ret].
    eexists. split; [reflexivity|]. simpl. now rewrite Hkeys.
Qed.

End FleetRuns.

(** * The override and what follows it *)

Section Override.
Context {SC : Scalar} {PF : PathFinder}.
Implicit Types (g : NavGraph) (fm : FleetManager.t) (ls : list Lane).

Lemma clear_lanes_twice f t ls :
  TrafficManager.clear_lanes f t (fst (TrafficManager.clear_lanes f t ls))
  = (fst (TrafficManager.clear_lanes f t ls), 0).
Proof.
  apply clear_lanes_free.
  induction ls as [|lane rest IH]; simpl; [constructor|].
  destruct (TrafficManager.clear_lanes f t rest) as [rest' n]. simpl in IH.
  destruct (lane_matches f t lane) eqn:Hm;
    [destruct (l_occupying_robot lane) eqn:Hocc|]; simpl;
    constructor; auto; congruence.
Qed.

(** X20. [resolve_deadlocks] has nothing left to do after itself: called
    again with the same registry on the store it returned, it returns 0 and
    changes nothing. *)
Theorem resolve_deadlocks_twice (fm : FleetManager.t) (g g' : NavGraph)
    (n : Z) :
  TrafficManager.resolve_deadlocks fm g = Ok (n, g') ->
  TrafficManager.resolve_deadlocks fm g' = Ok (0, g').
Proof.
  unfold TrafficManager.resolve_deadlocks.
  destruct (TrafficManager.waiting_robots fm); [now intros [= <- <-]|].
  destruct (dict_get _ _) as [robot|];
    cbn [mbind result_bind mret result_ret]; [|discriminate].
  destruct (Robot.has_next_hop robot); [|now intros [= <- <-]].
  destruct (py_getitem _ _) as [nv|];
    cbn [mbind result_bind mret result_ret]; [|discriminate].
  pose proof (clear_lanes_twice (Robot.current_vertex robot) nv (lanes g))
    as Htwice.
  destruct (TrafficManager.clear_lanes _ _ (lanes g)) as [ls resolved].
  intros [= <- <-]. simpl in *. rewrite Htwice. now destruct g.
Qed.

Lemma first_lane_insert f t ls i lane lane' :
  first_lane f t ls i lane -> lane_matches f t lane' = true ->
  first_lane f t (<[i := lane']> ls) i lane'.
Proof.
  intros (Hi & Hm & Hbefore) Hm'. split; [|split; [done|]].
  - apply list_lookup_insert_eq. eapply lookup_lt_Some; eauto.
  - intros j l Hj Hlt. rewrite list_lookup_insert_ne in Hj by lia. eauto.
Qed.

Lemma resolve_deadlocks_first fm g rid robot next_vertex :
  dict_wf (FleetManager.robots fm) ->
  first_waiting fm rid robot ->
  Robot.path robot !! S (Robot.current_path_index robot) = Some next_vertex ->
  TrafficManager.resolve_deadlocks fm g
  = Ok (snd (TrafficManager.clear_lanes (Robot.current_vertex robot)
               next_vertex (lanes g)),
        set_lanes
          (fst (TrafficManager.clear_lanes (Robot.current_vertex robot)
                  next_vertex (lanes g))) g).
Proof.
  intros Hwf Hfirst Hnext.
  destruct (waiting_robots_first _ _ _ Hfirst) as [others Hw].
  destruct Hfirst as (before & after & Hfm & _ & _).
  unfold TrafficManager.resolve_deadlocks. rewrite Hw, Hfm.
  rewrite dict_get_first by (rewrite <- Hfm; exact Hwf).
  cbn [mbind result_bind mret result_ret].
  assert (Robot.has_next_hop robot = true) as Hhop
    by (apply has_next_hop_lt; eapply lookup_lt_Some; eauto).
  rewrite Hhop.
  destruct (has_next_hop_getitem robot Hhop) as (nv & Hlook & ->).
  assert (nv = next_vertex) as -> by congruence.
  cbn [mbind result_bind mret result_ret].
  now destruct (TrafficManager.clear_lanes _ _ _).
Qed.

(** X21. The override restores progress for the robot it favours. For
    the first waiting robot, with its next lane not blocked, the vertex it
    stands on valid and the scaled position of the next one computable,
    [resolve_deadlocks] returns, and on the store it leaves the robot's next
    [update] reserves that lane for the robot, whose id the lane entry then
    holds, and sets it [MOVING] (provided no other robot is updated in
    between). *)
Theorem resolve_then_departs (delta_time : num) (fm : FleetManager.t)
    (g : NavGraph) (rid : Z) (robot : Robot.t) (next_vertex : Z) (i : nat)
    (lane : Lane) (target : num * num) :
  dict_wf (FleetManager.robots fm) ->
  lanes_inv (lanes g) ->
  first_waiting fm rid robot ->
  Robot.path robot !! S (Robot.current_path_index robot) = Some next_vertex ->
  first_lane (Robot.current_vertex robot) next_vertex (lanes g) i lane ->
  l_is_blocked lane = false ->
  valid_index (vertices g) (Robot.current_vertex robot) ->
  get_scaled_position g next_vertex = Ok target ->
  exists n g1 r' g2 u,
    TrafficManager.resolve_deadlocks fm g = Ok (n, g1)
    /\ Robot.update delta_time robot g1 = Ok (r', g2, u)
    /\ Robot.state r' = Robot.MOVING
    /\ Robot.target_position r' = target
    /\ lanes g2 !! i
       = Some (lane_set_occupying_robot (Some (Robot.id robot)) lane)
    /\ l_occupying_robot <$> lanes g2 !! i = Some (Some (Robot.id robot)).
Proof.
  intros Hwf Hinv Hfirst Hnext Hf Hb Hcv Hnv.
  rewrite (resolve_deadlocks_first _ g _ _ _ Hwf Hfirst Hnext).
  assert (Robot.state robot = Robot.WAITING) as Hstate
    by (destruct Hfirst as (? & ? & _ & _ & ?); done).
  set (cleared := lane_set_occupying_robot None lane).
  assert (fst (TrafficManager.clear_lanes (Robot.current_vertex robot)
                 next_vertex (lanes g))
          = <[i := cleared]> (lanes g)) as Hls.
  { destruct (clear_lanes_spec (Robot.current_vertex robot) next_vertex
                (lanes g) Hinv) as [[-> Hfree] | (j & l & Hf' & _ & ->)].
    - simpl. symmetry. apply list_insert_id.
      destruct Hf as (Hi & Hrest). rewrite Hi. f_equal.
      pose proof (Hfree _ _ (conj Hi Hrest)) as Hnone.
      subst cleared. destruct lane; simpl in *. now subst.
    - now destruct (first_lane_unique _ _ _ _ _ _ _ Hf Hf') as [<- <-]. }
  rewrite Hls. set (g1 := set_lanes (<[i := cleared]> (lanes g)) g).
  assert (first_lane (Robot.current_vertex robot) next_vertex (lanes g1)
            i cleared) as Hf1.
  { eapply first_lane_insert; [exact Hf|]. exact (proj1 (proj2 Hf)). }
  destruct (attempt_succeeds robot g1 next_vertex i cleared target
              (quiet_status robot) Hf1 eq_refl Hb Hcv Hnv)
    as (g2 & Hrel & Hres & Hsm).
  eexists _, g1, _, g2, _. split; [reflexivity|].
  rewrite (update_attempt delta_time robot g1 next_vertex);
    [|now left|done].
  rewrite Hres, Hsm. cbn [mbind result_bind mret result_ret].
  split; [reflexivity|]. split; [reflexivity|]. split; [reflexivity|].
  apply release_vertex_Ok in Hrel as [-> _]. simpl.
  rewrite list_insert_insert_eq.
  rewrite list_lookup_insert_eq
    by (destruct Hf as (Hi & _); eapply lookup_lt_Some; eauto).
  split; reflexivity.
Qed.

(** The tick of a moving robot that is close enough to its target. *)
Lemma moving_arrival delta_time (r : Robot.t) g prev_vertex next_vertex :
  Robot.state r = Robot.MOVING ->
  Robot.path r !! Robot.current_path_index r = Some prev_vertex ->
  Robot.path r !! S (Robot.current_path_index r) = Some next_vertex ->
  num_lt (num_norm (Robot.vec_sub (Robot.target_position r)
                      (Robot.position r))) (Robot.move_speed r) = true ->
  exists event,
    Robot.update delta_time r g
    = ('(_, g2) ←
         reserve_vertex next_vertex (Robot.id r)
           (release_lane prev_vertex next_vertex (Robot.id r) g);
       mret (arrived r next_vertex, g2,
             Robot.report (Robot.state (arrived r next_vertex)) event
               (quiet_status r))).
Proof.
  intros Hs Hprev Hnext Hlt.
  assert (Robot.has_next_hop r = true) as Hhop
    by (apply has_next_hop_lt; eapply lookup_lt_Some; eauto).
  unfold Robot.update.
  destruct (decide (Robot.state r = Robot.IDLE)) as [He|_]; [congruence|].
  cbn [mbind result_bind mret result_ret]. rewrite Hhop, Hs, Hlt.
  rewrite (lookup_getitem _ _ _ Hnext). cbn [mbind result_bind].
  replace (Z.of_nat (S (Robot.current_path_index r)) - 1)
    with (Z.of_nat (Robot.current_path_index r)) by lia.
  rewrite (lookup_getitem _ _ _ Hprev). cbn [mbind result_bind].
  unfold arrived, quiet_status. rewrite Hs.
  destruct (Z.of_nat (S (Robot.current_path_index r))
            =? Z.of_nat (length (Robot.path r)) - 1) eqn:Hlast.
  - apply Z.eqb_eq in Hlast. rewrite bool_decide_eq_true_2 by lia.
    eexists. reflexivity.
  - apply Z.eqb_neq in Hlast. rewrite bool_decide_eq_false_2 by lia.
    eexists. reflexivity.
Qed.

(** X23. Arrival does not wait for the vertex. A moving robot that reaches
    a vertex held by some robot [o] arrives all the same: it takes the
    vertex as its current vertex and goes on to [IDLE] or [COMPLETED],
    while the store still records [o], and not the arriving robot, as the
    occupant of that vertex, and no vertex of the store has changed. *)
Theorem arrival_on_occupied_vertex (delta_time : num) (r : Robot.t)
    (g : NavGraph) (next_vertex o : Z) (vertex : Vertex) :
  Robot.state r = Robot.MOVING ->
  Robot.path r !! S (Robot.current_path_index r) = Some next_vertex ->
  num_lt (num_norm (Robot.vec_sub (Robot.target_position r)
                      (Robot.position r))) (Robot.move_speed r) = true ->
  py_getitem (vertices g) next_vertex = Ok vertex ->
  v_occupying_robot vertex = Some o ->
  exists g' u,
    Robot.update delta_time r g = Ok (arrived r next_vertex, g', u)
    /\ Robot.current_vertex (arrived r next_vertex) = next_vertex
    /\ Robot.state (arrived r next_vertex) <> Robot.MOVING
    /\ vertices g' = vertices g
    /\ py_getitem (vertices g') next_vertex = Ok vertex.
Proof.
  intros Hs Hnext Hlt Hget Hocc.
  assert (exists prev_vertex,
            Robot.path r !! Robot.current_path_index r = Some prev_vertex)
    as [prev_vertex Hprev].
  { apply lookup_lt_is_Some_2. apply lookup_lt_Some in Hnext. lia. }
  destruct (moving_arrival delta_time r g _ _ Hs Hprev Hnext Hlt)
    as [event ->].
  unfold reserve_vertex. simpl. rewrite Hget.
  cbn [mbind result_bind mret result_ret]. rewrite Hocc.
  cbn [mbind result_bind mret result_ret].
  eexists _, _. split; [reflexivity|]. split; [reflexivity|].
  split; [|split; [reflexivity | exact Hget]].
  unfold arrived. simpl. now destruct (bool_decide _).
Qed.

End Override.

(** * The graph that is loaded *)

Section LoadedGraph.
Context {SC : Scalar}.

Lemma has_node_add_node (G : DiGraph) (v w : Z) :
  has_node (add_node v G) w = has_node G w || (w =? v).
Proof.
  unfold add_node. destruct (has_node G v) eqn:Hv.
  - destruct (w =? v) eqn:E; [|now rewrite orb_false_r].
    apply Z.eqb_eq in E as ->. now rewrite Hv.
  - unfold has_node. simpl. rewrite existsb_app. simpl.
    now rewrite orb_false_r.
Qed.

Lemma has_node_add_edge (G : DiGraph) (u v w : Z) :
  has_node (add_edge u v G) w = has_node G w || (w =? u) || (w =? v).
Proof.
  unfold add_edge.
  destruct (existsb _ _); unfold has_node at 1; simpl;
    fold (has_node (add_node v (add_node u G)) w);
    now rewrite !has_node_add_node.
Qed.

Lemma has_node_fold_nodes (vs : list Vertex) (G : DiGraph) (w : Z) :
  has_node (fold_left (fun G v => add_node (v_id v) G) vs G) w
  = has_node G w || existsb (fun v => w =? v_id v) vs.
Proof.
  revert G. induction vs as [|v rest IH]; intros G; simpl.
  - now rewrite orb_false_r.
  - rewrite IH, has_node_add_node. now rewrite orb_assoc.
Qed.

Lemma has_node_fold_edges (ls : list Lane) (G : DiGraph) (w : Z) :
  has_node
    (fold_left (fun G l => add_edge (l_from_vertex l) (l_to_vertex l) G) ls G)
    w
  = has_node G w
    || existsb (fun l => (w =? l_from_vertex l) || (w =? l_to_vertex l)) ls.
Proof.
  revert G. induction ls as [|l rest IH]; intros G; simpl.
  - now rewrite orb_false_r.
  - rewrite IH, has_node_add_edge. now rewrite !orb_assoc.
Qed.

(** X22. The nodes of the graph [load_from_json] builds are the vertex ids
    and the end points of the lanes, and nothing else. In particular a
    vertex id is a node even when no lane touches it, and a lane end point
    is a node even when it is no vertex. *)
Theorem build_graph_nodes (vs : list Vertex) (ls : list Lane) (w : Z) :
  has_node (build_graph vs ls) w = true
  <-> (exists v, v ∈ vs /\ v_id v = w)
      \/ (exists l, l ∈ ls /\ (l_from_vertex l = w \/ l_to_vertex l = w)).
Proof.
  unfold build_graph.
  rewrite has_node_fold_edges, has_node_fold_nodes. simpl.
  rewrite orb_true_iff, !existsb_exists. split.
  - intros [(v & Hin & Hv) | (l & Hin & Hl)].
    + left. exists v. split; [now apply list_elem_of_In|].
      symmetry. now apply Z.eqb_eq.
    + right. exists l. split; [now apply list_elem_of_In|].
      apply orb_true_iff in Hl as [Hl | Hl]; apply Z.eqb_eq in Hl; auto.
  - intros [(v & Hin & Hv) | (l & Hin & Hl)].
    + left. exists v. split; [now apply list_elem_of_In|].
      apply Z.eqb_eq. congruence.
    + right. exists l. split; [now apply list_elem_of_In|].
      apply orb_true_iff. destruct Hl as [<- | <-];
        rewrite Z.eqb_refl; auto.
Qed.

End LoadedGraph.

(** * Further scenarios *)

Section MoreScenarios.
Import Scenario.

Lemma start_fleet_inv : fleet_inv FleetManager.init Line.store.
Proof. split; [done|]. split; [reflexivity | constructor]. Qed.

(** X2 on the line: vertex 1 goes to robot 7, robot 8 comes too late. *)
Lemma reserve_vertex_second_fails :
  exists g',
    reserve_vertex 1 7 Line.store = Ok (true, g')
    /\ reserve_vertex 1 8 g' = Ok (false, g').
Proof.
  eexists. split; [reflexivity|].
  eapply (reserve_vertex_twice Line.store _ 1 7 8 true). reflexivity.
Defined.

(** X3 on the line: lane 0-1 reserved and released by robot 7. *)
Lemma reserve_release_lane_on_line :
  exists g',
    reserve_lane 0 1 7 Line.store = (true, g')
    /\ release_lane 0 1 7 g' = Line.store.
Proof.
  eexists. split; [reflexivity|].
  apply reserve_release_lane; [apply line_lanes_inv | reflexivity].
Defined.

(** X4 on the line: vertex 1 reserved and released by robot 7. *)
Lemma reserve_release_vertex_on_line :
  exists g',
    reserve_vertex 1 7 Line.store = Ok (true, g')
    /\ release_vertex 1 7 g' = Ok Line.store.
Proof.
  eexists. split; [reflexivity|].
  apply reserve_release_vertex. reflexivity.
Defined.

(** X5 on the blocked line: for robot 1 the path 0, 1, 2 has one
    conflict, vertex 1, because lane 0-1 is held by robot 0. *)
Lemma conflict_on_blocked_line :
  TrafficManager.check_path_conflicts 1 [0; 1; 2] (store_of blocked) = Ok [1]
  /\ exists k from_vertex,
       [0; 1; 2] !! k = Some from_vertex /\ [0; 1; 2] !! S k = Some 1
       /\ ((exists vertex,
              py_getitem (vertices (store_of blocked)) 1 = Ok vertex
              /\ v_occupying_robot vertex <> None)
           \/ (exists i lane o,
                 first_lane from_vertex 1 (lanes (store_of blocked)) i lane
                 /\ l_occupying_robot lane = Some o /\ o <> 1)).
Proof.
  split; [reflexivity|].
  apply (proj1 (check_path_conflicts_spec 1 [0; 1; 2] (store_of blocked) [1]
                  eq_refl 1)).
  apply list_elem_of_singleton. reflexivity.
Defined.

(** X8 on the line: lane 0-1 reserved by robot 7, who is not registered. *)
Lemma status_after_reserve :
  exists g',
    reserve_lane 0 1 7 Line.store = (true, g')
    /\ TrafficManager.get_lane_status FleetManager.init g' 0 1
       = Ok (Some {| TrafficManager.ls_from_vertex := 0;
                     TrafficManager.ls_to_vertex := 1;
                     TrafficManager.ls_is_blocked := false;
                     TrafficManager.ls_occupying_robot := Some 7;
                     TrafficManager.ls_robot_info := None |}).
Proof.
  eexists. split; [reflexivity|].
  exact (reserve_lane_then_status FleetManager.init Line.store _ 0 1 7 eq_refl).
Defined.

(** X9 after the assignment: robot 0 leaves vertex 0 for vertex 1. *)
Lemma assigned_robot_departs :
  exists r r' g' u,
    robot_of 0 assigned = Ok r
    /\ Robot.update frame r (store_of assigned) = Ok (r', g', u)
    /\ Robot.state r' = Robot.MOVING
    /\ l_occupying_robot <$> lanes g' !! 0%nat = Some (Some 0)
    /\ v_occupying_robot <$> vertices g' !! 0%nat = Some None.
Proof.
  lazymatch eval hnf in (robot_of 0 assigned) with
  | Ok ?r =>
      destruct (update_departs (SC := float_scalar) frame r
                  (store_of assigned) 1 0 (new_lane (SC := float_scalar) 0 1 0%float))
        as (Hdeparts & _);
      [ right; right; split; [reflexivity|]; eexists; split; reflexivity
      | reflexivity
      | apply (first_lane_head 0 1); reflexivity
      | reflexivity
      | reflexivity
      | unfold valid_index; simpl; lia
      | destruct (Hdeparts (250%float, 150%float) eq_refl)
          as (g' & Hrel & Hupd & Hlane);
        exists r ]
  end.
  eexists _, g', _. split; [reflexivity|]. split; [exact Hupd|].
  split; [reflexivity|]. split; [exact Hlane|].
  injection Hrel as <-. reflexivity.
Defined.

(** X10 on the blocked line: robot 1 keeps waiting, nothing changes. *)
Lemma blocked_robot_waits :
  exists r,
    robot_of 1 blocked = Ok r
    /\ Robot.update frame r (store_of blocked)
       = Ok (r, store_of blocked, quiet_status r).
Proof.
  lazymatch eval hnf in (robot_of 1 blocked) with
  | Ok ?r =>
      exists r; split; [reflexivity|];
      refine (update_waits (SC := float_scalar) frame r (store_of blocked) 1
                (or_introl eq_refl) eq_refl _)
  end.
  intros i lane Hf. left.
  assert (first_lane 0 1 (lanes (store_of blocked)) 0
            (lane_set_occupying_robot (Some 0) (new_lane (SC := float_scalar) 0 1 0%float)))
    as Hhead by (apply (first_lane_head 0 1); reflexivity).
  destruct (first_lane_unique _ _ _ _ _ _ _ Hhead Hf) as [_ <-].
  discriminate.
Defined.

(** X11 and X12 after the departure: robot 0 moves on, its task is what it
    was and no reservation of another robot is touched. *)
Lemma moving_robot_keeps_task :
  exists r r' g' u,
    robot_of 0 departed = Ok r
    /\ Robot.update frame r (store_of departed) = Ok (r', g', u)
    /\ Robot.path r' = Robot.path r
    /\ Robot.su_state u = Robot.state r'.
Proof.
  eexists _, _, _, _. split; [reflexivity|]. split; [reflexivity|].
  lazymatch goal with
  | |- Robot.path ?r' = Robot.path ?r /\ Robot.su_state ?u = _ =>
      destruct (update_keeps_task (SC := float_scalar) frame r r'
                  (store_of departed) (store_of departed) u eq_refl)
        as (_ & Hpath & _ & _ & _ & _ & _ & _ & _ & Hstate)
  end.
  split; [exact Hpath | exact Hstate].
Defined.

Lemma moving_robot_keeps_foreign :
  exists r r' g' u,
    robot_of 0 departed = Ok r
    /\ Robot.update frame r (store_of departed) = Ok (r', g', u)
    /\ keeps_foreign (Robot.id r) (store_of departed) g'.
Proof.
  eexists _, _, _, _. split; [reflexivity|]. split; [reflexivity|].
  lazymatch goal with
  | |- keeps_foreign (Robot.id ?r) _ _ =>
      eapply (update_keeps_foreign (SC := float_scalar) frame r)
  end.
  reflexivity.
Defined.

(** X13 at the charger: idle with a path, charging after one tick, moving
    after two. *)
Lemma charger_robot_leaves :
  exists r r2 g2,
    robot_of 0 charger_assigned = Ok r
    /\ Robot.state r = Robot.IDLE
    /\ run_calls [call_update frame; call_update frame] r
         (store_of charger_assigned) = Ok (r2, g2)
    /\ (Robot.state r2 = Robot.MOVING \/ Robot.state r2 = Robot.WAITING).
Proof.
  lazymatch eval hnf in (robot_of 0 charger_assigned) with
  | Ok ?r =>
      destruct (charger_pass_through (SC := float_scalar) frame frame r
                  (store_of charger_assigned) _ 1 (250%float, 150%float)
                  eq_refl eq_refl eq_refl eq_refl eq_refl)
        as (_ & r2 & g2 & Hrun & Hstate);
      exists r, r2, g2
  end.
  split; [reflexivity|]. split; [reflexivity|]. split; done.
Defined.

(** X14 on the line: after the session the invariants hold. *)
Lemma session_keeps_invariants :
  run_commands session FleetManager.init Line.store
  = Ok (fleet_of after_session, store_of after_session)
  /\ lanes_inv (lanes (store_of after_session))
  /\ fleet_inv (fleet_of after_session) (store_of after_session)
  /\ length (vertices (store_of after_session))
     = length (vertices Line.store).
Proof.
  assert (run_commands session FleetManager.init Line.store
          = Ok (fleet_of after_session, store_of after_session)) as Hrun
    by reflexivity.
  split; [exact Hrun|].
  exact (run_commands_inv (SC := float_scalar) session FleetManager.init _
           Line.store _ line_lanes_inv start_fleet_inv Hrun).
Defined.

(** X15 on the line: the first robot gets id 0 and is alone in the
    registry. *)
Lemma first_spawn_appends :
  exists fm' g' robot,
    FleetManager.spawn_robot 0 0%float FleetManager.init Line.store
    = Ok (Some 0, fm', g')
    /\ FleetManager.robots fm' = [(0, robot)]
    /\ FleetManager.next_robot_id fm' = 1.
Proof.
  eexists _, _, _. split; [reflexivity|].
  lazymatch goal with
  | |- FleetManager.robots ?fm' = _ /\ _ =>
      destruct (spawn_robot_appends (SC := float_scalar) 0 0%float
                  FleetManager.init fm' Line.store _ 0 start_fleet_inv
                  eq_refl)
        as (_ & _ & Hnext & robot & _ & Hrobots)
  end.
  split; [reflexivity | exact Hnext].
Defined.

(** X16 on the line: a second spawn on vertex 0 is refused. *)
Lemma second_spawn_refused :
  exists fm' g',
    FleetManager.spawn_robot 0 0%float FleetManager.init Line.store
    = Ok (Some 0, fm', g')
    /\ FleetManager.spawn_robot 0 1%float fm' g' = Ok (None, fm', g').
Proof.
  eexists _, _. split; [reflexivity|].
  eapply (spawn_robot_twice (SC := float_scalar) 0 0%float 1%float
            FleetManager.init _ Line.store _ 0).
  reflexivity.
Defined.

(** X18 on the neighbours: a click at vertex 1 picks robot 1, the click in
    the middle is too far from both. *)
Lemma click_picks_nearest :
  fst (FleetManager.select_robot 250%float 150%float 20%float
         (fleet_of neighbours)) = Some 1
  /\ fst (FleetManager.select_robot 175%float 150%float 20%float
            (fleet_of neighbours)) = None
  /\ exists robot,
       robot_of 1 neighbours = Ok robot
       /\ Forall (fun kv =>
                    num_lt (FleetManager.click_distance 250%float 150%float
                              (snd kv))
                      (FleetManager.click_distance 250%float 150%float robot)
                    = false)
            (FleetManager.robots (fleet_of neighbours)).
Proof.
  split; [reflexivity|]. split; [reflexivity|].
  destruct (proj2 (proj2 (select_robot_nearest (SC := float_scalar)
                            250%float 150%float 20%float
                            (fleet_of neighbours))))
    with (rid := 1) as (_ & before & robot & after & Hrs & _ & Hmin & _).
  - apply strict_onb_sound. reflexivity.
  - reflexivity.
  - exists robot. split; [|exact Hmin].
    destruct before as [|kv0 [|kv1 before]]; simpl in Hrs.
    + discriminate Hrs.
    + now injection Hrs as _ <-.
    + injection Hrs as _ _ Hrs. now destruct before.
Defined.

(** X20 and X21 on the blocked line: the override takes lane 0-1 from
    robot 0, a second call finds nothing to do, and robot 1 departs on its
    next tick. *)
Lemma override_once :
  exists g',
    TrafficManager.resolve_deadlocks (fleet_of blocked) (store_of blocked)
    = Ok (1, g')
    /\ TrafficManager.resolve_deadlocks (fleet_of blocked) g' = Ok (0, g').
Proof.
  eexists. split; [reflexivity|].
  eapply (resolve_deadlocks_twice (fleet_of blocked) (store_of blocked) _ 1).
  reflexivity.
Defined.

Lemma override_then_departure :
  exists robot g1 r' g2 u,
    robot_of 1 blocked = Ok robot
    /\ TrafficManager.resolve_deadlocks (fleet_of blocked) (store_of blocked)
       = Ok (1, g1)
    /\ Robot.update frame robot g1 = Ok (r', g2, u)
    /\ Robot.state r' = Robot.MOVING
    /\ l_occupying_robot <$> lanes g2 !! 0%nat = Some (Some 1).
Proof.
  assert (dict_wf (FleetManager.robots (fleet_of blocked))) as Hwf.
  { unfold dict_wf. simpl. apply NoDup_cons. split; [|apply NoDup_singleton].
    rewrite list_elem_of_singleton. discriminate. }
  lazymatch eval hnf in (robot_of 1 blocked) with
  | Ok ?robot =>
      destruct (resolve_then_departs (SC := float_scalar) frame
                  (fleet_of blocked) (store_of blocked) 1 robot 1 0
                  (lane_set_occupying_robot (Some 0) (new_lane (SC := float_scalar) 0 1 0%float))
                  (250%float, 150%float) Hwf blocked_lanes_inv)
        as (n & g1 & r' & g2 & u & Hres & Hupd & Hstate & _ & _ & Hlane);
      [ eexists [_], []; split; [reflexivity|];
        split; [repeat constructor; discriminate | reflexivity]
      | reflexivity
      | apply (first_lane_head 0 1); reflexivity
      | reflexivity
      | unfold valid_index; simpl; lia
      | reflexivity
      | exists robot, g1, r', g2, u ]
  end.
  split; [reflexivity|].
  assert (n = 1) as ->.
  { assert (exists g, TrafficManager.resolve_deadlocks (fleet_of blocked)
                        (store_of blocked) = Ok (1, g)) as [g Hg]
      by (eexists; reflexivity).
    congruence. }
  split; [exact Hres|]. split; [exact Hupd|]. split; [exact Hstate|].
  exact Hlane.
Defined.

(** X23 on the line: robot 0 arrives at vertex 1, which robot 1 holds. *)
Lemma two_robots_on_one_vertex :
  exists r r' g' u,
    robot_of 0 approaching = Ok r
    /\ Robot.update frame r (store_of approaching) = Ok (r', g', u)
    /\ Robot.current_vertex r' = 1
    /\ v_occupying_robot <$> vertices g' !! 1%nat = Some (Some 1).
Proof.
  lazymatch eval hnf in (robot_of 0 approaching) with
  | Ok ?r =>
      destruct (arrival_on_occupied_vertex (SC := float_scalar) frame r
                  (store_of approaching) 1 1 _ eq_refl eq_refl eq_refl
                  eq_refl eq_refl)
        as (g' & u & Hupd & Hcv & _ & Hvs & _);
      exists r, (arrived r 1), g', u
  end.
  split; [reflexivity|]. split; [exact Hupd|]. split; [exact Hcv|].
  now rewrite Hvs.
Defined.

End MoreScenarios.
